(** * pygbm: the best-first tree grower ([pygbm/grower.py])

    A shallow embedding of [TreeNode] and [TreeGrower] and the proofs of
    the grower's laws: leaf budget, depth bound, leaf weights, priority
    order of the queue, error behaviour and the preorder layout of the
    predictor array.

    Python objects live in an object store ([nodes], a list indexed by
    allocation order); a reference to a [TreeNode] is its index.  Methods
    are written in a state-and-exception monad whose state survives a
    raised exception, as a mutated Python object does.  Floating-point
    numbers are kept abstract ([Scalar]): the grower only multiplies,
    adds, divides and compares them, and no law of arithmetic is assumed
    unless a theorem says so. *)

From Stdlib Require Import ZArith QArith String List Lia ZifyNat DecimalString.
From Stdlib Require DecimalPos DecimalZ.
From stdpp Require Import base list.

Local Open Scope Z_scope.

(* let lia reason about division by a constant *)
Ltac Zify.zify_post_hook ::= Z.to_euclidean_division_equations.

(** ** Scalars: Python / numpy floating-point numbers *)

Class Scalar := {
  scalar : Type;
  szero : scalar;                          (* 0.0, the content of np.zeros *)
  sadd : scalar -> scalar -> scalar;       (* a + b *)
  smul : scalar -> scalar -> scalar;       (* a * b *)
  sdiv : scalar -> scalar -> scalar;       (* a / b *)
  sltb : scalar -> scalar -> bool;         (* a < b *)
  ssum : list scalar -> scalar             (* ndarray.sum() *)
}.

(** [a > b] is the reflected [b < a]. *)
Definition sgtb `{Scalar} (a b : scalar) : bool := sltb b a.

(** ** Exceptions and the monad *)

Inductive exn : Type :=
| NotImplementedError (msg : string)
| ValueError (msg : string)
| StopIteration (msg : string)
| IndexError (msg : string)
| AttributeError (msg : string)
| InvalidReference.   (* a reference outside the object store: impossible in
                         Python, where a reference keeps its object alive *)

Inductive outcome (A : Type) : Type :=
| Ok (a : A)
| Raise (e : exn)
| OutOfFuel.          (* a loop of the model was cut short *)
Arguments Ok {A} a.
Arguments Raise {A} e.
Arguments OutOfFuel {A}.

Definition M (S A : Type) : Type := S -> S * outcome A.

Definition ret {S A} (a : A) : M S A := fun s => (s, Ok a).

Definition bind {S A B} (m : M S A) (k : A -> M S B) : M S B :=
  fun s =>
    match m s with
    | (s', Ok a) => k a s'
    | (s', Raise e) => (s', Raise e)
    | (s', OutOfFuel) => (s', OutOfFuel)
    end.

Definition raise {S A} (e : exn) : M S A := fun s => (s, Raise e).
Definition out_of_fuel {S A} : M S A := fun s => (s, OutOfFuel).
Definition gets {S A} (f : S -> A) : M S A := fun s => (s, Ok (f s)).
Definition modify {S} (f : S -> S) : M S unit := fun s => (f s, Ok tt).

(** Run a computation on a component of the state. *)
Definition zoom {S T A} (get : S -> T) (set : T -> S -> S) (m : M T A) : M S A :=
  fun s => let (t, r) := m (get s) in (set t s, r).

Notation "'do' x <- m ; k" := (bind m (fun x => k))
  (at level 10, x name, m at level 100, k at level 200).
Notation "'do' ' p <- m ; k" := (bind m (fun x => match x with p => k end))
  (at level 10, p pattern, m at level 100, k at level 200).
Notation "m ;;; k" := (bind m (fun _ => k))
  (at level 100, k at level 200, right associativity).

(** ** Data model *)

(** A reference to a [TreeNode]: its index in the object store. *)
Abbreviation node_ref := nat (only parsing).

(** [SplitInfo] (declared in splitting.py): the fields the grower reads. *)
Record SplitInfo `{Scalar} : Type := mkSplitInfo {
  gain : scalar;
  feature_idx : Z;
  bin_idx : Z;
  gradient_left : scalar;
  hessian_left : scalar;
  gradient_right : scalar;
  hessian_right : scalar
}.

(** [class TreeNode]; the four class attributes default to [None]. *)
Record TreeNode `{Scalar} : Type := mkTreeNode {
  depth : Z;
  sample_indices : list nat;
  sum_gradients : scalar;
  sum_hessians : scalar;
  split_info : option SplitInfo;
  left_child : option node_ref;
  right_child : option node_ref;
  weight : option scalar
}.

Definition set_split_info `{Scalar} (v : option SplitInfo) (n : TreeNode) : TreeNode :=
  mkTreeNode _ (depth n) (sample_indices n) (sum_gradients n) (sum_hessians n)
             v (left_child n) (right_child n) (weight n).
Definition set_left_child `{Scalar} (v : option node_ref) (n : TreeNode) : TreeNode :=
  mkTreeNode _ (depth n) (sample_indices n) (sum_gradients n) (sum_hessians n)
             (split_info n) v (right_child n) (weight n).
Definition set_right_child `{Scalar} (v : option node_ref) (n : TreeNode) : TreeNode :=
  mkTreeNode _ (depth n) (sample_indices n) (sum_gradients n) (sum_hessians n)
             (split_info n) (left_child n) v (weight n).
Definition set_weight `{Scalar} (v : option scalar) (n : TreeNode) : TreeNode :=
  mkTreeNode _ (depth n) (sample_indices n) (sum_gradients n) (sum_hessians n)
             (split_info n) (left_child n) (right_child n) v.

(** The binned feature matrix, as far as the grower looks at it. *)
Inductive dtype : Type := uint8 | uint32 | int64 | float32 | float64.

Definition dtype_eqb (a b : dtype) : bool :=
  match a, b with
  | uint8, uint8 | uint32, uint32 | int64, int64
  | float32, float32 | float64, float64 => true
  | _, _ => false
  end.

Record ndarray : Type := mkNdarray {
  arr_dtype : dtype;
  f_contiguous : bool;
  shape0 : nat;            (* shape[0]: samples *)
  shape1 : nat;            (* shape[1]: features *)
  buffer : list Z
}.

(** [HistogramSplitter] lives in splitting.py, which is not part of the
    sources at hand: the class is a parameter, with its constructor, the
    three attributes and the two methods that the grower uses. *)
Class HistogramSplitterAPI `{Scalar} := {
  HistogramSplitter : Type;
  new_HistogramSplitter :
    nat -> ndarray -> Z -> list scalar -> list scalar -> scalar -> scalar ->
    HistogramSplitter;
  all_gradients : HistogramSplitter -> list scalar;
  all_hessians : HistogramSplitter -> list scalar;
  l2_regularization : HistogramSplitter -> scalar;
  find_node_split : HistogramSplitter -> list nat -> SplitInfo;
  split_indices :
    HistogramSplitter -> list nat -> SplitInfo -> list nat * list nat
}.

(** One record of the predictor array ([PREDICTOR_RECORD_DTYPE], declared
    in predictor.py; the fields are those [_fill_predictor_node_array]
    assigns, stored without narrowing). *)
Record PredictorRecord `{Scalar} : Type := mkPredictorRecord {
  p_weight : scalar;
  p_is_leaf : bool;
  p_feature_idx : Z;
  p_bin_threshold : Z;
  p_left : nat;
  p_right : nat
}.

Definition zero_record `{Scalar} : PredictorRecord :=
  mkPredictorRecord _ szero false 0 0 0%nat 0%nat.

(** ** [heapq]: the binary heap of the Python standard library

    [heappush] and [heappop] as in CPython's Lib/heapq.py, on a Python
    list that is updated in place.  The only operation on items is [<],
    which may raise. *)

Section heapq.
Context {A : Type} (lt : A -> A -> outcome bool).

(** [heap[i]] *)
Definition getitem (i : nat) : M (list A) A := fun heap =>
  match heap !! i with
  | Some x => (heap, Ok x)
  | None => (heap, Raise (IndexError "list index out of range"))
  end.

(** [heap[i] = x] *)
Definition setitem (i : nat) (x : A) : M (list A) unit := fun heap =>
  if (i <? length heap)%nat then (<[i := x]> heap, Ok tt)
  else (heap, Raise (IndexError "list assignment index out of range")).

(** [heap.append(x)] *)
Definition append (x : A) : M (list A) unit := fun heap => (heap ++ [x], Ok tt).

(** [heap.pop()] *)
Definition pop : M (list A) A := fun heap =>
  match last heap with
  | Some x => (removelast heap, Ok x)
  | None => (heap, Raise (IndexError "pop from empty list"))
  end.

(** [len(heap)] *)
Definition len : M (list A) nat := gets (@length A).

(** [a < b] *)
Definition less (a b : A) : M (list A) bool := fun heap => (heap, lt a b).

(** The loop of [_siftdown]: move parents down until [newitem] fits;
    the result is the final [pos]. *)
Fixpoint _siftdown_loop (fuel : nat) (newitem : A) (startpos pos : nat)
  : M (list A) nat :=
  if (startpos <? pos)%nat then
    match fuel with
    | O => out_of_fuel
    | S fuel =>
        let parentpos := Nat.shiftr (pos - 1) 1 in
        do parent <- getitem parentpos;
        do b <- less newitem parent;
        if b then
          setitem pos parent ;;;
          _siftdown_loop fuel newitem startpos parentpos
        else ret pos
    end
  else ret pos.

Definition _siftdown (startpos pos : nat) : M (list A) unit :=
  do newitem <- getitem pos;
  do pos <- _siftdown_loop pos newitem startpos pos;
  setitem pos newitem.

(** The loop of [_siftup]: bubble the smaller child up until a leaf is
    reached; the result is the final [pos]. *)
Fixpoint _siftup_loop (fuel : nat) (endpos pos childpos : nat)
  : M (list A) nat :=
  if (childpos <? endpos)%nat then
    match fuel with
    | O => out_of_fuel
    | S fuel =>
        let rightpos := (childpos + 1)%nat in
        do childpos <-
          (if (rightpos <? endpos)%nat then
             do l <- getitem childpos;
             do r <- getitem rightpos;
             do b <- less l r;
             ret (if negb b then rightpos else childpos)
           else ret childpos);
        do c <- getitem childpos;
        setitem pos c ;;;
        _siftup_loop fuel endpos childpos (2 * childpos + 1)%nat
    end
  else ret pos.

Definition _siftup (pos : nat) : M (list A) unit :=
  do endpos <- len;
  let startpos := pos in
  do newitem <- getitem pos;
  do pos <- _siftup_loop endpos endpos pos (2 * pos + 1)%nat;
  setitem pos newitem ;;;
  _siftdown startpos pos.

Definition heappush (item : A) : M (list A) unit :=
  append item ;;;
  do n <- len;
  _siftdown 0%nat (n - 1)%nat.

Definition heappop : M (list A) A :=
  do lastelt <- pop;
  do n <- len;
  if (0 <? n)%nat then
    do returnitem <- getitem 0%nat;
    setitem 0%nat lastelt ;;;
    _siftup 0%nat ;;;
    ret returnitem
  else ret lastelt.
End heapq.

(** ** The grower *)

Section Grower.
Context `{HistogramSplitterAPI}.

(** [TreeNode.__lt__]: the comparison the priority queue uses. *)
Definition TreeNode_lt (self other_node : TreeNode) : outcome bool :=
  match split_info self, split_info other_node with
  | Some s, Some o => Ok (sgtb (gain s) (gain o))
  | _, _ => Raise (ValueError "Cannot compare nodes with split_info")
  end.

(** [a < b] for two references into the object store. *)
Definition ref_lt (store : list TreeNode) (a b : node_ref) : outcome bool :=
  match store !! a, store !! b with
  | Some x, Some y => TreeNode_lt x y
  | _, _ => Raise InvalidReference
  end.

(** The attributes of a [TreeGrower], the object store of its nodes, and
    the effects on the outside: the arguments of every call of
    [find_node_split] (latest last) and the warnings issued. *)
Record State : Type := mkState {
  splitter : option HistogramSplitter;
  max_leaf_nodes : option Z;
  max_depth : option Z;
  features_data : ndarray;
  min_gain_to_split : scalar;
  shrinkage : scalar;
  splittable_nodes : list node_ref;
  finalized_leaves : list node_ref;
  root : node_ref;
  n_nodes : Z;
  nodes : list TreeNode;
  find_node_split_calls : list (list nat);
  warnings : list string
}.

Definition with_splitter (v : option HistogramSplitter) (s : State) : State :=
  mkState v (max_leaf_nodes s) (max_depth s) (features_data s)
          (min_gain_to_split s) (shrinkage s) (splittable_nodes s)
          (finalized_leaves s) (root s) (n_nodes s) (nodes s)
          (find_node_split_calls s) (warnings s).
Definition with_max_leaf_nodes (v : option Z) (s : State) : State :=
  mkState (splitter s) v (max_depth s) (features_data s)
          (min_gain_to_split s) (shrinkage s) (splittable_nodes s)
          (finalized_leaves s) (root s) (n_nodes s) (nodes s)
          (find_node_split_calls s) (warnings s).
Definition with_max_depth (v : option Z) (s : State) : State :=
  mkState (splitter s) (max_leaf_nodes s) v (features_data s)
          (min_gain_to_split s) (shrinkage s) (splittable_nodes s)
          (finalized_leaves s) (root s) (n_nodes s) (nodes s)
          (find_node_split_calls s) (warnings s).
Definition with_features_data (v : ndarray) (s : State) : State :=
  mkState (splitter s) (max_leaf_nodes s) (max_depth s) v
          (min_gain_to_split s) (shrinkage s) (splittable_nodes s)
          (finalized_leaves s) (root s) (n_nodes s) (nodes s)
          (find_node_split_calls s) (warnings s).
Definition with_min_gain_to_split (v : scalar) (s : State) : State :=
  mkState (splitter s) (max_leaf_nodes s) (max_depth s) (features_data s)
          v (shrinkage s) (splittable_nodes s)
          (finalized_leaves s) (root s) (n_nodes s) (nodes s)
          (find_node_split_calls s) (warnings s).
Definition with_shrinkage (v : scalar) (s : State) : State :=
  mkState (splitter s) (max_leaf_nodes s) (max_depth s) (features_data s)
          (min_gain_to_split s) v (splittable_nodes s)
          (finalized_leaves s) (root s) (n_nodes s) (nodes s)
          (find_node_split_calls s) (warnings s).
Definition with_splittable_nodes (v : list node_ref) (s : State) : State :=
  mkState (splitter s) (max_leaf_nodes s) (max_depth s) (features_data s)
          (min_gain_to_split s) (shrinkage s) v
          (finalized_leaves s) (root s) (n_nodes s) (nodes s)
          (find_node_split_calls s) (warnings s).
Definition with_finalized_leaves (v : list node_ref) (s : State) : State :=
  mkState (splitter s) (max_leaf_nodes s) (max_depth s) (features_data s)
          (min_gain_to_split s) (shrinkage s) (splittable_nodes s)
          v (root s) (n_nodes s) (nodes s)
          (find_node_split_calls s) (warnings s).
Definition with_root (v : node_ref) (s : State) : State :=
  mkState (splitter s) (max_leaf_nodes s) (max_depth s) (features_data s)
          (min_gain_to_split s) (shrinkage s) (splittable_nodes s)
          (finalized_leaves s) v (n_nodes s) (nodes s)
          (find_node_split_calls s) (warnings s).
Definition with_n_nodes (v : Z) (s : State) : State :=
  mkState (splitter s) (max_leaf_nodes s) (max_depth s) (features_data s)
          (min_gain_to_split s) (shrinkage s) (splittable_nodes s)
          (finalized_leaves s) (root s) v (nodes s)
          (find_node_split_calls s) (warnings s).
Definition with_nodes (v : list TreeNode) (s : State) : State :=
  mkState (splitter s) (max_leaf_nodes s) (max_depth s) (features_data s)
          (min_gain_to_split s) (shrinkage s) (splittable_nodes s)
          (finalized_leaves s) (root s) (n_nodes s) v
          (find_node_split_calls s) (warnings s).
Definition with_find_node_split_calls (v : list (list nat)) (s : State) : State :=
  mkState (splitter s) (max_leaf_nodes s) (max_depth s) (features_data s)
          (min_gain_to_split s) (shrinkage s) (splittable_nodes s)
          (finalized_leaves s) (root s) (n_nodes s) (nodes s)
          v (warnings s).
Definition with_warnings (v : list string) (s : State) : State :=
  mkState (splitter s) (max_leaf_nodes s) (max_depth s) (features_data s)
          (min_gain_to_split s) (shrinkage s) (splittable_nodes s)
          (finalized_leaves s) (root s) (n_nodes s) (nodes s)
          (find_node_split_calls s) v.

(** A [TreeGrower] object on which [__init__] has not run yet.  No
    attribute is assigned; the ones without a meaningful default read as
    empty or zero, and [splitter] is absent. *)
Definition fresh_ndarray : ndarray := mkNdarray uint8 true 0 0 [].
Definition fresh_object : State :=
  mkState None None None fresh_ndarray szero szero [] [] 0%nat 0 [] [] [].

(** *** Access to the object store *)

(** Dereference a node. *)
Definition get_node (r : node_ref) : M State TreeNode := fun s =>
  match nodes s !! r with
  | Some n => (s, Ok n)
  | None => (s, Raise InvalidReference)
  end.

(** Assign an attribute of a node. *)
Definition update_node (r : node_ref) (f : TreeNode -> TreeNode) : M State unit :=
  fun s =>
    match nodes s !! r with
    | Some n => (with_nodes (<[r := f n]> (nodes s)) s, Ok tt)
    | None => (s, Raise InvalidReference)
    end.

(** [TreeNode(depth, sample_indices, sum_gradients, sum_hessians)] *)
Definition new_TreeNode (d : Z) (idx : list nat) (g h : scalar) : M State node_ref :=
  fun s =>
    (with_nodes (nodes s ++ [mkTreeNode _ d idx g h None None None None]) s,
     Ok (length (nodes s))).

(** [self.splitter] *)
Definition get_splitter : M State HistogramSplitter := fun s =>
  match splitter s with
  | Some sp => (s, Ok sp)
  | None =>
      (s, Raise (AttributeError "'TreeGrower' object has no attribute 'splitter'"))
  end.

(** [self.splitter.find_node_split(sample_indices)], recorded as an effect. *)
Definition call_find_node_split (idx : list nat) : M State SplitInfo :=
  do sp <- get_splitter;
  modify (fun s => with_find_node_split_calls (find_node_split_calls s ++ [idx]) s) ;;;
  ret (find_node_split sp idx).

(** [heappush(self.splittable_nodes, node)] and [heappop(self.splittable_nodes)]:
    the heap compares references through the store. *)
Definition push_splittable (node : node_ref) : M State unit := fun s =>
  zoom splittable_nodes with_splittable_nodes (heappush (ref_lt (nodes s)) node) s.

Definition pop_splittable : M State node_ref := fun s =>
  zoom splittable_nodes with_splittable_nodes (heappop (ref_lt (nodes s))) s.

(** *** Methods of [TreeGrower] *)

Definition _finalize_leaf (node : node_ref) : M State unit :=
  do n <- get_node node;
  do sh <- gets shrinkage;
  do sp <- get_splitter;
  update_node node
    (set_weight (Some (sdiv (smul sh (sum_gradients n))
                            (sadd (sum_hessians n) (l2_regularization sp))))) ;;;
  modify (fun s => with_finalized_leaves (finalized_leaves s ++ [node]) s).

Definition _compute_spittability (node : node_ref) : M State unit :=
  do n <- get_node node;
  do si <- call_find_node_split (sample_indices n);
  update_node node (set_split_info (Some si)) ;;;
  do mg <- gets min_gain_to_split;
  if sltb (gain si) mg then _finalize_leaf node
  else push_splittable node.

(** The loop of [_finalize_splittable_nodes]; every turn pops one node, so
    the length of the queue bounds the number of turns. *)
Fixpoint _finalize_splittable_nodes_loop (fuel : nat) : M State unit :=
  do q <- gets splittable_nodes;
  if (0 <? length q)%nat then
    match fuel with
    | O => out_of_fuel
    | S fuel =>
        do node <- zoom splittable_nodes with_splittable_nodes pop;
        _finalize_leaf node ;;;
        _finalize_splittable_nodes_loop fuel
    end
  else ret tt.

Definition _finalize_splittable_nodes : M State unit :=
  do q <- gets splittable_nodes;
  _finalize_splittable_nodes_loop (length q).

Definition can_split_further : M State bool :=
  do q <- gets splittable_nodes;
  ret (1 <=? length q)%nat.

Definition opt_eqb (o : option Z) (v : Z) : bool :=
  match o with
  | Some x => x =? v
  | None => false
  end.

Definition split_next : M State (node_ref * node_ref) :=
  do q <- gets splittable_nodes;
  if (length q =? 0)%nat then raise (StopIteration "No more splittable nodes")
  else
    do node <- pop_splittable;
    do n <- get_node node;
    do sp <- get_splitter;
    do si <- match split_info n with
             | Some si => ret si
             | None =>
                 raise (AttributeError
                          "'NoneType' object has no attribute 'feature_idx'")
             end;
    let '(sample_indices_left, sample_indices_right) :=
      split_indices sp (sample_indices n) si in
    let depth := depth n + 1 in
    do fl <- gets finalized_leaves;
    do q <- gets splittable_nodes;
    let n_leaf_nodes := Z.of_nat (length fl) + Z.of_nat (length q) in
    let n_leaf_nodes := n_leaf_nodes + 2 in
    do left_child_node <-
      new_TreeNode depth sample_indices_left (gradient_left si) (hessian_left si);
    update_node node (set_left_child (Some left_child_node)) ;;;
    do right_child_node <-
      new_TreeNode depth sample_indices_right (gradient_right si) (hessian_right si);
    update_node node (set_right_child (Some right_child_node)) ;;;
    modify (fun s => with_n_nodes (n_nodes s + 2) s) ;;;
    do md <- gets max_depth;
    do ml <- gets max_leaf_nodes;
    (if opt_eqb md depth then
       _finalize_leaf left_child_node ;;;
       _finalize_leaf right_child_node
     else if opt_eqb ml n_leaf_nodes then
       _finalize_leaf left_child_node ;;;
       _finalize_leaf right_child_node ;;;
       _finalize_splittable_nodes
     else
       _compute_spittability left_child_node ;;;
       _compute_spittability right_child_node) ;;;
    ret (left_child_node, right_child_node).

(** [grow]: [fuel] bounds the number of turns of the loop. *)
Fixpoint grow (fuel : nat) : M State unit :=
  do b <- can_split_further;
  if b then
    match fuel with
    | O => out_of_fuel
    | S fuel => split_next ;;; grow fuel
    end
  else ret tt.

(** [k] calls of [split_next] in a row, if all of them succeed. *)
Fixpoint split_times (k : nat) (st : State) : option State :=
  match k with
  | O => Some st
  | S k =>
      match split_next st with
      | (st', Ok _) => split_times k st'
      | _ => None
      end
  end.

Definition _intilialize_root : M State unit :=
  do fd <- gets features_data;
  let n_samples := shape0 fd in
  let depth := 0 in
  do sp <- get_splitter;
  do r <- new_TreeNode depth (seq 0 n_samples)
                       (ssum (all_gradients sp)) (ssum (all_hessians sp));
  modify (with_root r) ;;;
  do ml <- gets max_leaf_nodes;
  if opt_eqb ml 1 then _finalize_leaf r
  else _compute_spittability r.

(** The arguments of [TreeGrower.__init__] (the caller fills in the
    defaults of the signature). *)
Record InitArgs : Type := mkInitArgs {
  a_features_data : ndarray;
  a_all_gradients : list scalar;
  a_all_hessians : list scalar;
  a_max_leaf_nodes : option Z;
  a_max_depth : option Z;
  a_min_gain_to_split : scalar;
  a_n_bins : Z;
  a_l2_regularization : scalar;
  a_min_hessian_to_split : scalar;
  a_shrinkage : scalar
}.

(** [f"{z}"] for an integer. *)
Definition str_of_Z (z : Z) : string := NilZero.string_of_int (Z.to_int z).

(** [TreeNode.__repr__]: the text shown when debugging. *)
Definition TreeNode_repr (self : TreeNode) : string :=
  let out := ("TreeNode: depth=" ++ str_of_Z (depth self) ++ ", ")%string in
  let out :=
    (out ++ "samples=" ++ str_of_Z (Z.of_nat (length (sample_indices self))))%string in
  match split_info self with
  | Some si =>
      let out := (out ++ ", feature_idx=" ++ str_of_Z (feature_idx si))%string in
      (out ++ ", bin_idx=" ++ str_of_Z (bin_idx si))%string
  | None => out
  end.

(** [o is not None and o < 1], with the offending value. *)
Definition below_one (o : option Z) : option Z :=
  match o with
  | Some m => if m <? 1 then Some m else None
  | None => None
  end.

Definition TreeGrower_init (a : InitArgs) : M State unit :=
  let features_data := a_features_data a in
  if negb (dtype_eqb (arr_dtype features_data) uint8) then
    raise (NotImplementedError "Explicit feature binning required for now")
  else
    match below_one (a_max_leaf_nodes a) with
    | Some m =>
        raise (ValueError ("max_leaf_nodes=" ++ str_of_Z m
                           ++ " should not be smaller than 1"))
    | None =>
        match below_one (a_max_depth a) with
        | Some d =>
            raise (ValueError ("max_depth=" ++ str_of_Z d
                               ++ " should not be smaller than 1"))
        | None =>
            (if negb (f_contiguous features_data) then
               modify (fun s =>
                 with_warnings
                   (warnings s ++
                    ["Binned data should be passed as Fortran contiguousarray for maximum efficiency."%string]) s)
             else ret tt) ;;;
            modify (with_splitter
                      (Some (new_HistogramSplitter
                               (shape1 features_data) features_data (a_n_bins a)
                               (a_all_gradients a) (a_all_hessians a)
                               (a_l2_regularization a)
                               (a_min_hessian_to_split a)))) ;;;
            modify (with_max_leaf_nodes (a_max_leaf_nodes a)) ;;;
            modify (with_max_depth (a_max_depth a)) ;;;
            modify (with_features_data features_data) ;;;
            modify (with_min_gain_to_split (a_min_gain_to_split a)) ;;;
            modify (with_shrinkage (a_shrinkage a)) ;;;
            modify (with_splittable_nodes []) ;;;
            modify (with_finalized_leaves []) ;;;
            _intilialize_root ;;;
            modify (with_n_nodes 1)
        end
    end.

(** [TreeGrower(...)]: [__init__] run on a new object. *)
Definition TreeGrower (a : InitArgs) : State * outcome unit :=
  TreeGrower_init a fresh_object.

(** *** The predictor array *)

Definition set_p_weight (v : scalar) (r : PredictorRecord) : PredictorRecord :=
  mkPredictorRecord _ v (p_is_leaf r) (p_feature_idx r) (p_bin_threshold r)
                    (p_left r) (p_right r).
Definition set_p_is_leaf (v : bool) (r : PredictorRecord) : PredictorRecord :=
  mkPredictorRecord _ (p_weight r) v (p_feature_idx r) (p_bin_threshold r)
                    (p_left r) (p_right r).
Definition set_p_feature_idx (v : Z) (r : PredictorRecord) : PredictorRecord :=
  mkPredictorRecord _ (p_weight r) (p_is_leaf r) v (p_bin_threshold r)
                    (p_left r) (p_right r).
Definition set_p_bin_threshold (v : Z) (r : PredictorRecord) : PredictorRecord :=
  mkPredictorRecord _ (p_weight r) (p_is_leaf r) (p_feature_idx r) v
                    (p_left r) (p_right r).
Definition set_p_left (v : nat) (r : PredictorRecord) : PredictorRecord :=
  mkPredictorRecord _ (p_weight r) (p_is_leaf r) (p_feature_idx r)
                    (p_bin_threshold r) v (p_right r).
Definition set_p_right (v : nat) (r : PredictorRecord) : PredictorRecord :=
  mkPredictorRecord _ (p_weight r) (p_is_leaf r) (p_feature_idx r)
                    (p_bin_threshold r) (p_left r) v.

(** [node[field] = v] where [node] is the view [predictor_nodes[i]]. *)
Definition assign (i : nat) (f : PredictorRecord -> PredictorRecord)
  : M (list PredictorRecord) unit :=
  do r <- getitem i;
  setitem i (f r).

(** [_fill_predictor_node_array]; [fuel] bounds the depth of the recursion.
    The node argument is optional because the method recurses into an
    attribute that is [None] on a node without children. *)
Fixpoint _fill_predictor_node_array (fuel : nat) (store : list TreeNode)
    (grower_node : option node_ref) (next_free_idx : nat)
  : M (list PredictorRecord) nat :=
  match fuel with
  | O => out_of_fuel
  | S fuel =>
      let node := next_free_idx in
      getitem node ;;;
      do gn <- match grower_node with
               | None =>
                   raise (AttributeError
                            "'NoneType' object has no attribute 'weight'")
               | Some r =>
                   match store !! r with
                   | Some gn => ret gn
                   | None => raise InvalidReference
                   end
               end;
      match weight gn with
      | Some w =>
          assign node (set_p_weight w) ;;;
          assign node (set_p_is_leaf true) ;;;
          ret (next_free_idx + 1)%nat
      | None =>
          do si <- match split_info gn with
                   | Some si => ret si
                   | None =>
                       raise (AttributeError
                                "'NoneType' object has no attribute 'feature_idx'")
                   end;
          assign node (set_p_feature_idx (feature_idx si)) ;;;
          assign node (set_p_bin_threshold (bin_idx si)) ;;;
          let next_free_idx := (next_free_idx + 1)%nat in
          assign node (set_p_left next_free_idx) ;;;
          do next_free_idx <-
            _fill_predictor_node_array fuel store (left_child gn) next_free_idx;
          assign node (set_p_right next_free_idx) ;;;
          _fill_predictor_node_array fuel store (right_child gn) next_free_idx
      end
  end.

(** [make_predictor]: the array handed to [TreePredictor]. *)
Definition make_predictor (fuel : nat) : M State (list PredictorRecord) := fun s =>
  let predictor_nodes := replicate (Z.to_nat (n_nodes s)) zero_record in
  match _fill_predictor_node_array fuel (nodes s) (Some (root s)) 0%nat
                                   predictor_nodes with
  | (arr, Ok _) => (s, Ok arr)
  | (_, Raise e) => (s, Raise e)
  | (_, OutOfFuel) => (s, OutOfFuel)
  end.

End Grower.

(** ** A concrete instance, for running the model

    Scalars are rationals.  The splitter is a toy: it cuts the sample list
    in two halves, and the gain of a node is the sum of its sample
    identifiers, or [-1] when it has fewer than two samples. *)

Definition Qsum (l : list Q) : Q := Qred (fold_right Qplus 0%Q l).

Definition QScalar : Scalar := {|
  scalar := Q;
  szero := 0%Q;
  sadd := fun a b => Qred (a + b)%Q;
  smul := fun a b => Qred (a * b)%Q;
  sdiv := fun a b => Qred (a / b)%Q;
  sltb := fun a b => negb (Qle_bool b a);
  ssum := Qsum
|}.

Section Toy.
#[local] Existing Instance QScalar.

Record ToySplitter : Type := mkToySplitter {
  toy_gradients : list Q;
  toy_hessians : list Q;
  toy_l2 : Q
}.

Definition toy_pick (values : list Q) (idx : list nat) : list Q :=
  map (fun i => nth i values 0%Q) idx.

Definition toy_find_node_split (sp : ToySplitter) (idx : list nat) : SplitInfo :=
  let half := (length idx / 2)%nat in
  let l := take half idx in
  let r := drop half idx in
  mkSplitInfo _
    (if (length idx <? 2)%nat then (-1)%Q else inject_Z (Z.of_nat (list_sum idx)))
    0 (Z.of_nat half)
    (Qsum (toy_pick (toy_gradients sp) l)) (Qsum (toy_pick (toy_hessians sp) l))
    (Qsum (toy_pick (toy_gradients sp) r)) (Qsum (toy_pick (toy_hessians sp) r)).

Definition toy_split_indices (sp : ToySplitter) (idx : list nat) (si : SplitInfo)
  : list nat * list nat :=
  (take (Z.to_nat (bin_idx si)) idx, drop (Z.to_nat (bin_idx si)) idx).

Definition ToyAPI : HistogramSplitterAPI := {|
  HistogramSplitter := ToySplitter;
  new_HistogramSplitter := fun _ _ _ g h l2 _ => mkToySplitter g h l2;
  all_gradients := toy_gradients;
  all_hessians := toy_hessians;
  l2_regularization := toy_l2;
  find_node_split := toy_find_node_split;
  split_indices := toy_split_indices
|}.

#[local] Existing Instance ToyAPI.

(** [n] samples with gradients 1, 2, ..., unit hessians, no regularization,
    unit shrinkage and the threshold [min_gain_to_split = 0]. *)
Definition toy_args (n : nat) (max_leaf_nodes max_depth : option Z) : InitArgs :=
  mkInitArgs (mkNdarray uint8 true n 1 (replicate n 0))
             (map (fun i => inject_Z (Z.of_nat (S i))) (seq 0 n))
             (replicate n 1%Q)
             max_leaf_nodes max_depth 0%Q 256 0%Q (1 # 1000)%Q 1%Q.

(** Construct the grower and run [grow]. *)
Definition toy_run (fuel : nat) (a : InitArgs) : State * outcome unit :=
  match TreeGrower a with
  | (s, Ok _) => grow fuel s
  | r => r
  end.

(** The toy grower after construction, after [k] splits, and after [grow]. *)
Definition toy_init (a : InitArgs) : State := fst (TreeGrower a).

Definition toy_after (k : nat) (a : InitArgs) : State :=
  match split_times k (toy_init a) with
  | Some st => st
  | None => toy_init a
  end.

Definition toy_final (a : InitArgs) : State := fst (grow 100 (toy_init a)).

(** The node behind a reference of the toy grower. *)
Definition toy_node (st : State) (r : node_ref) : TreeNode :=
  default (mkTreeNode _ 0 [] 0%Q 0%Q None None None None) (nodes st !! r).

(** Eight samples: no limit, a leaf budget, a depth limit, a single leaf,
    both limits; and three samples with a budget of eight leaves. *)
Definition toy_plain : InitArgs := toy_args 8 None None.
Definition toy_budget : InitArgs := toy_args 8 (Some 3) None.
Definition toy_depth : InitArgs := toy_args 8 None (Some 2).
Definition toy_single : InitArgs := toy_args 8 (Some 1) None.
Definition toy_both : InitArgs := toy_args 8 (Some 3) (Some 2).


(** One more split of a toy grower: the state it leaves and the children
    it returns. *)
Definition toy_next (st : State) : State := fst (split_next st).

Definition toy_children (st : State) : node_ref * node_ref :=
  match snd (split_next st) with
  | Ok lr => lr
  | _ => (0%nat, 0%nat)
  end.

(** The split of a node of the toy grower. *)
Definition toy_split_info (st : State) (r : node_ref) : SplitInfo :=
  default (mkSplitInfo _ 0%Q 0 0 0%Q 0%Q 0%Q 0%Q) (split_info (toy_node st r)).

End Toy.

(** * Correctness of the heap *)

Section heapq_correct.
Context {A : Type} (lt : A -> A -> outcome bool).
Context (ltb : A -> A -> bool) (good : A -> Prop).

(** On the items of the queue [<] does not raise. *)
Hypothesis lt_good : forall x y, good x -> good y -> lt x y = Ok (ltb x y).

(** [<] is a strict weak order on the items of the queue: asymmetric, and
    its complement is transitive.  Only the order of the heap depends on
    it; that the operations succeed and permute the items does not. *)
Definition order_laws : Prop :=
  (forall x y, good x -> good y -> ltb x y = true -> ltb y x = false) /\
  (forall x y z, good x -> good y -> good z ->
     ltb x y = false -> ltb y z = false -> ltb x z = false).

(** [laws] is whatever the caller knows that makes [<] such an order. *)
Context (laws : Prop).
Hypothesis laws_order : laws -> order_laws.

(** The item at [i] is not smaller than its parent. *)
Definition heap_at (g : list A) (i : nat) : Prop :=
  forall x y, g !! i = Some x -> g !! ((i - 1) / 2)%nat = Some y -> ltb x y = false.

Definition is_heap (g : list A) : Prop :=
  forall i, (0 < i)%nat -> heap_at g i.

(** A heap but for the item at [pos], which may be smaller than its
    ancestors; the children of [pos] respect the parent of [pos]. *)
Definition up_inv (g : list A) (pos : nat) : Prop :=
  (forall i, (0 < i)%nat -> i <> pos -> heap_at g i) /\
  (forall c x y, (0 < pos)%nat -> (0 < c)%nat -> ((c - 1) / 2)%nat = pos ->
     g !! c = Some x -> g !! ((pos - 1) / 2)%nat = Some y -> ltb x y = false).

(** A heap with a hole at [pos]: nothing is known about the item there. *)
Definition down_inv (g : list A) (pos : nat) : Prop :=
  (forall i, (0 < i)%nat -> i <> pos -> ((i - 1) / 2)%nat <> pos -> heap_at g i) /\
  (forall c x y, (0 < pos)%nat -> (0 < c)%nat -> ((c - 1) / 2)%nat = pos ->
     g !! c = Some x -> g !! ((pos - 1) / 2)%nat = Some y -> ltb x y = false).

Lemma shiftr_1 (n : nat) : Nat.shiftr n 1 = (n / 2)%nat.
Proof. rewrite Nat.shiftr_div_pow2. reflexivity. Qed.

Lemma good_lookup (g : list A) (i : nat) (x : A) :
  Forall good g -> g !! i = Some x -> good x.
Proof. intros Hg Hi. eapply Forall_lookup_1; eauto. Qed.

Lemma is_heap_nil : is_heap [].
Proof. intros i _ x y Hx. rewrite lookup_nil in Hx. discriminate. Qed.

Lemma parent_lt (i : nat) : (0 < i)%nat -> ((i - 1) / 2 < i)%nat.
Proof. lia. Qed.

(** The root of a heap is minimal for [<]. *)
Lemma heap_root_min (g : list A) (r : A) :
  order_laws -> Forall good g -> is_heap g -> g !! 0%nat = Some r ->
  forall i x, g !! i = Some x -> ltb x r = false.
Proof.
  intros [ltb_asym ltb_negtrans] Hg Hh Hr i.
  induction i as [i IH] using lt_wf_ind. intros x Hx.
  destruct (decide (i = 0%nat)) as [->|Hi].
  - rewrite Hr in Hx. injection Hx as <-.
    destruct (ltb r r) eqn:E; [|reflexivity].
    pose proof (good_lookup _ _ _ Hg Hr) as Gr.
    rewrite (ltb_asym r r Gr Gr E) in E. discriminate.
  - assert (Hp : ((i - 1) / 2 < i)%nat) by lia.
    destruct (lookup_lt_is_Some_2 g ((i - 1) / 2)%nat) as [y Hy].
    { apply lookup_lt_Some in Hx. lia. }
    eapply (ltb_negtrans x y r); eauto using good_lookup.
    apply (Hh i); [lia|exact Hx|exact Hy].
Qed.

(** Dropping the last item of a heap leaves a heap. *)
Lemma is_heap_removelast (g : list A) (x : A) : is_heap (g ++ [x]) -> is_heap g.
Proof.
  intros Hh i Hi a b Ha Hb. apply (Hh i Hi a b); apply lookup_app_l_Some; assumption.
Qed.

(** One turn of [_siftdown]: moving the parent down keeps the invariant. *)
Lemma up_inv_step (h : list A) (pos : nat) (newitem parent : A) :
  order_laws ->
  Forall good h -> good newitem -> (0 < pos)%nat -> (pos < length h)%nat ->
  h !! ((pos - 1) / 2)%nat = Some parent ->
  ltb newitem parent = true ->
  up_inv (<[pos := newitem]> h) pos ->
  up_inv (<[((pos - 1) / 2)%nat := newitem]> (<[pos := parent]> h)) ((pos - 1) / 2)%nat.
Proof.
  intros [ltb_asym ltb_negtrans] Hg Gn Hpos Hlen Hpar Hlt [HA HB].
  pose proof (parent_lt pos Hpos) as Hpp.
  set (pp := ((pos - 1) / 2)%nat) in *.
  assert (Gp : good parent) by eauto using good_lookup.
  assert (Hg' : Forall good (<[pos := newitem]> h)) by (apply Forall_insert; auto).
  assert (Hgpp : <[pos := newitem]> h !! pp = Some parent).
  { rewrite list_lookup_insert_ne by lia. exact Hpar. }
  assert (Hgpos : <[pos := newitem]> h !! pos = Some newitem).
  { apply list_lookup_insert_eq. exact Hlen. }
  assert (L1 : forall i, i <> pos -> i <> pp ->
               <[pp := newitem]> (<[pos := parent]> h) !! i = <[pos := newitem]> h !! i).
  { intros i H1 H2. rewrite !list_lookup_insert_ne by lia. reflexivity. }
  assert (L2 : <[pp := newitem]> (<[pos := parent]> h) !! pos = Some parent).
  { rewrite list_lookup_insert_ne by lia. apply list_lookup_insert_eq. exact Hlen. }
  assert (L3 : <[pp := newitem]> (<[pos := parent]> h) !! pp = Some newitem).
  { apply list_lookup_insert_eq. rewrite length_insert. lia. }
  split.
  - intros i Hi Hne x y Hx Hy.
    destruct (decide (i = pos)) as [->|Hip].
    + fold pp in Hy. rewrite L2 in Hx. rewrite L3 in Hy.
      injection Hx as <-. injection Hy as <-. apply ltb_asym; auto.
    + rewrite L1 in Hx by auto.
      assert (Gx : good x) by eauto using good_lookup.
      destruct (decide (((i - 1) / 2)%nat = pp)) as [E|E].
      * rewrite E, L3 in Hy. injection Hy as <-.
        assert (Hx1 : ltb x parent = false).
        { apply (HA i Hi Hip x parent Hx). rewrite E. exact Hgpp. }
        assert (Hx2 : ltb parent newitem = false) by (apply ltb_asym; auto).
        exact (ltb_negtrans x parent newitem Gx Gp Gn Hx1 Hx2).
      * destruct (decide (((i - 1) / 2)%nat = pos)) as [E'|E'].
        -- rewrite E', L2 in Hy. injection Hy as <-.
           apply (HB i x parent Hpos Hi E' Hx Hgpp).
        -- rewrite L1 in Hy by auto. apply (HA i Hi Hip x y Hx Hy).
  - intros c x y Hpp0 Hc Hcp Hx Hy.
    pose proof (parent_lt pp Hpp0) as Hgp.
    rewrite L1 in Hy by lia.
    assert (Gy : good y) by eauto using good_lookup.
    assert (Hpy : ltb parent y = false).
    { apply (HA pp Hpp0 ltac:(lia) parent y Hgpp Hy). }
    destruct (decide (c = pos)) as [->|Hcpos].
    + rewrite L2 in Hx. injection Hx as <-. exact Hpy.
    + assert (c <> pp) by (pose proof (parent_lt c Hc); lia).
      rewrite L1 in Hx by auto.
      assert (Gx : good x) by eauto using good_lookup.
      assert (Hx1 : ltb x parent = false).
      { apply (HA c Hc Hcpos x parent Hx). rewrite Hcp. exact Hgpp. }
      exact (ltb_negtrans x parent y Gx Gp Gy Hx1 Hpy).
Qed.

Lemma _siftdown_loop_ok (newitem : A) (fuel : nat) :
  good newitem ->
  forall (pos : nat) (h : list A),
    (pos <= fuel)%nat -> (pos < length h)%nat -> Forall good h ->
    (laws -> up_inv (<[pos := newitem]> h) pos) ->
    exists h' pos',
      _siftdown_loop lt fuel newitem 0%nat pos h = (h', Ok pos') /\
      (pos' < length h')%nat /\
      (laws -> is_heap (<[pos' := newitem]> h')) /\
      <[pos' := newitem]> h' ≡ₚ <[pos := newitem]> h.
Proof.
  intros Gn. induction fuel as [|fuel IH]; intros pos h Hfuel Hlen Hg Hinv.
  - assert (pos = 0%nat) as -> by lia. exists h, 0%nat. cbn.
    repeat split; auto.
    intros Hlaws i Hi. apply (proj1 (Hinv Hlaws)); lia.
  - cbn [_siftdown_loop]. destruct (Nat.ltb_spec 0 pos) as [Hpos|Hpos].
    + pose proof (parent_lt pos Hpos) as Hpp.
      rewrite shiftr_1.
      destruct (lookup_lt_is_Some_2 h ((pos - 1) / 2)%nat ltac:(lia)) as [parent Hpar].
      assert (Gp : good parent) by eauto using good_lookup.
      unfold bind at 1. unfold getitem at 1. rewrite Hpar.
      unfold bind at 1. unfold less at 1. rewrite (lt_good _ _ Gn Gp).
      destruct (ltb newitem parent) eqn:Hlt.
      * unfold bind at 1. unfold setitem at 1.
        destruct (Nat.ltb_spec pos (length h)) as [_|?]; [|lia].
        assert (H1 : ((pos - 1) / 2 <= fuel)%nat) by lia.
        assert (H2 : ((pos - 1) / 2 < length (<[pos := parent]> h))%nat).
        { rewrite length_insert. lia. }
        assert (H3 : Forall good (<[pos := parent]> h)) by (apply Forall_insert; auto).
        destruct (IH _ _ H1 H2 H3) as (h' & pos' & E & Hl & Hh & Hp).
        { intros Hlaws. apply up_inv_step; auto. }
        exists h', pos'. repeat split; auto.
        rewrite Hp.
        rewrite <- (list_insert_insert_eq h pos parent newitem).
        apply Permutation_insert_swap.
        -- apply list_lookup_insert_eq. exact Hlen.
        -- rewrite list_lookup_insert_ne by lia. exact Hpar.
      * exists h, pos. repeat split; auto.
        intros Hlaws i Hi. destruct (decide (i = pos)) as [->|Hne].
        -- intros x y Hx Hy. rewrite list_lookup_insert_eq in Hx by auto.
           rewrite list_lookup_insert_ne in Hy by lia.
           congruence.
        -- apply (proj1 (Hinv Hlaws)); auto.
    + assert (pos = 0%nat) as -> by lia. exists h, 0%nat.
      repeat split; auto.
      intros Hlaws i Hi. apply (proj1 (Hinv Hlaws)); lia.
Qed.

Lemma _siftdown_ok (h : list A) (pos : nat) (newitem : A) :
  Forall good h -> h !! pos = Some newitem -> (laws -> up_inv h pos) ->
  exists h', _siftdown lt 0%nat pos h = (h', Ok tt) /\
             (laws -> is_heap h') /\ h' ≡ₚ h.
Proof.
  intros Hg Hpos Hinv.
  assert (Gn : good newitem) by eauto using good_lookup.
  pose proof (lookup_lt_Some _ _ _ Hpos) as Hlen.
  assert (Hid : <[pos := newitem]> h = h) by (apply list_insert_id; exact Hpos).
  destruct (_siftdown_loop_ok newitem pos Gn pos h (le_n _) Hlen Hg)
    as (h' & pos' & E & Hl & Hh & Hp).
  { rewrite Hid. exact Hinv. }
  exists (<[pos' := newitem]> h').
  unfold _siftdown, bind, getitem. rewrite Hpos, E.
  unfold setitem. destruct (Nat.ltb_spec pos' (length h')) as [_|?]; [|lia].
  rewrite Hid in Hp. auto.
Qed.

(** One turn of [_siftup]: moving the smaller child [x] up moves the hole
    to the place [c] of that child. *)
Lemma down_inv_step (h : list A) (pos c : nat) (x : A) :
  Forall good h -> (pos < length h)%nat ->
  ((c - 1) / 2)%nat = pos -> (0 < c)%nat -> h !! c = Some x ->
  (forall s y, s <> c -> (0 < s)%nat -> ((s - 1) / 2)%nat = pos ->
     h !! s = Some y -> ltb y x = false) ->
  down_inv h pos ->
  down_inv (<[pos := x]> h) c.
Proof.
  intros Hg Hlen Hcp Hc Hx Hsib [HA HB].
  pose proof (parent_lt c Hc) as Hpc.
  assert (L1 : forall i, i <> pos -> <[pos := x]> h !! i = h !! i).
  { intros i Hi. apply list_lookup_insert_ne. lia. }
  assert (L2 : <[pos := x]> h !! pos = Some x).
  { apply list_lookup_insert_eq. exact Hlen. }
  split.
  - intros i Hi Hic Hipc x' y Hx' Hy.
    destruct (decide (i = pos)) as [->|Hip].
    + rewrite L2 in Hx'. injection Hx' as <-.
      pose proof (parent_lt pos Hi).
      rewrite L1 in Hy by lia.
      apply (HB c x y Hi Hc Hcp Hx Hy).
    + rewrite L1 in Hx' by auto.
      destruct (decide (((i - 1) / 2)%nat = pos)) as [E|E].
      * rewrite E, L2 in Hy. injection Hy as <-.
        apply (Hsib i x' Hic Hi E Hx').
      * rewrite L1 in Hy by auto.
        apply (HA i Hi Hip E x' y Hx' Hy).
  - intros d x' y _ Hd Hdc Hx' Hy.
    pose proof (parent_lt d Hd).
    rewrite Hcp, L2 in Hy. injection Hy as <-.
    rewrite L1 in Hx' by lia.
    apply (HA d Hd ltac:(lia) ltac:(lia) x' x Hx'). rewrite Hdc. exact Hx.
Qed.

Lemma _siftup_loop_ok (n fuel : nat) :
  forall (pos : nat) (h : list A),
    length h = n -> (n - pos <= fuel)%nat -> (pos < n)%nat ->
    Forall good h -> (laws -> down_inv h pos) ->
    exists h' pos',
      _siftup_loop lt fuel n pos (2 * pos + 1)%nat h = (h', Ok pos') /\
      length h' = n /\ (pos' < n)%nat /\ (n <= 2 * pos' + 1)%nat /\
      Forall good h' /\ (laws -> down_inv h' pos') /\
      forall v, <[pos' := v]> h' ≡ₚ <[pos := v]> h.
Proof.
  induction fuel as [|fuel IH]; intros pos h Hn Hfuel Hpos Hg Hinv; [lia|].
  cbn [_siftup_loop].
  destruct (Nat.ltb_spec (2 * pos + 1) n) as [Hchild|Hchild].
  2:{ exists h, pos. split; [reflexivity|].
      split; [exact Hn|]. split; [exact Hpos|]. split; [lia|]. auto. }
  destruct (lookup_lt_is_Some_2 h (2 * pos + 1)%nat ltac:(lia)) as [l Hl].
  assert (Gl : good l) by eauto using good_lookup.
  (* the child that is moved up, its place, and why it is the smaller one *)
  assert (Hsel : exists c x,
    (if (2 * pos + 1 + 1 <? n)%nat
     then do l <- getitem (2 * pos + 1)%nat;
          do r <- getitem (2 * pos + 1 + 1)%nat;
          do b <- less lt l r;
          ret (if negb b then (2 * pos + 1 + 1)%nat else (2 * pos + 1)%nat)
     else ret (2 * pos + 1)%nat) h = (h, Ok c) /\
    h !! c = Some x /\ ((c - 1) / 2)%nat = pos /\ (pos < c)%nat /\ (c < n)%nat /\
    (laws ->
     forall s y, s <> c -> (0 < s)%nat -> ((s - 1) / 2)%nat = pos ->
                 h !! s = Some y -> ltb y x = false)).
  { destruct (Nat.ltb_spec (2 * pos + 1 + 1) n) as [Hright|Hright].
    - destruct (lookup_lt_is_Some_2 h (2 * pos + 1 + 1)%nat ltac:(lia)) as [r Hr].
      assert (Gr : good r) by eauto using good_lookup.
      unfold bind, getitem, less. rewrite Hl, Hr, (lt_good _ _ Gl Gr).
      destruct (ltb l r) eqn:Hlr; cbn [negb ret].
      + exists (2 * pos + 1)%nat, l. repeat split; auto; try lia.
        intros Hlaws s y Hs Hs0 Hsp Hy.
        destruct (laws_order Hlaws) as [ltb_asym _].
        assert (s = (2 * pos + 1 + 1)%nat) as -> by lia.
        rewrite Hr in Hy. injection Hy as <-. apply ltb_asym; auto.
      + exists (2 * pos + 1 + 1)%nat, r. repeat split; auto; try lia.
        intros _ s y Hs Hs0 Hsp Hy.
        assert (s = (2 * pos + 1)%nat) as -> by lia.
        rewrite Hl in Hy. injection Hy as <-. exact Hlr.
    - exists (2 * pos + 1)%nat, l. repeat split; auto; try lia.
      intros _ s y Hs Hs0 Hsp Hy.
      apply lookup_lt_Some in Hy. lia. }
  destruct Hsel as (c & x & Esel & Hx & Hcp & Hc & Hcn & Hsib).
  assert (Gx : good x) by eauto using good_lookup.
  unfold bind at 1. rewrite Esel.
  unfold bind at 1. unfold getitem at 1. rewrite Hx.
  unfold bind at 1. unfold setitem at 1.
  destruct (Nat.ltb_spec pos (length h)) as [_|?]; [|lia].
  assert (H1 : length (<[pos := x]> h) = n) by (rewrite length_insert; exact Hn).
  assert (H2 : (n - c <= fuel)%nat) by lia.
  assert (H3 : Forall good (<[pos := x]> h)) by (apply Forall_insert; auto).
  destruct (IH c _ H1 H2 Hcn H3)
    as (h' & pos' & E & Hl' & Hp' & Hleaf & Hg' & Hinv' & Hperm).
  { intros Hlaws.
    apply down_inv_step;
      [exact Hg|lia|exact Hcp|lia|exact Hx|exact (Hsib Hlaws)|exact (Hinv Hlaws)]. }
  exists h', pos'. split; [exact E|]. do 4 (split; [assumption|]). split; [exact Hinv'|].
  intros v. rewrite Hperm.
  rewrite <- (list_insert_insert_eq h pos x v).
  apply Permutation_insert_swap.
  - apply list_lookup_insert_eq. lia.
  - rewrite list_lookup_insert_ne by lia. exact Hx.
Qed.

Lemma _siftup_ok (h : list A) :
  Forall good h -> (0 < length h)%nat -> (laws -> down_inv h 0%nat) ->
  exists h', _siftup lt 0%nat h = (h', Ok tt) /\
             (laws -> is_heap h') /\ h' ≡ₚ h.
Proof.
  intros Hg Hlen Hinv.
  destruct (lookup_lt_is_Some_2 h 0%nat Hlen) as [newitem Hnew].
  assert (Gn : good newitem) by eauto using good_lookup.
  destruct (_siftup_loop_ok (length h) (length h) 0%nat h eq_refl ltac:(lia) Hlen Hg Hinv)
    as (h1 & pos & E & Hl1 & Hpos & Hleaf & Hg1 & Hinv1 & Hperm).
  assert (Hup : laws -> up_inv (<[pos := newitem]> h1) pos).
  { intros Hlaws. destruct (Hinv1 Hlaws) as [HA HB]. split.
    - intros i Hi Hne x y Hx Hy.
      pose proof (lookup_lt_Some _ _ _ Hx) as Hix. rewrite length_insert in Hix.
      rewrite list_lookup_insert_ne in Hx by lia.
      rewrite list_lookup_insert_ne in Hy by lia.
      apply (HA i Hi Hne ltac:(lia) x y Hx Hy).
    - intros c x y _ Hc Hcp Hx _.
      apply lookup_lt_Some in Hx. rewrite length_insert in Hx. lia. }
  destruct (_siftdown_ok (<[pos := newitem]> h1) pos newitem) as (h2 & E2 & Hh2 & Hp2).
  { apply Forall_insert; auto. }
  { apply list_lookup_insert_eq. lia. }
  { exact Hup. }
  exists h2. unfold _siftup, bind, len, gets, getitem.
  rewrite Hnew. change (2 * 0 + 1)%nat with 1%nat in E |- *.
  rewrite E. unfold setitem.
  destruct (Nat.ltb_spec pos (length h1)) as [_|?]; [|lia].
  rewrite E2. repeat split; auto.
  rewrite Hp2, Hperm. rewrite list_insert_id; auto.
Qed.

Lemma heappush_ok (h : list A) (item : A) :
  Forall good h -> good item -> (laws -> is_heap h) ->
  exists h', heappush lt item h = (h', Ok tt) /\
             (laws -> is_heap h') /\ h' ≡ₚ item :: h.
Proof.
  intros Hg Gi Hh.
  destruct (_siftdown_ok (h ++ [item]) (length h) item) as (h' & E & Hh' & Hp).
  - apply Forall_app. split; auto.
  - apply list_lookup_middle. reflexivity.
  - intros Hlaws. split.
    + intros i Hi Hne x y Hx Hy.
      pose proof (lookup_lt_Some _ _ _ Hx) as Hix. rewrite length_app in Hix. cbn in Hix.
      pose proof (parent_lt i Hi).
      rewrite lookup_app_l in Hx by lia. rewrite lookup_app_l in Hy by lia.
      apply (Hh Hlaws i Hi x y Hx Hy).
    + intros c x y _ Hc Hcp Hx _.
      apply lookup_lt_Some in Hx. rewrite length_app in Hx. cbn in Hx.
      pose proof (parent_lt c Hc). lia.
  - exists h'. unfold heappush, bind, append, len, gets.
    rewrite length_app. cbn [length].
    replace (length h + 1 - 1)%nat with (length h) by lia.
    rewrite E. repeat split; auto.
    rewrite Hp. symmetry. apply Permutation_cons_append.
Qed.

Lemma heappop_ok (h : list A) :
  Forall good h -> (laws -> is_heap h) -> h <> [] ->
  exists x h', heappop lt h = (h', Ok x) /\ h !! 0%nat = Some x /\
               (laws -> is_heap h') /\ x :: h' ≡ₚ h.
Proof.
  intros Hg Hh Hne.
  destruct (proj2 (last_is_Some h) Hne) as [lastelt Hlast].
  pose proof Hlast as Hsplit. apply last_Some in Hsplit as [l ->].
  unfold heappop, bind at 1, pop. rewrite Hlast, removelast_last.
  unfold bind at 1, len, gets.
  apply Forall_app in Hg as [Hgl Hge].
  destruct l as [|r l'].
  - exists lastelt, []. cbn. repeat split; auto using is_heap_nil.
  - cbn [length Nat.ltb Nat.leb].
    assert (Hdown : laws -> down_inv (<[0%nat := lastelt]> (r :: l')) 0%nat).
    { intros Hlaws. split.
      - intros i Hi _ Hpi x y Hx Hy.
        rewrite list_lookup_insert_ne in Hx by lia.
        rewrite list_lookup_insert_ne in Hy by lia.
        apply (Hh Hlaws i Hi x y).
        + apply lookup_app_l_Some. exact Hx.
        + apply lookup_app_l_Some. exact Hy.
      - intros c x y Hpos. lia. }
    destruct (_siftup_ok (<[0%nat := lastelt]> (r :: l'))) as (h' & E & Hh' & Hp).
    + apply Forall_insert; auto. inversion Hge; auto.
    + rewrite length_insert. cbn. lia.
    + exact Hdown.
    + exists r, h'.
      assert (Eg : getitem 0%nat (r :: l') = (r :: l', Ok r)) by reflexivity.
      assert (Es : setitem 0%nat lastelt (r :: l')
                   = (<[0%nat := lastelt]> (r :: l'), Ok tt)) by reflexivity.
      unfold bind. rewrite Eg, Es, E.
      split; [reflexivity|]. split; [reflexivity|]. split; [exact Hh'|].
      rewrite Hp. cbn. apply Permutation_skip, Permutation_cons_append.
Qed.

End heapq_correct.

(** * The grower: invariants *)

Section GrowerProofs.
Context `{HistogramSplitterAPI}.

(** The comparison of the queue, without the exceptions. *)
Definition ref_ltb (ns : list TreeNode) (a b : node_ref) : bool :=
  match ns !! a, ns !! b with
  | Some x, Some y =>
      match split_info x, split_info y with
      | Some s, Some o => sgtb (gain s) (gain o)
      | _, _ => false
      end
  | _, _ => false
  end.

(** A reference to a node whose split has been evaluated. *)
Definition evaluated (ns : list TreeNode) (r : node_ref) : Prop :=
  exists n si, ns !! r = Some n /\ split_info n = Some si.

(** [<] on scalars is a strict weak order (true of floating-point numbers
    other than NaN). *)
Definition scalar_order : Prop :=
  (forall x y : scalar, sltb x y = true -> sltb y x = false) /\
  (forall x y z : scalar, sltb x y = false -> sltb y z = false -> sltb x z = false).

(** [P] holds of the node that [r] refers to. *)
Definition node_is (ns : list TreeNode) (P : TreeNode -> Prop) (r : node_ref) : Prop :=
  exists n, ns !! r = Some n /\ P n.

(** The shape of the tree below a node, with the references in preorder. *)
Inductive shape : Type :=
| SLeaf (r : node_ref)
| SNode (r : node_ref) (a b : shape).

Fixpoint ids (t : shape) : list node_ref :=
  match t with
  | SLeaf r => [r]
  | SNode r a b => r :: ids a ++ ids b
  end.

Inductive tree_at (ns : list TreeNode) : node_ref -> shape -> Prop :=
| tree_leaf r n :
    ns !! r = Some n -> left_child n = None -> right_child n = None ->
    tree_at ns r (SLeaf r)
| tree_node r n l r' a b :
    ns !! r = Some n -> left_child n = Some l -> right_child n = Some r' ->
    tree_at ns l a -> tree_at ns r' b ->
    tree_at ns r (SNode r a b).

(** Replace the leaf [p] by a node with the two leaves [l] and [r]. *)
Fixpoint graft (p l r : node_ref) (t : shape) : shape :=
  match t with
  | SLeaf q => if (q =? p)%nat then SNode p (SLeaf l) (SLeaf r) else SLeaf q
  | SNode q a b => SNode q (graft p l r a) (graft p l r b)
  end.

Section Config.
(** The configuration, fixed once [__init__] has assigned it. *)
Variables (sp : HistogramSplitter) (md : option Z) (mg sh : scalar).

Definition leaf_weight (n : TreeNode) : scalar :=
  sdiv (smul sh (sum_gradients n)) (sadd (sum_hessians n) (l2_regularization sp)).

Definition childless (n : TreeNode) : Prop :=
  left_child n = None /\ right_child n = None.

Definition depth_le (n : TreeNode) : Prop :=
  0 <= depth n /\ forall d, md = Some d -> depth n <= d.

Definition depth_lt (n : TreeNode) : Prop :=
  0 <= depth n /\ forall d, md = Some d -> depth n < d.

(** A node at the maximal depth has never been evaluated. *)
Definition unevaluated_at_max (n : TreeNode) : Prop :=
  forall d, md = Some d -> depth n = d -> split_info n = None.

(** The states of a node. *)
Definition queued_node (n : TreeNode) : Prop :=
  (exists si, split_info n = Some si /\ sltb (gain si) mg = false) /\
  weight n = None /\ childless n /\ depth_lt n.

Definition leaf_node (n : TreeNode) : Prop :=
  weight n = Some (leaf_weight n) /\ childless n /\ depth_le n /\
  unevaluated_at_max n.

(** Between two steps of a method: created or popped, not yet classified. *)
Definition pending_node (n : TreeNode) : Prop :=
  weight n = None /\ childless n /\ depth_le n /\ unevaluated_at_max n.

Definition internal_node (len : nat) (r : node_ref) (n : TreeNode) : Prop :=
  weight n = None /\ (exists si, split_info n = Some si) /\
  (exists l r', left_child n = Some l /\ right_child n = Some r' /\
                (r < l < len)%nat /\ (r < r' < len)%nat) /\
  depth_lt n.

(** A finalized leaf whose evaluated gain is below the threshold. *)
Definition low_gain_node (n : TreeNode) : Prop :=
  exists si, split_info n = Some si /\ sltb (gain si) mg = true.

(** The invariant of the grower, with the nodes [pend] in transit. *)
Record Inv (ns : list TreeNode) (Q F pend : list node_ref) (rt : node_ref) : Prop :=
  mkInv {
  inv_queued : Forall (node_is ns queued_node) Q;
  inv_leaves : Forall (node_is ns leaf_node) F;
  inv_pending : Forall (node_is ns pending_node) pend;
  inv_nodup : NoDup (Q ++ F ++ pend);
  inv_class : forall r, (r < length ns)%nat ->
    r ∈ Q \/ r ∈ F \/ r ∈ pend \/ node_is ns (internal_node (length ns) r) r;
  inv_heap : scalar_order -> is_heap (ref_ltb ns) Q;
  inv_count : (length ns + 1 = 2 * (length Q + length F + length pend))%nat;
  inv_tree : exists t, tree_at ns rt t /\ ids t ≡ₚ seq 0 (length ns)
}.

End Config.

(** The invariant of a grower between two calls of its methods. *)
Definition wf (st : State) : Prop :=
  exists sp,
    splitter st = Some sp /\
    Inv sp (max_depth st) (min_gain_to_split st) (shrinkage st)
        (nodes st) (splittable_nodes st) (finalized_leaves st) [] (root st) /\
    n_nodes st = Z.of_nat (length (nodes st)).

(** The states a grower goes through: constructed with the arguments
    [a], then [k] successful calls of [split_next]. *)
Inductive grown (a : InitArgs) : nat -> State -> Prop :=
| grown_init st :
    TreeGrower a = (st, Ok tt) -> grown a 0%nat st
| grown_split k st st' lr :
    grown a k st -> split_next st = (st', Ok lr) -> grown a (S k) st'.

Definition reachable (a : InitArgs) (st : State) : Prop :=
  exists k, grown a k st.

(** The arguments pass the checks of [__init__]. *)
Definition valid_args (a : InitArgs) : Prop :=
  arr_dtype (a_features_data a) = uint8 /\
  below_one (a_max_leaf_nodes a) = None /\
  below_one (a_max_depth a) = None.

(** The state agrees with the arguments of the constructor. *)
Definition configured (a : InitArgs) (st : State) : Prop :=
  splitter st =
    Some (new_HistogramSplitter (shape1 (a_features_data a)) (a_features_data a)
            (a_n_bins a) (a_all_gradients a) (a_all_hessians a)
            (a_l2_regularization a) (a_min_hessian_to_split a)) /\
  max_leaf_nodes st = a_max_leaf_nodes a /\
  max_depth st = a_max_depth a /\
  features_data st = a_features_data a /\
  min_gain_to_split st = a_min_gain_to_split a /\
  shrinkage st = a_shrinkage a /\
  root st = 0%nat.

(** ** The store under updates *)

Lemma node_is_weaken (ns : list TreeNode) (P P' : TreeNode -> Prop) (r : node_ref) :
  (forall n, P n -> P' n) -> node_is ns P r -> node_is ns P' r.
Proof. intros HP (n & Hn & Pn). exists n. auto. Qed.

Lemma node_is_lt (ns : list TreeNode) (P : TreeNode -> Prop) (r : node_ref) :
  node_is ns P r -> (r < length ns)%nat.
Proof. intros (n & Hn & _). eapply lookup_lt_Some; eauto. Qed.

Lemma node_is_insert_ne (ns : list TreeNode) P (r r' : node_ref) (x : TreeNode) :
  r <> r' -> node_is ns P r -> node_is (<[r' := x]> ns) P r.
Proof.
  intros Hne (n & Hn & Pn). exists n. split; [|exact Pn].
  rewrite list_lookup_insert_ne by auto. exact Hn.
Qed.

Lemma node_is_app (ns l : list TreeNode) P (r : node_ref) :
  node_is ns P r -> node_is (ns ++ l) P r.
Proof.
  intros (n & Hn & Pn). exists n. split; [|exact Pn].
  apply lookup_app_l_Some. exact Hn.
Qed.

Lemma Forall_node_is_insert (ns : list TreeNode) P (L : list node_ref)
      (r : node_ref) (x : TreeNode) :
  r ∉ L -> Forall (node_is ns P) L -> Forall (node_is (<[r := x]> ns) P) L.
Proof.
  intros Hr HL. rewrite Forall_forall in *. intros q Hq.
  apply node_is_insert_ne; [|auto]. intros ->. contradiction.
Qed.

Lemma Forall_node_is_app (ns l : list TreeNode) P (L : list node_ref) :
  Forall (node_is ns P) L -> Forall (node_is (ns ++ l) P) L.
Proof.
  intros HL. eapply Forall_impl; [exact HL|]. intros q. apply node_is_app.
Qed.

Lemma Forall_node_is_lt (ns : list TreeNode) P (L : list node_ref) (r : node_ref) :
  Forall (node_is ns P) L -> r ∈ L -> (r < length ns)%nat.
Proof.
  intros HL Hr. rewrite Forall_forall in HL. eapply node_is_lt; eauto.
Qed.

(** The order of the queue only looks at the queued nodes. *)
Lemma is_heap_ext (ns ns' : list TreeNode) (Q : list node_ref) :
  (forall r, r ∈ Q -> ns' !! r = ns !! r) ->
  is_heap (ref_ltb ns) Q -> is_heap (ref_ltb ns') Q.
Proof.
  intros Hext Hh i Hi x y Hx Hy.
  unfold ref_ltb.
  rewrite (Hext x) by (eapply list_elem_of_lookup_2; eauto).
  rewrite (Hext y) by (eapply list_elem_of_lookup_2; eauto).
  exact (Hh i Hi x y Hx Hy).
Qed.

Lemma is_heap_perm_nil (ns : list TreeNode) : is_heap (ref_ltb ns) [].
Proof. apply is_heap_nil. Qed.

Lemma ref_lt_evaluated (ns : list TreeNode) (a b : node_ref) :
  evaluated ns a -> evaluated ns b -> ref_lt ns a b = Ok (ref_ltb ns a b).
Proof.
  intros (x & sx & Hx & Sx) (y & sy & Hy & Sy).
  unfold ref_lt, ref_ltb, TreeNode_lt. rewrite Hx, Hy, Sx, Sy. reflexivity.
Qed.

Lemma scalar_order_laws (ns : list TreeNode) :
  scalar_order -> order_laws (ref_ltb ns) (evaluated ns).
Proof.
  intros [Hasym Hneg]. split.
  - intros a b (x & sx & Hx & Sx) (y & sy & Hy & Sy).
    unfold ref_ltb, sgtb. rewrite Hx, Hy, Sx, Sy. apply Hasym.
  - intros a b c (x & sx & Hx & Sx) (y & sy & Hy & Sy) (z & sz & Hz & Sz).
    unfold ref_ltb, sgtb. rewrite Hx, Hy, Hz, Sx, Sy, Sz.
    intros H1 H2. exact (Hneg _ _ _ H2 H1).
Qed.

(** The shape of the tree only looks at the links. *)
Definition same_links (ns ns' : list TreeNode) : Prop :=
  forall r n, ns !! r = Some n ->
    exists n', ns' !! r = Some n' /\
               left_child n' = left_child n /\ right_child n' = right_child n.

Lemma tree_at_links (ns ns' : list TreeNode) (r : node_ref) (t : shape) :
  same_links ns ns' -> tree_at ns r t -> tree_at ns' r t.
Proof.
  intros Hl Ht. induction Ht as [r n Hn L R|r n l r' a b Hn L R _ IHa _ IHb].
  - destruct (Hl r n Hn) as (n' & Hn' & L' & R').
    eapply tree_leaf; eauto; congruence.
  - destruct (Hl r n Hn) as (n' & Hn' & L' & R').
    eapply tree_node; eauto; congruence.
Qed.

Lemma same_links_insert (ns : list TreeNode) (r : node_ref) (n x : TreeNode) :
  ns !! r = Some n ->
  left_child x = left_child n -> right_child x = right_child n ->
  same_links ns (<[r := x]> ns).
Proof.
  intros Hn L R q m Hm. destruct (decide (q = r)) as [Heq|Hne].
  - subst q. exists x. rewrite list_lookup_insert_eq by (eapply lookup_lt_Some; eauto).
    rewrite Hn in Hm. injection Hm as <-. auto.
  - exists m. rewrite list_lookup_insert_ne by auto. auto.
Qed.

Lemma tree_at_root_in (ns : list TreeNode) (r : node_ref) (t : shape) :
  tree_at ns r t -> r ∈ ids t.
Proof. intros Ht. destruct Ht; cbn; left. Qed.

(** Grafting two new leaves under the leaf [p]. *)
Lemma tree_at_graft (ns ns' : list TreeNode) (p l r : node_ref) (n' : TreeNode)
      (nl nr : TreeNode) (q : node_ref) (t : shape) :
  (forall q m, q <> p -> ns !! q = Some m -> ns' !! q = Some m) ->
  ns' !! p = Some n' -> left_child n' = Some l -> right_child n' = Some r ->
  ns' !! l = Some nl -> left_child nl = None -> right_child nl = None ->
  ns' !! r = Some nr -> left_child nr = None -> right_child nr = None ->
  node_is ns (fun n => left_child n = None) p ->
  tree_at ns q t -> tree_at ns' q (graft p l r t).
Proof.
  intros Hother Hp Lp Rp Hl Ll Rl Hr Lr Rr (n0 & Hn0 & L0) Ht.
  induction Ht as [q n Hn L R|q n a b ta tb Hn L R _ IHa _ IHb]; cbn [graft].
  - destruct (Nat.eqb_spec q p) as [->|Hne].
    + eapply tree_node; eauto; eapply tree_leaf; eauto.
    + eapply tree_leaf; eauto.
  - assert (q <> p) by (intros ->; congruence).
    eapply tree_node; eauto.
Qed.

Lemma ids_graft_notin (p l r : node_ref) (t : shape) :
  p ∉ ids t -> graft p l r t = t.
Proof.
  induction t as [q|q a IHa b IHb]; cbn; intros Hp.
  - destruct (Nat.eqb_spec q p) as [->|Hne]; [|reflexivity].
    exfalso. apply Hp. left.
  - rewrite not_elem_of_cons, not_elem_of_app in Hp.
    destruct Hp as (_ & Ha & Hb). rewrite IHa, IHb; auto.
Qed.

Lemma ids_graft (ns : list TreeNode) (p l r q : node_ref) (t : shape) :
  tree_at ns q t ->
  node_is ns (fun n => left_child n = None) p ->
  NoDup (ids t) -> p ∈ ids t ->
  ids (graft p l r t) ≡ₚ ids t ++ [l; r].
Proof.
  intros Ht (n0 & Hn0 & L0).
  induction Ht as [q n Hn L R|q n a b ta tb Hn L R _ IHa _ IHb];
    cbn [ids graft]; intros Hnd Hp.
  - apply list_elem_of_singleton in Hp as ->.
    rewrite Nat.eqb_refl. cbn. reflexivity.
  - assert (Hqp : q <> p) by (intros ->; congruence).
    apply NoDup_cons in Hnd as [Hq Hnd].
    apply NoDup_app in Hnd as (Hnda & Hab & Hndb).
    apply elem_of_cons in Hp as [->|Hp]; [congruence|].
    apply elem_of_app in Hp as [Hp|Hp].
    + rewrite (ids_graft_notin p l r tb) by (apply Hab; exact Hp).
      rewrite (IHa Hnda Hp).
      cbn. apply Permutation_skip.
      rewrite <- !app_assoc. apply Permutation_app_head.
      apply Permutation_app_comm.
    + assert (Hpa : p ∉ ids ta) by (intros Hpa; exact (Hab p Hpa Hp)).
      rewrite (ids_graft_notin p l r ta) by exact Hpa.
      rewrite (IHb Hndb Hp).
      cbn. apply Permutation_skip. rewrite app_assoc. reflexivity.
Qed.

(** ** The invariant under the elementary steps *)

Section Preservation.
Variables (sp : HistogramSplitter) (md : option Z) (mg sh : scalar).

Lemma internal_node_mono (len len' : nat) (r : node_ref) (n : TreeNode) :
  (len <= len')%nat -> internal_node md len r n -> internal_node md len' r n.
Proof.
  intros Hle (W & S & (l & r' & L & R & Hl & Hr) & D).
  split; [exact W|]. split; [exact S|]. split; [|exact D].
  exists l, r'. repeat split; auto; lia.
Qed.

Lemma Inv_refs_lt (ns : list TreeNode) (Q F pend : list node_ref) (rt r : node_ref) :
  Inv sp md mg sh ns Q F pend rt -> r ∈ Q ++ F ++ pend -> (r < length ns)%nat.
Proof.
  intros I Hr. rewrite !elem_of_app in Hr. destruct Hr as [Hr|[Hr|Hr]].
  - eapply Forall_node_is_lt; [apply (inv_queued _ _ _ _ _ _ _ _ _ I)|exact Hr].
  - eapply Forall_node_is_lt; [apply (inv_leaves _ _ _ _ _ _ _ _ _ I)|exact Hr].
  - eapply Forall_node_is_lt; [apply (inv_pending _ _ _ _ _ _ _ _ _ I)|exact Hr].
Qed.

(** A pending node becomes a leaf: [_finalize_leaf]. *)
Lemma Inv_finalize (ns : list TreeNode) (Q F pend : list node_ref)
      (rt r : node_ref) (n : TreeNode) :
  Inv sp md mg sh ns Q F (r :: pend) rt ->
  ns !! r = Some n ->
  Inv sp md mg sh (<[r := set_weight (Some (leaf_weight sp sh n)) n]> ns)
      Q (F ++ [r]) pend rt.
Proof.
  intros [HQ HF HP Hnd Hcl Hh Hc Ht] Hn.
  assert (Hnd' : NoDup (r :: Q ++ F ++ pend)).
  { assert (Hmid : r :: Q ++ F ++ pend ≡ₚ Q ++ F ++ r :: pend).
    { rewrite !app_assoc. apply Permutation_middle. }
    rewrite Hmid. exact Hnd. }
  apply NoDup_cons in Hnd' as [Hr Hnd'].
  rewrite !not_elem_of_app in Hr. destruct Hr as (HrQ & HrF & HrP).
  apply Forall_cons in HP as [(n' & Hn' & W & C & D & U) HP].
  rewrite Hn in Hn'. injection Hn' as <-.
  pose proof (lookup_lt_Some _ _ _ Hn) as Hlen.
  constructor.
  - apply Forall_node_is_insert; auto.
  - apply Forall_app. split.
    + apply Forall_node_is_insert; auto.
    + apply Forall_singleton. eexists. split.
      * apply list_lookup_insert_eq. exact Hlen.
      * repeat split; try apply C; try apply D; auto.
  - apply Forall_node_is_insert; auto.
  - assert (Hmid : Q ++ (F ++ [r]) ++ pend ≡ₚ Q ++ F ++ r :: pend).
    { rewrite <- !app_assoc. cbn. reflexivity. }
    rewrite Hmid. exact Hnd.
  - intros q Hq. rewrite length_insert in Hq |- *.
    destruct (decide (q = r)) as [->|Hne].
    + right. left. apply elem_of_app. right. left.
    + destruct (Hcl q Hq) as [H1|[H1|[H1|H1]]].
      * left. exact H1.
      * right. left. apply elem_of_app. left. exact H1.
      * apply elem_of_cons in H1 as [->|H1]; [congruence|]. right. right. left. exact H1.
      * right. right. right. apply node_is_insert_ne; auto.
  - intros Hs. eapply is_heap_ext; [|exact (Hh Hs)].
    intros q Hq. apply list_lookup_insert_ne. intros ->. contradiction.
  - rewrite length_insert, length_app. cbn in *. lia.
  - destruct Ht as (t & Ht & Hperm). exists t. rewrite length_insert. split; [|exact Hperm].
    eapply tree_at_links; [|exact Ht].
    eapply same_links_insert; eauto.
Qed.

(** The split of a pending node is evaluated: the assignment of
    [split_info] in [_compute_spittability]. *)
Lemma Inv_evaluate (ns : list TreeNode) (Q F pend : list node_ref)
      (rt r : node_ref) (n : TreeNode) (si : SplitInfo) :
  Inv sp md mg sh ns Q F (r :: pend) rt ->
  ns !! r = Some n -> depth_lt md n ->
  Inv sp md mg sh (<[r := set_split_info (Some si) n]> ns) Q F (r :: pend) rt.
Proof.
  intros [HQ HF HP Hnd Hcl Hh Hc Ht] Hn Hd.
  assert (Hnd' : NoDup (r :: Q ++ F ++ pend)).
  { assert (Hmid : r :: Q ++ F ++ pend ≡ₚ Q ++ F ++ r :: pend).
    { rewrite !app_assoc. apply Permutation_middle. }
    rewrite Hmid. exact Hnd. }
  apply NoDup_cons in Hnd' as [Hr Hnd'].
  rewrite !not_elem_of_app in Hr. destruct Hr as (HrQ & HrF & HrP).
  apply Forall_cons in HP as [(n' & Hn' & W & C & D & U) HP].
  rewrite Hn in Hn'. injection Hn' as <-.
  pose proof (lookup_lt_Some _ _ _ Hn) as Hlen.
  constructor.
  - apply Forall_node_is_insert; auto.
  - apply Forall_node_is_insert; auto.
  - apply Forall_cons. split.
    + eexists. split; [apply list_lookup_insert_eq; exact Hlen|].
      repeat split; try apply C; try apply D; auto.
      intros d Hmd Hdep. cbn in Hdep. destruct Hd as [_ Hd]. specialize (Hd d Hmd). lia.
    + apply Forall_node_is_insert; auto.
  - exact Hnd.
  - intros q Hq. rewrite length_insert in Hq |- *.
    destruct (decide (q = r)) as [->|Hne].
    + right. right. left. left.
    + destruct (Hcl q Hq) as [H1|[H1|[H1|H1]]]; auto.
      right. right. right. apply node_is_insert_ne; auto.
  - intros Hs. eapply is_heap_ext; [|exact (Hh Hs)].
    intros q Hq. apply list_lookup_insert_ne. intros ->. contradiction.
  - rewrite length_insert. exact Hc.
  - destruct Ht as (t & Ht & Hperm). exists t. rewrite length_insert. split; [|exact Hperm].
    eapply tree_at_links; [|exact Ht].
    eapply same_links_insert; eauto.
Qed.

(** A pending node enters the queue: [heappush]. *)
Lemma Inv_push (ns : list TreeNode) (Q Q' F pend : list node_ref) (rt r : node_ref) :
  Inv sp md mg sh ns Q F (r :: pend) rt ->
  node_is ns (queued_node md mg) r ->
  Q' ≡ₚ r :: Q ->
  (scalar_order -> is_heap (ref_ltb ns) Q') ->
  Inv sp md mg sh ns Q' F pend rt.
Proof.
  intros [HQ HF HP Hnd Hcl Hh Hc Ht] Hr Hperm Hh'.
  apply Forall_cons in HP as [_ HP].
  constructor; auto.
  - rewrite Hperm. apply Forall_cons. auto.
  - assert (Hmid : Q' ++ F ++ pend ≡ₚ Q ++ F ++ r :: pend).
    { rewrite Hperm. cbn. rewrite !app_assoc. apply Permutation_middle. }
    rewrite Hmid. exact Hnd.
  - intros q Hq. destruct (Hcl q Hq) as [H1|[H1|[H1|H1]]]; auto.
    + left. rewrite Hperm. right. exact H1.
    + apply elem_of_cons in H1 as [->|H1]; auto.
      left. rewrite Hperm. left.
  - rewrite Hperm. cbn in *. lia.
Qed.

(** A queued node leaves the queue: [heappop], or [pop] while draining. *)
Lemma Inv_pop (ns : list TreeNode) (Q Q' F pend : list node_ref) (rt p : node_ref) :
  Inv sp md mg sh ns Q F pend rt ->
  p :: Q' ≡ₚ Q ->
  (scalar_order -> is_heap (ref_ltb ns) Q') ->
  Inv sp md mg sh ns Q' F (p :: pend) rt /\ node_is ns (queued_node md mg) p.
Proof.
  intros [HQ HF HP Hnd Hcl Hh Hc Ht] Hperm Hh'.
  rewrite <- Hperm in HQ. apply Forall_cons in HQ as [Hp HQ].
  split; [|exact Hp].
  constructor; auto.
  - apply Forall_cons. split; [|exact HP].
    destruct Hp as (n & Hn & _ & W & C & D). exists n. split; [exact Hn|].
    repeat split; try apply C; auto; try apply D.
    + intros d Hd. destruct D as [_ D]. specialize (D d Hd). lia.
    + intros d Hd Hdep. destruct D as [_ D]. specialize (D d Hd). lia.
  - assert (Hmid : Q' ++ F ++ p :: pend ≡ₚ Q ++ F ++ pend).
    { rewrite <- Hperm. cbn. rewrite !app_assoc. symmetry. apply Permutation_middle. }
    rewrite Hmid. exact Hnd.
  - intros q Hq. destruct (Hcl q Hq) as [H1|[H1|[H1|H1]]]; auto.
    + rewrite <- Hperm in H1. apply elem_of_cons in H1 as [->|H1]; auto.
      right. right. left. left.
    + right. right. left. right. exact H1.
  - rewrite <- Hperm in Hc. cbn in *. lia.
Qed.

(** The store after the two children of [p] are created and linked, in
    the order [split_next] does it. *)
Definition attach_nodes (p : node_ref) (n nl nr : TreeNode) (ns : list TreeNode)
  : list TreeNode :=
  <[p := set_right_child (Some (S (length ns))) (set_left_child (Some (length ns)) n)]>
    (<[p := set_left_child (Some (length ns)) n]> (ns ++ [nl]) ++ [nr]).

Lemma attach_nodes_length p n nl nr ns :
  length (attach_nodes p n nl nr ns) = S (S (length ns)).
Proof.
  unfold attach_nodes. rewrite length_insert, length_app, length_insert, length_app.
  cbn. lia.
Qed.

Lemma attach_nodes_parent p n nl nr ns :
  (p < length ns)%nat ->
  attach_nodes p n nl nr ns !! p =
    Some (set_right_child (Some (S (length ns))) (set_left_child (Some (length ns)) n)).
Proof.
  intros Hp. unfold attach_nodes. apply list_lookup_insert_eq.
  rewrite length_app, length_insert, length_app. cbn. lia.
Qed.

Lemma attach_nodes_other p n nl nr ns q :
  q <> p -> (q < length ns)%nat -> attach_nodes p n nl nr ns !! q = ns !! q.
Proof.
  intros Hq Hlen. unfold attach_nodes.
  rewrite list_lookup_insert_ne by auto.
  rewrite lookup_app_l by (rewrite length_insert, length_app; cbn; lia).
  rewrite list_lookup_insert_ne by auto.
  apply lookup_app_l. exact Hlen.
Qed.

Lemma attach_nodes_left p n nl nr ns :
  (p < length ns)%nat -> attach_nodes p n nl nr ns !! length ns = Some nl.
Proof.
  intros Hp. unfold attach_nodes.
  rewrite list_lookup_insert_ne by lia.
  rewrite lookup_app_l by (rewrite length_insert, length_app; cbn; lia).
  rewrite list_lookup_insert_ne by lia.
  apply list_lookup_middle. reflexivity.
Qed.

Lemma attach_nodes_right p n nl nr ns :
  (p < length ns)%nat -> attach_nodes p n nl nr ns !! S (length ns) = Some nr.
Proof.
  intros Hp. unfold attach_nodes.
  rewrite list_lookup_insert_ne by lia.
  apply list_lookup_middle. rewrite length_insert, length_app. cbn. lia.
Qed.

Lemma node_is_attach p n nl nr ns P q :
  q <> p -> node_is ns P q -> node_is (attach_nodes p n nl nr ns) P q.
Proof.
  intros Hq (m & Hm & Pm). exists m. split; [|exact Pm].
  rewrite attach_nodes_other; auto. eapply lookup_lt_Some; eauto.
Qed.

(** The popped node gets its two children: the middle of [split_next]. *)
Lemma Inv_attach (ns : list TreeNode) (Q F : list node_ref) (rt p : node_ref)
      (n : TreeNode) (il ir : list nat) (gl hl gr hr : scalar) :
  let nl := mkTreeNode _ (depth n + 1) il gl hl None None None None in
  let nr := mkTreeNode _ (depth n + 1) ir gr hr None None None None in
  Inv sp md mg sh ns Q F [p] rt ->
  ns !! p = Some n ->
  node_is ns (queued_node md mg) p ->
  Inv sp md mg sh (attach_nodes p n nl nr ns) Q F [length ns; S (length ns)] rt.
Proof.
  intros nl nr [HQ HF HP Hnd Hcl Hh Hc Ht] Hn (n' & Hn' & (si & Hsi & _) & W & C & D).
  rewrite Hn in Hn'. injection Hn' as <-.
  pose proof (lookup_lt_Some _ _ _ Hn) as Hp.
  assert (HpQ : p ∉ Q).
  { intros Hin. apply NoDup_app in Hnd as (_ & Hd & _).
    apply (Hd p Hin). apply elem_of_app. right. left. }
  assert (HpF : p ∉ F).
  { intros Hin. apply NoDup_app in Hnd as (_ & _ & Hnd).
    apply NoDup_app in Hnd as (_ & Hd & _). apply (Hd p Hin). left. }
  assert (Hfresh : forall m, depth m = depth n + 1 -> weight m = None ->
                     left_child m = None -> right_child m = None ->
                     split_info m = None -> pending_node md m).
  { intros m Hd Hw Hl Hr Hs. split; [exact Hw|]. split; [split; assumption|].
    destruct D as [D0 D]. split; [split|].
    - lia.
    - intros d Hmd. specialize (D d Hmd). lia.
    - intros d _ _. exact Hs. }
  constructor.
  - rewrite Forall_forall in *. intros q Hq. apply node_is_attach; auto.
    intros ->. contradiction.
  - rewrite Forall_forall in *. intros q Hq. apply node_is_attach; auto.
    intros ->. contradiction.
  - apply Forall_cons. split; [|apply Forall_singleton].
    + exists nl. split; [apply attach_nodes_left; exact Hp|]. apply Hfresh; reflexivity.
    + exists nr. split; [apply attach_nodes_right; exact Hp|]. apply Hfresh; reflexivity.
  - assert (Hlt : forall q, q ∈ Q ++ F -> (q < length ns)%nat).
    { intros q Hq. apply elem_of_app in Hq as [Hq|Hq].
      - eapply Forall_node_is_lt; [exact HQ|exact Hq].
      - eapply Forall_node_is_lt; [exact HF|exact Hq]. }
    rewrite app_assoc. apply NoDup_app. split; [|split].
    + rewrite app_assoc in Hnd. apply NoDup_app in Hnd as (Hnd & _ & _). exact Hnd.
    + intros q Hq Hq'. specialize (Hlt q Hq).
      apply elem_of_cons in Hq' as [->|Hq']; [lia|].
      apply list_elem_of_singleton in Hq' as ->. lia.
    + apply NoDup_cons. split; [|apply NoDup_singleton].
      intros Hin. apply list_elem_of_singleton in Hin. lia.
  - intros q Hq. rewrite attach_nodes_length in Hq |- *.
    destruct (decide (q = length ns)) as [->|H1]; [right; right; left; left|].
    destruct (decide (q = S (length ns))) as [->|H2];
      [right; right; left; right; left|].
    destruct (decide (q = p)) as [->|H3].
    + right. right. right. eexists. split; [apply attach_nodes_parent; exact Hp|].
      split; [exact W|]. split; [exists si; exact Hsi|]. split; [|exact D].
      exists (length ns), (S (length ns)). cbn. repeat split; auto; lia.
    + destruct (Hcl q ltac:(lia)) as [H4|[H4|[H4|H4]]]; auto.
      * apply list_elem_of_singleton in H4. contradiction.
      * right. right. right. apply node_is_attach; auto.
        eapply node_is_weaken; [|exact H4].
        intros m. apply internal_node_mono. lia.
  - intros Hs. eapply is_heap_ext; [|exact (Hh Hs)].
    intros q Hq. apply attach_nodes_other.
    + intros ->. contradiction.
    + eapply Forall_node_is_lt; [exact HQ|exact Hq].
  - rewrite attach_nodes_length. cbn in *. lia.
  - destruct Ht as (t & Ht & Hperm).
    exists (graft p (length ns) (S (length ns)) t).
    assert (Hnd_t : NoDup (ids t)) by (rewrite Hperm; apply NoDup_seq).
    assert (Hp_t : p ∈ ids t).
    { rewrite Hperm. apply elem_of_seq. lia. }
    split.
    + eapply tree_at_graft; [| | | | | | | | | | |exact Ht].
      * intros q m Hq Hm. rewrite attach_nodes_other; auto.
        eapply lookup_lt_Some; eauto.
      * apply attach_nodes_parent. exact Hp.
      * reflexivity.
      * reflexivity.
      * apply attach_nodes_left. exact Hp.
      * reflexivity.
      * reflexivity.
      * apply attach_nodes_right. exact Hp.
      * reflexivity.
      * reflexivity.
      * exists n. split; [exact Hn|apply C].
    + rewrite (ids_graft ns p _ _ rt t Ht); auto.
      * rewrite Hperm, attach_nodes_length.
        replace (S (S (length ns))) with (length ns + 2)%nat by lia.
        rewrite seq_app. cbn. reflexivity.
      * exists n. split; [exact Hn|apply C].
Qed.

End Preservation.

(** ** The methods on a well-formed grower *)

(** What [__init__] assigns once and no method changes. *)
Definition config (st : State) :=
  (splitter st, max_leaf_nodes st, max_depth st, features_data st,
   min_gain_to_split st, shrinkage st, root st).

(** The invariant on a state, with the nodes [pend] in transit. *)
Definition SInv (pend : list node_ref) (st : State) : Prop :=
  exists sp,
    splitter st = Some sp /\
    Inv sp (max_depth st) (min_gain_to_split st) (shrinkage st)
        (nodes st) (splittable_nodes st) (finalized_leaves st) pend (root st).

(** The state after [_finalize_leaf]. *)
Definition finalize_effect (r : node_ref) (n : TreeNode) (sp : HistogramSplitter)
    (st : State) : State :=
  with_finalized_leaves (finalized_leaves st ++ [r])
    (with_nodes (<[r := set_weight (Some (leaf_weight sp (shrinkage st) n)) n]> (nodes st))
                st).

(** The state after the evaluation of the split of [r]. *)
Definition evaluate_effect (r : node_ref) (n : TreeNode) (sp : HistogramSplitter)
    (st : State) : State :=
  with_nodes
    (<[r := set_split_info (Some (find_node_split sp (sample_indices n))) n]> (nodes st))
    (with_find_node_split_calls (find_node_split_calls st ++ [sample_indices n]) st).

(** The state after the two children of [p] are created and counted. *)
Definition attach_effect (p : node_ref) (n nl nr : TreeNode) (st : State) : State :=
  with_n_nodes (n_nodes st + 2) (with_nodes (attach_nodes p n nl nr (nodes st)) st).

Lemma _finalize_leaf_run (st : State) (r : node_ref) (n : TreeNode)
      (sp : HistogramSplitter) :
  nodes st !! r = Some n -> splitter st = Some sp ->
  _finalize_leaf r st = (finalize_effect r n sp st, Ok tt).
Proof.
  intros Hn Hsp.
  unfold _finalize_leaf, bind, get_node, gets, get_splitter, update_node, modify.
  rewrite Hn, Hsp. cbv beta iota. rewrite Hn. reflexivity.
Qed.

Lemma SInv_finalize (st : State) (r : node_ref) (pend : list node_ref)
      (n : TreeNode) (sp : HistogramSplitter) :
  SInv (r :: pend) st -> nodes st !! r = Some n -> splitter st = Some sp ->
  SInv pend (finalize_effect r n sp st).
Proof.
  intros (sp' & Hsp' & I) Hn Hsp. rewrite Hsp in Hsp'. injection Hsp' as <-.
  exists sp. split; [exact Hsp|]. cbn.
  apply Inv_finalize; assumption.
Qed.

Lemma SInv_pending_lookup (st : State) (r : node_ref) (pend : list node_ref) :
  SInv (r :: pend) st ->
  exists n sp, nodes st !! r = Some n /\ splitter st = Some sp /\
               pending_node (max_depth st) n.
Proof.
  intros (sp & Hsp & I).
  pose proof (inv_pending _ _ _ _ _ _ _ _ _ I) as HP.
  apply Forall_cons in HP as [(n & Hn & Pn) _].
  exists n, sp. auto.
Qed.

(** [heappush] on the queue of a well-formed grower. *)
Lemma push_splittable_run (st : State) (r : node_ref) (pend : list node_ref) :
  SInv (r :: pend) st ->
  node_is (nodes st) (queued_node (max_depth st) (min_gain_to_split st)) r ->
  exists Q',
    push_splittable r st = (with_splittable_nodes Q' st, Ok tt) /\
    Q' ≡ₚ r :: splittable_nodes st /\
    SInv pend (with_splittable_nodes Q' st).
Proof.
  intros (sp & Hsp & I) Hr.
  assert (Hev : forall q, node_is (nodes st) (queued_node (max_depth st) (min_gain_to_split st)) q ->
                          evaluated (nodes st) q).
  { intros q (m & Hm & (si & Hsi & _) & _). exists m, si. auto. }
  destruct (heappush_ok (ref_lt (nodes st)) (ref_ltb (nodes st)) (evaluated (nodes st))
              (ref_lt_evaluated (nodes st)) scalar_order (scalar_order_laws (nodes st))
              (splittable_nodes st) r) as (Q' & E & Hh & Hperm).
  - eapply Forall_impl; [apply (inv_queued _ _ _ _ _ _ _ _ _ I)|]. exact Hev.
  - apply Hev. exact Hr.
  - apply (inv_heap _ _ _ _ _ _ _ _ _ I).
  - exists Q'. unfold push_splittable, zoom. rewrite E.
    split; [reflexivity|]. split; [exact Hperm|].
    exists sp. split; [exact Hsp|]. cbn.
    eapply Inv_push; eauto.
Qed.

(** [heappop] on the queue of a well-formed grower: the head of the list
    comes out. *)
Lemma pop_splittable_run (st : State) :
  SInv [] st -> splittable_nodes st <> [] ->
  exists p Q',
    pop_splittable st = (with_splittable_nodes Q' st, Ok p) /\
    splittable_nodes st !! 0%nat = Some p /\
    p :: Q' ≡ₚ splittable_nodes st /\
    SInv [p] (with_splittable_nodes Q' st) /\
    node_is (nodes st) (queued_node (max_depth st) (min_gain_to_split st)) p.
Proof.
  intros (sp & Hsp & I) Hne.
  destruct (heappop_ok (ref_lt (nodes st)) (ref_ltb (nodes st)) (evaluated (nodes st))
              (ref_lt_evaluated (nodes st)) scalar_order (scalar_order_laws (nodes st))
              (splittable_nodes st)) as (p & Q' & E & H0' & Hh & Hperm).
  - eapply Forall_impl; [apply (inv_queued _ _ _ _ _ _ _ _ _ I)|].
    intros q (m & Hm & (si & Hsi & _) & _). exists m, si. auto.
  - apply (inv_heap _ _ _ _ _ _ _ _ _ I).
  - exact Hne.
  - exists p, Q'. unfold pop_splittable, zoom. rewrite E.
    split; [reflexivity|]. split; [exact H0'|]. split; [exact Hperm|].
    destruct (Inv_pop _ _ _ _ _ _ _ _ _ _ p I Hperm Hh) as [I' Hp].
    split; [|exact Hp].
    exists sp. split; [exact Hsp|]. exact I'.
Qed.

Lemma bind_ok {S A B : Type} (m : M S A) (k : A -> M S B) (s s' : S) (a : A) :
  m s = (s', Ok a) -> bind m k s = k a s'.
Proof. intros E. unfold bind. rewrite E. reflexivity. Qed.

(** Every finalized leaf has an evaluated gain below the threshold. *)
Definition low_leaves (st : State) : Prop :=
  Forall (node_is (nodes st) (low_gain_node (min_gain_to_split st)))
         (finalized_leaves st).

(** What one call of [_compute_spittability] or [_finalize_leaf] on the
    pending node [r] leaves behind. *)
Record settled (pend : list node_ref) (r : node_ref) (st st' : State) : Prop :=
  mkSettled {
  st_inv : SInv pend st';
  st_config : config st' = config st;
  st_n_nodes : n_nodes st' = n_nodes st;
  st_length : length (nodes st') = length (nodes st);
  st_count :
    (length (splittable_nodes st') + length (finalized_leaves st')
     = length (splittable_nodes st) + length (finalized_leaves st) + 1)%nat;
  st_other : forall q, q <> r -> nodes st' !! q = nodes st !! q;
  st_not_queued : forall q, q ∉ r :: splittable_nodes st -> q ∉ splittable_nodes st'
}.

Lemma low_leaves_frame (st st' : State) (Fnew : list node_ref) :
  min_gain_to_split st' = min_gain_to_split st ->
  finalized_leaves st' = finalized_leaves st ++ Fnew ->
  (forall q, q ∈ finalized_leaves st -> nodes st' !! q = nodes st !! q) ->
  Forall (node_is (nodes st') (low_gain_node (min_gain_to_split st'))) Fnew ->
  low_leaves st -> low_leaves st'.
Proof.
  intros Hmg HF Hsame Hnew Hlow. unfold low_leaves in *.
  rewrite HF. apply Forall_app. split; [|exact Hnew].
  rewrite Forall_forall in *. intros q Hq.
  destruct (Hlow q Hq) as (n & Hn & Ln). exists n.
  rewrite Hsame, Hmg by exact Hq. auto.
Qed.

Lemma SInv_leaf_not_pending (st : State) (pend : list node_ref) (q : node_ref) :
  SInv pend st -> q ∈ finalized_leaves st -> q ∉ pend.
Proof.
  intros (sp & _ & I) Hq Hp.
  pose proof (inv_nodup _ _ _ _ _ _ _ _ _ I) as Hnd.
  apply NoDup_app in Hnd as (_ & _ & Hnd).
  apply NoDup_app in Hnd as (_ & Hd & _). exact (Hd q Hq Hp).
Qed.

Lemma SInv_queued_not_pending (st : State) (pend : list node_ref) (q : node_ref) :
  SInv pend st -> q ∈ splittable_nodes st -> q ∉ pend.
Proof.
  intros (sp & _ & I) Hq Hp.
  pose proof (inv_nodup _ _ _ _ _ _ _ _ _ I) as Hnd.
  apply NoDup_app in Hnd as (_ & Hd & _).
  apply (Hd q Hq). apply elem_of_app. right. exact Hp.
Qed.

(** [_finalize_leaf] on a pending node. *)
Lemma _finalize_leaf_ok (st : State) (r : node_ref) (pend : list node_ref) :
  SInv (r :: pend) st ->
  exists st', _finalize_leaf r st = (st', Ok tt) /\ settled pend r st st' /\
              finalized_leaves st' = finalized_leaves st ++ [r] /\
              splittable_nodes st' = splittable_nodes st /\
              node_is (nodes st) (fun n => node_is (nodes st')
                                    (fun n' => split_info n' = split_info n) r) r.
Proof.
  intros HI. destruct (SInv_pending_lookup _ _ _ HI) as (n & sp & Hn & Hsp & Pn).
  exists (finalize_effect r n sp st).
  split; [apply _finalize_leaf_run; assumption|].
  split; [|split; [reflexivity|split; [reflexivity|]]].
  - constructor.
    + apply SInv_finalize; assumption.
    + reflexivity.
    + reflexivity.
    + cbn. apply length_insert.
    + cbn. rewrite length_app. cbn. lia.
    + intros q Hq. cbn. apply list_lookup_insert_ne. auto.
    + intros q Hq. cbn. rewrite not_elem_of_cons in Hq. apply Hq.
  - exists n. split; [exact Hn|]. eexists. split.
    + cbn. apply list_lookup_insert_eq. eapply lookup_lt_Some; eauto.
    + reflexivity.
Qed.

(** [_compute_spittability] on a pending node above the maximal depth. *)
Lemma _compute_spittability_ok (st : State) (r : node_ref) (pend : list node_ref) :
  SInv (r :: pend) st ->
  node_is (nodes st) (depth_lt (max_depth st)) r ->
  exists st', _compute_spittability r st = (st', Ok tt) /\ settled pend r st st' /\
              (low_leaves st -> low_leaves st').
Proof.
  intros HI (n0 & Hn0 & Hd).
  destruct (SInv_pending_lookup _ _ _ HI) as (n & sp & Hn & Hsp & Pn).
  rewrite Hn in Hn0. injection Hn0 as <-.
  pose proof (lookup_lt_Some _ _ _ Hn) as Hlen.
  set (si := find_node_split sp (sample_indices n)).
  set (st1 := evaluate_effect r n sp st).
  assert (E1 : _compute_spittability r st =
             (if sltb (gain si) (min_gain_to_split st) then _finalize_leaf r
              else push_splittable r) st1).
  { unfold _compute_spittability, call_find_node_split.
    unfold bind, get_node, get_splitter, modify, ret, update_node, gets.
    rewrite Hn, Hsp. cbn. rewrite Hn. reflexivity. }
  rewrite E1. clear E1.
  assert (Hn1 : nodes st1 !! r = Some (set_split_info (Some si) n)).
  { cbn. apply list_lookup_insert_eq. exact Hlen. }
  assert (HI1 : SInv (r :: pend) st1).
  { destruct HI as (sp' & Hsp' & I). exists sp'. split; [exact Hsp'|]. cbn.
    apply Inv_evaluate; assumption. }
  assert (Hother : forall q, q <> r -> nodes st1 !! q = nodes st !! q).
  { intros q Hq. cbn. apply list_lookup_insert_ne. auto. }
  destruct (sltb (gain si) (min_gain_to_split st)) eqn:Hg.
  - destruct (_finalize_leaf_ok st1 r pend HI1) as (st' & E & [S1 S2 S3 S4 S5 S6 S7] & HF & HQ & _).
    exists st'. split; [exact E|]. split.
    + constructor; auto.
      * rewrite S4. cbn. apply length_insert.
      * intros q Hq. rewrite S6 by exact Hq. apply Hother. exact Hq.
    + apply (low_leaves_frame st st' [r]).
      * injection S2 as _ _ _ _ Hmg _ _. exact Hmg.
      * exact HF.
      * intros q Hq. assert (q <> r).
        { intros ->. eapply (SInv_leaf_not_pending st (r :: pend)); eauto. left. }
        rewrite S6 by auto. apply Hother. auto.
      * apply Forall_singleton.
        exists (set_weight (Some (leaf_weight sp (shrinkage st1) (set_split_info (Some si) n)))
                           (set_split_info (Some si) n)).
        split.
        -- rewrite (_finalize_leaf_run st1 r _ sp Hn1 Hsp) in E. injection E as <-.
           cbn. apply list_lookup_insert_eq. rewrite length_insert. exact Hlen.
        -- exists si. split; [reflexivity|].
           injection S2 as _ _ _ _ Hmg _ _. rewrite Hmg. exact Hg.
  - destruct Pn as (W & C & D & U).
    destruct (push_splittable_run st1 r pend HI1) as (Q' & E & Hperm & HI').
    { exists (set_split_info (Some si) n). split; [exact Hn1|].
      split; [exists si; split; [reflexivity|exact Hg]|].
      split; [exact W|]. split; [exact C|exact Hd]. }
    exists (with_splittable_nodes Q' st1). split; [exact E|]. split.
    + constructor; auto.
      * cbn. apply length_insert.
      * cbn. rewrite Hperm. cbn. lia.
      * intros q Hq. cbn. rewrite Hperm. exact Hq.
    + apply (low_leaves_frame st _ []).
      * reflexivity.
      * cbn. rewrite app_nil_r. reflexivity.
      * intros q Hq. apply Hother. intros ->.
        eapply (SInv_leaf_not_pending st (r :: pend)); eauto. left.
      * constructor.
Qed.

(** [_finalize_splittable_nodes]: the queue is drained into the leaves. *)
Record drained (st st' : State) : Prop := mkDrained {
  dr_inv : SInv [] st';
  dr_config : config st' = config st;
  dr_n_nodes : n_nodes st' = n_nodes st;
  dr_length : length (nodes st') = length (nodes st);
  dr_queue : splittable_nodes st' = [];
  dr_leaves :
    (length (finalized_leaves st')
     = length (finalized_leaves st) + length (splittable_nodes st))%nat;
  dr_other : forall q, q ∉ splittable_nodes st -> nodes st' !! q = nodes st !! q
}.

Lemma _finalize_splittable_nodes_loop_ok (fuel : nat) :
  forall st, SInv [] st -> (length (splittable_nodes st) <= fuel)%nat ->
    exists st', _finalize_splittable_nodes_loop fuel st = (st', Ok tt) /\ drained st st'.
Proof.
  induction fuel as [|fuel IH]; intros st HI Hfuel.
  - exists st. destruct (splittable_nodes st) eqn:EQ; [|cbn in Hfuel; lia].
    split.
    + unfold _finalize_splittable_nodes_loop, bind, gets. rewrite EQ. reflexivity.
    + constructor; auto. rewrite EQ. cbn. lia.
  - destruct (decide (splittable_nodes st = [])) as [EQ|Hne].
    + exists st. split.
      * cbn [_finalize_splittable_nodes_loop]. unfold bind, gets. rewrite EQ. reflexivity.
      * constructor; auto. rewrite EQ. cbn. lia.
    + destruct (proj2 (last_is_Some _) Hne) as [r Hlast].
      pose proof Hlast as Hsplit. apply last_Some in Hsplit as [Q0 EQ].
      set (st1 := with_splittable_nodes Q0 st).
      assert (Epop : zoom splittable_nodes with_splittable_nodes pop st = (st1, Ok r)).
      { unfold zoom, pop. rewrite Hlast, EQ, removelast_last. reflexivity. }
      assert (HI1 : SInv [r] st1).
      { destruct HI as (sp & Hsp & I). exists sp. split; [exact Hsp|]. cbn.
        refine (proj1 (Inv_pop _ _ _ _ _ _ Q0 _ _ _ r I _ _)).
        - rewrite EQ. apply Permutation_cons_append.
        - intros Hs. pose proof (inv_heap _ _ _ _ _ _ _ _ _ I Hs) as Hh.
          rewrite EQ in Hh. eapply is_heap_removelast. exact Hh. }
      destruct (_finalize_leaf_ok st1 r [] HI1)
        as (st2 & E2 & [S1 S2 S3 S4 S5 S6 S7] & HF & HQ & _).
      destruct (IH st2 S1) as (st' & E' & [D1 D2 D3 D4 D5 D6 D7]).
      { rewrite HQ. cbn. rewrite EQ, length_app in Hfuel. cbn in Hfuel. lia. }
      exists st'. split.
      * cbn [_finalize_splittable_nodes_loop].
        rewrite (bind_ok _ _ st st (splittable_nodes st)) by reflexivity.
        assert (Htest : (0 <? length (splittable_nodes st))%nat = true).
        { apply Nat.ltb_lt. rewrite EQ, length_app. cbn. lia. }
        rewrite Htest.
        rewrite (bind_ok _ _ _ _ _ Epop).
        rewrite (bind_ok _ _ _ _ _ E2). exact E'.
      * constructor; auto.
        -- rewrite D2, S2. reflexivity.
        -- rewrite D3, S3. reflexivity.
        -- rewrite D4, S4. reflexivity.
        -- rewrite D6, HF, HQ, length_app. cbn. rewrite EQ, length_app. cbn. lia.
        -- intros q Hq. rewrite EQ in Hq. rewrite not_elem_of_app in Hq.
           destruct Hq as [Hq0 Hqr]. rewrite D7 by (rewrite HQ; exact Hq0).
           apply S6. intros ->. apply Hqr. left.
Qed.

Lemma _finalize_splittable_nodes_ok (st : State) :
  SInv [] st ->
  exists st', _finalize_splittable_nodes st = (st', Ok tt) /\ drained st st'.
Proof.
  intros HI. unfold _finalize_splittable_nodes.
  rewrite (bind_ok _ _ st st (splittable_nodes st)) by reflexivity.
  apply _finalize_splittable_nodes_loop_ok; auto.
Qed.

Lemma opt_eqb_true (o : option Z) (v : Z) : opt_eqb o v = true <-> o = Some v.
Proof.
  destruct o as [x|]; cbn; [|split; discriminate].
  rewrite Z.eqb_eq. split; congruence.
Qed.

Lemma opt_eqb_false (o : option Z) (v : Z) : opt_eqb o v = false <-> o <> Some v.
Proof.
  rewrite <- opt_eqb_true. destruct (opt_eqb o v); split; congruence.
Qed.

(** The three ways [split_next] ends, on the two new children [l] and [r]. *)
Definition split_next_tail (md ml : option Z) (depth n_leaf_nodes : Z)
    (l r : node_ref) : M State (node_ref * node_ref) :=
  (if opt_eqb md depth then
     _finalize_leaf l ;;;
     _finalize_leaf r
   else if opt_eqb ml n_leaf_nodes then
     _finalize_leaf l ;;;
     _finalize_leaf r ;;;
     _finalize_splittable_nodes
   else
     _compute_spittability l ;;;
     _compute_spittability r) ;;;
  ret (l, r).

(** [split_next] up to the point where the children are linked. *)
Lemma split_next_attach (st : State) :
  SInv [] st -> splittable_nodes st <> [] ->
  exists p Q' n si sp nl nr,
    splittable_nodes st !! 0%nat = Some p /\
    p :: Q' ≡ₚ splittable_nodes st /\
    nodes st !! p = Some n /\ split_info n = Some si /\
    splitter st = Some sp /\
    node_is (nodes st) (queued_node (max_depth st) (min_gain_to_split st)) p /\
    depth nl = depth n + 1 /\ depth nr = depth n + 1 /\
    let st2 := attach_effect p n nl nr (with_splittable_nodes Q' st) in
    SInv [length (nodes st); S (length (nodes st))] st2 /\
    split_next st =
      split_next_tail (max_depth st) (max_leaf_nodes st) (depth n + 1)
        (Z.of_nat (length (finalized_leaves st)) + Z.of_nat (length Q') + 2)
        (length (nodes st)) (S (length (nodes st))) st2.
Proof.
  intros HI Hne.
  destruct (pop_splittable_run st HI Hne) as (p & Q' & Epop & Hhead & Hperm & HI1 & Hp).
  pose proof Hp as (n & Hn & (si & Hsi & Hg) & W & C & D).
  destruct HI1 as (sp & Hsp & I1). cbn in Hsp, I1.
  pose proof (lookup_lt_Some _ _ _ Hn) as Hlen.
  destruct (split_indices sp (sample_indices n) si) as [il ir] eqn:Esplit.
  set (nl := mkTreeNode _ (depth n + 1) il (gradient_left si) (hessian_left si)
                        None None None None).
  set (nr := mkTreeNode _ (depth n + 1) ir (gradient_right si) (hessian_right si)
                        None None None None).
  exists p, Q', n, si, sp, nl, nr.
  do 6 (split; [assumption|]). split; [reflexivity|]. split; [reflexivity|].
  split.
  - exists sp. split; [exact Hsp|]. cbn.
    apply (Inv_attach sp (max_depth st) (min_gain_to_split st) (shrinkage st)
             (nodes st) Q' (finalized_leaves st) (root st) p n il ir); assumption.
  - unfold split_next.
    rewrite (bind_ok _ _ st st (splittable_nodes st)) by reflexivity.
    destruct (Nat.eqb_spec (length (splittable_nodes st)) 0) as [E0|_].
    { destruct (splittable_nodes st); [congruence|discriminate]. }
    rewrite (bind_ok _ _ _ _ _ Epop).
    unfold bind at 1. unfold get_node at 1. cbn [nodes with_splittable_nodes].
    rewrite Hn.
    unfold bind at 1. unfold get_splitter at 1. cbn [splitter with_splittable_nodes].
    rewrite Hsp. rewrite Hsi.
    unfold bind at 1. unfold ret at 1. rewrite Esplit.
    unfold bind at 1. unfold gets at 1.
    unfold bind at 1. unfold gets at 1.
    unfold bind at 1. unfold new_TreeNode at 1.
    unfold bind at 1. unfold update_node at 1.
    cbn [nodes with_nodes with_splittable_nodes].
    rewrite (lookup_app_l_Some _ _ _ _ Hn).
    unfold bind at 1. unfold new_TreeNode at 1.
    unfold bind at 1. unfold update_node at 1.
    cbn [nodes with_nodes with_splittable_nodes].
    rewrite lookup_app_l by (rewrite length_insert, length_app; cbn; lia).
    rewrite list_lookup_insert_eq by (rewrite length_app; cbn; lia).
    unfold bind at 1. unfold modify at 1.
    unfold bind at 1. unfold gets at 1.
    unfold bind at 1. unfold gets at 1.
    rewrite length_insert, length_app. cbn [length].
    replace (length (nodes st) + 1)%nat with (S (length (nodes st))) by lia.
    reflexivity.
Qed.

(** How [split_next] ended: at the maximal depth, on the leaf budget, or
    with the children evaluated. *)
Definition split_branch (st st' : State) (n : TreeNode) : Prop :=
  let projected :=
    Z.of_nat (length (finalized_leaves st))
    + Z.of_nat (length (splittable_nodes st) - 1) + 2 in
  max_depth st = Some (depth n + 1)
  \/ (max_depth st <> Some (depth n + 1) /\
      max_leaf_nodes st = Some projected /\
      splittable_nodes st' = [] /\
      length (finalized_leaves st')
      = (length (finalized_leaves st) + length (splittable_nodes st) + 1)%nat)
  \/ (max_depth st <> Some (depth n + 1) /\
      max_leaf_nodes st <> Some projected /\
      (length (splittable_nodes st') + length (finalized_leaves st')
       = length (splittable_nodes st) + length (finalized_leaves st) + 1)%nat /\
      (low_leaves st -> low_leaves st')).

(** One successful call of [split_next], from [st] to [st'], returning
    the children [l] and [r] of the popped node. *)
Record split_step (st st' : State) (l r : node_ref) : Prop := mkSplitStep {
  ss_wf : wf st';
  ss_config : config st' = config st;
  ss_length : length (nodes st') = S (S (length (nodes st)));
  ss_left : l = length (nodes st);
  ss_right : r = S (length (nodes st));
  ss_popped : exists p n,
    splittable_nodes st !! 0%nat = Some p /\
    nodes st !! p = Some n /\
    node_is (nodes st')
      (fun n' => left_child n' = Some l /\ right_child n' = Some r /\
                 split_info n' = split_info n) p /\
    (p ∉ splittable_nodes st') /\
    split_branch st st' n
}.

Lemma wf_SInv (st : State) : wf st -> SInv [] st.
Proof. intros (sp & Hsp & I & _). exists sp. auto. Qed.

Lemma wf_intro (st : State) :
  SInv [] st -> n_nodes st = Z.of_nat (length (nodes st)) -> wf st.
Proof. intros (sp & Hsp & I) Hn. exists sp. auto. Qed.

Lemma split_next_ok (st : State) :
  wf st -> splittable_nodes st <> [] ->
  exists st' l r, split_next st = (st', Ok (l, r)) /\ split_step st st' l r.
Proof.
  intros Hwf Hne.
  pose proof (wf_SInv st Hwf) as HI.
  destruct Hwf as (sp0 & Hsp0 & I0 & Hcount).
  destruct (split_next_attach st HI Hne)
    as (p & Q' & n & si & sp & nl & nr & Hhead & Hperm & Hn & Hsi & Hsp & Hp
        & Dl & Dr & HI2 & Erun).
  cbv zeta in HI2, Erun.
  set (st2 := attach_effect p n nl nr (with_splittable_nodes Q' st)) in *.
  set (l := length (nodes st)) in *. set (r := S l) in *.
  pose proof (lookup_lt_Some _ _ _ Hn) as Hplen.
  assert (HlenQ : length (splittable_nodes st) = S (length Q')).
  { rewrite <- Hperm. reflexivity. }
  assert (HpQ' : p ∉ Q').
  { pose proof (inv_nodup _ _ _ _ _ _ _ _ _ I0) as Hnd.
    apply NoDup_app in Hnd as (Hnd & _ & _). rewrite <- Hperm in Hnd.
    apply NoDup_cons in Hnd as [Hnd _]. exact Hnd. }
  assert (Hp2 : nodes st2 !! p =
                Some (set_right_child (Some r) (set_left_child (Some l) n))).
  { cbn. apply attach_nodes_parent. exact Hplen. }
  assert (Hlen2 : length (nodes st2) = S (S (length (nodes st)))).
  { cbn. apply attach_nodes_length. }
  assert (Hn2 : n_nodes st2 = Z.of_nat (length (nodes st2))).
  { rewrite Hlen2. cbn. rewrite Hcount. lia. }
  assert (Hdl : forall d, max_depth st = Some d -> depth n + 1 <> d -> depth n + 1 < d).
  { intros d Hd Hneq. destruct Hp as (n' & Hn' & _ & _ & _ & _ & D).
    rewrite Hn in Hn'. injection Hn' as <-. specialize (D d Hd). lia. }
  assert (Hd0 : 0 <= depth n).
  { destruct Hp as (n' & Hn' & _ & _ & _ & D0 & _).
    rewrite Hn in Hn'. injection Hn' as <-. exact D0. }
  (* the popped node as it is at the end, given that only l, r and queued
     nodes change after the children are linked *)
  assert (Hfinal : forall st',
    (forall q, q <> l -> q <> r -> q ∉ Q' -> nodes st' !! q = nodes st2 !! q) ->
    node_is (nodes st')
      (fun n' => left_child n' = Some l /\ right_child n' = Some r /\
                 split_info n' = split_info n) p).
  { intros st' Hsame. eexists. split.
    - rewrite Hsame; [exact Hp2| | |exact HpQ']; unfold r, l; lia.
    - cbn. auto. }
  rewrite Erun. unfold split_next_tail.
  destruct (opt_eqb (max_depth st) (depth n + 1)) eqn:Emd.
  - (* maximal depth *)
    apply opt_eqb_true in Emd.
    destruct (_finalize_leaf_ok st2 l [r] HI2)
      as (st3 & E3 & [S1 S2 S3 S4 S5 S6 S7] & HF3 & HQ3 & _).
    destruct (_finalize_leaf_ok st3 r [] S1)
      as (st4 & E4 & [T1 T2 T3 T4 T5 T6 T7] & HF4 & HQ4 & _).
    exists st4, l, r. split.
    { rewrite (bind_ok _ _ _ st4 tt); [reflexivity|].
      rewrite (bind_ok _ _ _ _ _ E3). exact E4. }
    constructor; auto.
    + apply wf_intro; [exact T1|]. rewrite T3, S3, T4, S4. exact Hn2.
    + rewrite T2, S2. reflexivity.
    + rewrite T4, S4. exact Hlen2.
    + exists p, n. split; [exact Hhead|]. split; [exact Hn|]. split; [|split].
      * apply Hfinal. intros q H1 H2 _. rewrite T6, S6 by auto. reflexivity.
      * rewrite HQ4, HQ3. exact HpQ'.
      * left. exact Emd.
  - apply opt_eqb_false in Emd.
    destruct (opt_eqb (max_leaf_nodes st)
                (Z.of_nat (length (finalized_leaves st)) + Z.of_nat (length Q') + 2))
      eqn:Eml.
    + (* leaf budget *)
      apply opt_eqb_true in Eml.
      destruct (_finalize_leaf_ok st2 l [r] HI2)
        as (st3 & E3 & [S1 S2 S3 S4 S5 S6 S7] & HF3 & HQ3 & _).
      destruct (_finalize_leaf_ok st3 r [] S1)
        as (st4 & E4 & [T1 T2 T3 T4 T5 T6 T7] & HF4 & HQ4 & _).
      destruct (_finalize_splittable_nodes_ok st4 T1)
        as (st5 & E5 & [D1 D2 D3 D4 D5 D6 D7]).
      exists st5, l, r. split.
      { rewrite (bind_ok _ _ _ st5 tt); [reflexivity|].
        rewrite (bind_ok _ _ _ _ _ E3). rewrite (bind_ok _ _ _ _ _ E4). exact E5. }
      constructor; auto.
      * apply wf_intro; [exact D1|]. rewrite D3, T3, S3, D4, T4, S4. exact Hn2.
      * rewrite D2, T2, S2. reflexivity.
      * rewrite D4, T4, S4. exact Hlen2.
      * exists p, n. split; [exact Hhead|]. split; [exact Hn|]. split; [|split].
        -- apply Hfinal. intros q H1 H2 H3.
           rewrite D7 by (rewrite HQ4, HQ3; exact H3).
           rewrite T6, S6 by auto. reflexivity.
        -- rewrite D5. apply not_elem_of_nil.
        -- right. left. split; [exact Emd|]. split; [|split].
           ++ rewrite Eml. f_equal. rewrite HlenQ. lia.
           ++ exact D5.
           ++ rewrite D6, HF4, HQ4, HF3, HQ3, !length_app. cbn. lia.
    + (* the children are evaluated *)
      apply opt_eqb_false in Eml.
      assert (Hl2 : nodes st2 !! l = Some nl).
      { cbn. apply attach_nodes_left. exact Hplen. }
      assert (Hr2 : nodes st2 !! r = Some nr).
      { cbn. apply attach_nodes_right. exact Hplen. }
      destruct (_compute_spittability_ok st2 l [r] HI2)
        as (st3 & E3 & [S1 S2 S3 S4 S5 S6 S7] & Hlow3).
      { exists nl. split; [exact Hl2|]. split; [lia|].
        intros d Hd. rewrite Dl. apply Hdl; [exact Hd|].
        intros <-. apply Emd. exact Hd. }
      destruct (_compute_spittability_ok st3 r [] S1)
        as (st4 & E4 & [T1 T2 T3 T4 T5 T6 T7] & Hlow4).
      { exists nr. split; [rewrite S6 by (unfold r; lia); exact Hr2|].
        injection S2 as _ _ Hmd _ _ _ _. rewrite Hmd.
        split; [lia|].
        intros d Hd. rewrite Dr. apply Hdl; [exact Hd|].
        intros <-. apply Emd. exact Hd. }
      exists st4, l, r. split.
      { rewrite (bind_ok _ _ _ st4 tt); [reflexivity|].
        rewrite (bind_ok _ _ _ _ _ E3). exact E4. }
      constructor; auto.
      * apply wf_intro; [exact T1|]. rewrite T3, S3, T4, S4. exact Hn2.
      * rewrite T2, S2. reflexivity.
      * rewrite T4, S4. exact Hlen2.
      * exists p, n. split; [exact Hhead|]. split; [exact Hn|]. split; [|split].
        -- apply Hfinal. intros q H1 H2 _. rewrite T6, S6 by auto. reflexivity.
        -- apply T7. rewrite not_elem_of_cons. split; [unfold r, l; lia|].
           apply S7. rewrite not_elem_of_cons. split; [unfold l; lia|exact HpQ'].
        -- right. right. split; [exact Emd|]. split; [|split].
           ++ intros Hml. apply Eml. rewrite Hml. f_equal. rewrite HlenQ. lia.
           ++ rewrite T5, S5. cbn. rewrite HlenQ. lia.
           ++ intros Hlow. apply Hlow4, Hlow3.
              apply (low_leaves_frame st st2 []).
              ** reflexivity.
              ** cbn. rewrite app_nil_r. reflexivity.
              ** intros q Hq. cbn. apply attach_nodes_other.
                 --- intros ->. 
                     pose proof (inv_nodup _ _ _ _ _ _ _ _ _ I0) as Hnd.
                     apply NoDup_app in Hnd as (_ & Hd & _).
                     apply (Hd p).
                     +++ rewrite <- Hperm. left.
                     +++ apply elem_of_app. left. exact Hq.
                 --- eapply Forall_node_is_lt;
                       [apply (inv_leaves _ _ _ _ _ _ _ _ _ I0)|exact Hq].
              ** constructor.
              ** exact Hlow.
Qed.

(** ** The constructor *)

Lemma below_one_None (o : option Z) (d : Z) :
  below_one o = None -> o = Some d -> 1 <= d.
Proof.
  intros Hb ->. cbn in Hb. destruct (Z.ltb_spec d 1); [discriminate|lia].
Qed.

(** The state in which [__init__] calls [_intilialize_root]. *)
Definition configured_object (a : InitArgs) : State :=
  let fd := a_features_data a in
  with_finalized_leaves []
    (with_splittable_nodes []
       (with_shrinkage (a_shrinkage a)
          (with_min_gain_to_split (a_min_gain_to_split a)
             (with_features_data fd
                (with_max_depth (a_max_depth a)
                   (with_max_leaf_nodes (a_max_leaf_nodes a)
                      (with_splitter
                         (Some (new_HistogramSplitter (shape1 fd) fd (a_n_bins a)
                                  (a_all_gradients a) (a_all_hessians a)
                                  (a_l2_regularization a)
                                  (a_min_hessian_to_split a)))
                         (if negb (f_contiguous fd) then
                            with_warnings
                              ["Binned data should be passed as Fortran contiguousarray for maximum efficiency."%string]
                              fresh_object
                          else fresh_object)))))))).

Lemma TreeGrower_init_valid (a : InitArgs) :
  valid_args a ->
  TreeGrower a = (_intilialize_root ;;; modify (with_n_nodes 1)) (configured_object a).
Proof.
  intros (Hdt & Hml & Hmd).
  unfold TreeGrower, TreeGrower_init. rewrite Hdt, Hml, Hmd. cbn [dtype_eqb negb].
  unfold configured_object.
  destruct (f_contiguous (a_features_data a)); reflexivity.
Qed.

Lemma TreeGrower_Ok_valid (a : InitArgs) (st : State) :
  TreeGrower a = (st, Ok tt) -> valid_args a.
Proof.
  unfold TreeGrower, TreeGrower_init, valid_args.
  destruct (arr_dtype (a_features_data a)); cbn [dtype_eqb negb];
    try (unfold raise; discriminate).
  destruct (below_one (a_max_leaf_nodes a)); [unfold raise; discriminate|].
  destruct (below_one (a_max_depth a)); [unfold raise; discriminate|].
  auto.
Qed.

(** The root, as [_intilialize_root] creates it. *)
Definition root_node (a : InitArgs) (sp : HistogramSplitter) : TreeNode :=
  mkTreeNode _ 0 (seq 0 (shape0 (a_features_data a)))
             (ssum (all_gradients sp)) (ssum (all_hessians sp))
             None None None None.

Lemma Inv_root (sp : HistogramSplitter) (md : option Z) (mg sh : scalar)
      (n : TreeNode) :
  below_one md = None ->
  depth n = 0 -> weight n = None -> split_info n = None ->
  left_child n = None -> right_child n = None ->
  Inv sp md mg sh [n] [] [] [0%nat] 0%nat.
Proof.
  intros Hmd D W S L R. constructor.
  - constructor.
  - constructor.
  - apply Forall_singleton. exists n. split; [reflexivity|].
    split; [exact W|]. split; [split; assumption|]. split; [split|].
    + lia.
    + intros d Hd. pose proof (below_one_None md d Hmd Hd). lia.
    + intros d _ _. exact S.
  - cbn. apply NoDup_singleton.
  - intros r Hr. cbn in Hr. assert (r = 0%nat) as -> by lia.
    right. right. left. left.
  - intros _. apply is_heap_nil.
  - reflexivity.
  - exists (SLeaf 0%nat). split; [|reflexivity].
    apply (tree_leaf [n] 0%nat n); auto.
Qed.

(** The splitter that [__init__] constructs. *)
Definition splitter_of (a : InitArgs) : HistogramSplitter :=
  new_HistogramSplitter (shape1 (a_features_data a)) (a_features_data a)
    (a_n_bins a) (a_all_gradients a) (a_all_hessians a)
    (a_l2_regularization a) (a_min_hessian_to_split a).

(** The state in which [_intilialize_root] decides what to do with the root. *)
Definition rooted_object (a : InitArgs) : State :=
  with_root 0%nat (with_nodes [root_node a (splitter_of a)] (configured_object a)).

Lemma TreeGrower_root (a : InitArgs) :
  valid_args a ->
  TreeGrower a =
    ((if opt_eqb (a_max_leaf_nodes a) 1 then _finalize_leaf 0%nat
      else _compute_spittability 0%nat) ;;; modify (with_n_nodes 1)) (rooted_object a).
Proof.
  intros Hv. rewrite (TreeGrower_init_valid a Hv).
  unfold _intilialize_root, bind, gets, get_splitter, new_TreeNode, modify.
  unfold rooted_object, splitter_of, configured_object.
  destruct (f_contiguous (a_features_data a)); reflexivity.
Qed.

Lemma rooted_object_fields (a : InitArgs) :
  configured a (rooted_object a) /\
  nodes (rooted_object a) = [root_node a (splitter_of a)] /\
  splittable_nodes (rooted_object a) = [] /\
  finalized_leaves (rooted_object a) = [] /\
  find_node_split_calls (rooted_object a) = [] /\
  n_nodes (rooted_object a) = 0.
Proof.
  unfold rooted_object, configured_object, configured, splitter_of.
  destruct (f_contiguous (a_features_data a)); cbn; repeat split; reflexivity.
Qed.

(** A successful construction, and what the new grower looks like. *)
Lemma TreeGrower_ok (a : InitArgs) :
  valid_args a ->
  exists st,
    TreeGrower a = (st, Ok tt) /\ wf st /\ configured a st /\
    (length (splittable_nodes st) + length (finalized_leaves st) = 1)%nat /\
    (a_max_leaf_nodes a <> Some 1 -> low_leaves st) /\
    n_nodes st = 1.
Proof.
  intros Hv. rewrite (TreeGrower_root a Hv).
  destruct Hv as (Hdt & Hml & Hmd).
  destruct (rooted_object_fields a)
    as ((C1 & C2 & C3 & C4 & C5 & C6 & C7) & Hn1 & HQ1 & HF1 & _ & _).
  (* from here on only these fields of the state matter *)
  generalize dependent (rooted_object a). intros s1 C1 C2 C3 C4 C5 C6 C7 Hn1 HQ1 HF1.
  fold (splitter_of a) in C1.
  set (sp := splitter_of a) in *.
  assert (HI1 : SInv [0%nat] s1).
  { exists sp. split; [exact C1|]. rewrite Hn1, HQ1, HF1, C3, C7.
    apply Inv_root; auto. }
  assert (Hfin : forall st2, settled [] 0%nat s1 st2 ->
            wf (with_n_nodes 1 st2) /\ configured a (with_n_nodes 1 st2) /\
            (length (splittable_nodes (with_n_nodes 1 st2))
             + length (finalized_leaves (with_n_nodes 1 st2)) = 1)%nat).
  { intros st2 [S1 S2 S3 S4 S5 S6 S7]. split; [|split].
    - apply wf_intro.
      + destruct S1 as (sp' & Hsp' & I'). exists sp'. auto.
      + cbn. rewrite S4, Hn1. reflexivity.
    - injection S2 as E1 E2 E3 E4 E5 E6 E7.
      unfold configured. cbn. rewrite E1, E2, E3, E4, E5, E6, E7.
      repeat split; assumption.
    - cbn. rewrite S5, HQ1, HF1. reflexivity. }
  destruct (opt_eqb (a_max_leaf_nodes a) 1) eqn:Eml.
  - apply opt_eqb_true in Eml.
    destruct (_finalize_leaf_ok s1 0%nat [] HI1) as (st2 & E2 & Hset & _).
    exists (with_n_nodes 1 st2). split.
    { rewrite (bind_ok _ _ _ _ _ E2). reflexivity. }
    destruct (Hfin st2 Hset) as (W1 & W2 & W3).
    split; [exact W1|]. split; [exact W2|]. split; [exact W3|].
    split; [|reflexivity]. intros Hne. contradiction.
  - destruct (_compute_spittability_ok s1 0%nat [] HI1) as (st2 & E2 & Hset & Hlow).
    { exists (root_node a sp). split; [rewrite Hn1; reflexivity|].
      split; [cbn; lia|].
      intros d Hd. rewrite C3 in Hd. pose proof (below_one_None _ d Hmd Hd). cbn. lia. }
    exists (with_n_nodes 1 st2). split.
    { rewrite (bind_ok _ _ _ _ _ E2). reflexivity. }
    destruct (Hfin st2 Hset) as (W1 & W2 & W3).
    split; [exact W1|]. split; [exact W2|]. split; [exact W3|].
    split; [|reflexivity]. intros _. apply Hlow. unfold low_leaves. rewrite HF1. constructor.
Qed.

(** ** Reachable states *)

Lemma grown_valid (a : InitArgs) (k : nat) (st : State) :
  grown a k st -> valid_args a.
Proof.
  intros Hr. induction Hr as [st E|k st st' lr _ IH _]; [|exact IH].
  eapply TreeGrower_Ok_valid; eauto.
Qed.

Lemma configured_config (a : InitArgs) (st st' : State) :
  config st' = config st -> configured a st -> configured a st'.
Proof.
  intros E (C1 & C2 & C3 & C4 & C5 & C6 & C7).
  injection E as E1 E2 E3 E4 E5 E6 E7.
  unfold configured. rewrite E1, E2, E3, E4, E5, E6, E7.
  repeat split; assumption.
Qed.

(** A successful [split_next] on a well-formed grower is a [split_step]. *)
Lemma split_next_step (st st' : State) (lr : node_ref * node_ref) :
  wf st -> split_next st = (st', Ok lr) -> split_step st st' (fst lr) (snd lr).
Proof.
  intros Hwf E.
  destruct (decide (splittable_nodes st = [])) as [EQ|Hne].
  - unfold split_next, bind, gets, raise in E. rewrite EQ in E. discriminate.
  - destruct (split_next_ok st Hwf Hne) as (st1 & l & r & E1 & Hstep).
    rewrite E1 in E. injection E as <- <-. exact Hstep.
Qed.

Lemma split_step_n_nodes (st st' : State) (l r : node_ref) :
  wf st -> split_step st st' l r -> n_nodes st' = n_nodes st + 2.
Proof.
  intros (sp & _ & _ & Hn) Hstep.
  destruct (ss_wf _ _ _ _ Hstep) as (sp' & _ & _ & Hn').
  rewrite Hn', Hn, (ss_length _ _ _ _ Hstep). lia.
Qed.

Lemma grown_wf (a : InitArgs) (k : nat) (st : State) :
  grown a k st ->
  wf st /\ configured a st /\ n_nodes st = 1 + 2 * Z.of_nat k.
Proof.
  intros Hr. induction Hr as [st E|k st st' lr Hr (IHw & IHc & IHn) E].
  - destruct (TreeGrower_ok a (TreeGrower_Ok_valid a st E))
      as (st0 & E0 & W & C & _ & _ & N).
    rewrite E0 in E. injection E as <-. auto.
  - pose proof (split_next_step st st' lr IHw E) as Hstep.
    split; [apply (ss_wf _ _ _ _ Hstep)|]. split.
    + eapply configured_config; [apply (ss_config _ _ _ _ Hstep)|exact IHc].
    + rewrite (split_step_n_nodes _ _ _ _ IHw Hstep), IHn. lia.
Qed.

Lemma reachable_wf (a : InitArgs) (st : State) :
  reachable a st -> wf st /\ configured a st.
Proof.
  intros (k & Hk). destruct (grown_wf a k st Hk) as (W & C & _). auto.
Qed.

Lemma reachable_split (a : InitArgs) (st st' : State) (lr : node_ref * node_ref) :
  reachable a st -> split_next st = (st', Ok lr) -> reachable a st'.
Proof. intros (k & Hk) E. exists (S k). eapply grown_split; eauto. Qed.

Lemma grown_split_times (a : InitArgs) (k : nat) :
  forall j st st',
    grown a j st -> split_times k st = Some st' -> grown a (j + k) st'.
Proof.
  induction k as [|k IH]; intros j st st' Hg E; cbn [split_times] in E.
  - injection E as <-. rewrite Nat.add_0_r. exact Hg.
  - destruct (split_next st) as [s1 [lr|e|]] eqn:E1; try discriminate.
    replace (j + S k)%nat with (S j + k)%nat by lia.
    apply (IH (S j) s1 st'); [|exact E].
    eapply grown_split; eauto.
Qed.

Lemma reachable_split_times (a : InitArgs) (k : nat) (st0 st : State) :
  TreeGrower a = (st0, Ok tt) -> split_times k st0 = Some st -> reachable a st.
Proof.
  intros E0 Ek. exists (0 + k)%nat.
  eapply grown_split_times; [apply grown_init; exact E0|exact Ek].
Qed.

Lemma reachable_init (a : InitArgs) (st0 : State) :
  TreeGrower a = (st0, Ok tt) -> reachable a st0.
Proof. intros E0. exists 0%nat. apply grown_init. exact E0. Qed.

(** ** [grow] *)

Lemma grow_done (fuel : nat) (st : State) :
  splittable_nodes st = [] -> grow fuel st = (st, Ok tt).
Proof.
  intros EQ. destruct fuel; cbn [grow]; unfold can_split_further, bind, gets, ret;
    rewrite EQ; reflexivity.
Qed.

Lemma grow_step (fuel : nat) (st : State) :
  splittable_nodes st <> [] -> grow (S fuel) st = (split_next ;;; grow fuel) st.
Proof.
  intros Hne. cbn [grow]. unfold bind at 1. unfold can_split_further, bind, gets, ret.
  destruct (splittable_nodes st) as [|q Q]; [congruence|]. reflexivity.
Qed.

Lemma grow_out_of_fuel (st : State) :
  splittable_nodes st <> [] -> grow 0 st = (st, OutOfFuel).
Proof.
  intros Hne. cbn [grow]. unfold can_split_further, bind, gets, ret, out_of_fuel.
  destruct (splittable_nodes st) as [|q Q]; [congruence|]. reflexivity.
Qed.

(** On a constructed grower [grow] never raises: it returns with an empty
    queue, or the model runs out of fuel with splittable nodes left. *)
Lemma grow_reachable (a : InitArgs) (fuel : nat) :
  forall st st' o,
    reachable a st -> grow fuel st = (st', o) ->
    reachable a st' /\
    ((o = Ok tt /\ splittable_nodes st' = []) \/
     (o = OutOfFuel /\ splittable_nodes st' <> [])).
Proof.
  induction fuel as [|fuel IH]; intros st st' o Hr E.
  - destruct (decide (splittable_nodes st = [])) as [EQ|Hne].
    + rewrite (grow_done _ _ EQ) in E. injection E as <- <-. auto.
    + rewrite (grow_out_of_fuel _ Hne) in E. injection E as <- <-. auto.
  - destruct (decide (splittable_nodes st = [])) as [EQ|Hne].
    + rewrite (grow_done _ _ EQ) in E. injection E as <- <-. auto.
    + rewrite (grow_step _ _ Hne) in E.
      destruct (split_next_ok st (proj1 (reachable_wf a st Hr)) Hne)
        as (st1 & l & r & E1 & Hstep).
      rewrite (bind_ok _ _ _ _ _ E1) in E.
      apply (IH st1 st' o); [|exact E].
      eapply reachable_split; eauto.
Qed.

(** ** The state of every node of a well-formed grower *)

Lemma wf_classify (st : State) (r : node_ref) (n : TreeNode) :
  wf st -> nodes st !! r = Some n ->
  exists sp, splitter st = Some sp /\
    ((r ∈ splittable_nodes st /\ (r ∉ finalized_leaves st) /\
      queued_node (max_depth st) (min_gain_to_split st) n)
     \/ (r ∈ finalized_leaves st /\ (r ∉ splittable_nodes st) /\
         leaf_node sp (max_depth st) (shrinkage st) n)
     \/ ((r ∉ splittable_nodes st) /\ (r ∉ finalized_leaves st) /\
         internal_node (max_depth st) (length (nodes st)) r n)).
Proof.
  intros (sp & Hsp & I & _) Hn. exists sp. split; [exact Hsp|].
  pose proof (inv_nodup _ _ _ _ _ _ _ _ _ I) as Hnd.
  rewrite app_nil_r in Hnd. apply NoDup_app in Hnd as (_ & Hdisj & _).
  pose proof (inv_queued _ _ _ _ _ _ _ _ _ I) as HQ.
  pose proof (inv_leaves _ _ _ _ _ _ _ _ _ I) as HF.
  rewrite Forall_forall in HQ, HF.
  destruct (inv_class _ _ _ _ _ _ _ _ _ I r (lookup_lt_Some _ _ _ Hn))
    as [H1|[H1|[H1|H1]]].
  - left. destruct (HQ r H1) as (n' & Hn' & Pn). rewrite Hn in Hn'. injection Hn' as <-.
    split; [exact H1|]. split; [apply Hdisj; exact H1|exact Pn].
  - right. left. destruct (HF r H1) as (n' & Hn' & Pn).
    rewrite Hn in Hn'. injection Hn' as <-.
    split; [exact H1|]. split; [|exact Pn]. intros HqQ. exact (Hdisj r HqQ H1).
  - apply elem_of_nil in H1. contradiction.
  - right. right. destruct H1 as (n' & Hn' & Pn). rewrite Hn in Hn'. injection Hn' as <-.
    pose proof Pn as (W & S & (l & r' & L & R & _) & D).
    split; [|split].
    + intros HqQ. destruct (HQ r HqQ) as (m & Hm & _ & _ & (Lm & _) & _).
      rewrite Hn in Hm. injection Hm as <-. congruence.
    + intros HqF. destruct (HF r HqF) as (m & Hm & _ & (Lm & _) & _).
      rewrite Hn in Hm. injection Hm as <-. congruence.
    + exact Pn.
Qed.

(** * The laws of the grower *)

(** C7. Comparing two nodes with [<] raises [ValueError] as soon as one of
    them has no [split_info]; when both have one, the result is the
    boolean "the gain of the left node is greater than the gain of the
    right node". *)
Theorem TreeNode_lt_fails_fast (x y : TreeNode) :
  (split_info x = None \/ split_info y = None ->
   TreeNode_lt x y = Raise (ValueError "Cannot compare nodes with split_info")) /\
  (forall sx sy, split_info x = Some sx -> split_info y = Some sy ->
     TreeNode_lt x y = Ok (sltb (gain sy) (gain sx))).
Proof.
  split.
  - intros [Hx|Hy]; unfold TreeNode_lt.
    + rewrite Hx. reflexivity.
    + rewrite Hy. destruct (split_info x); reflexivity.
  - intros sx sy Hx Hy. unfold TreeNode_lt. rewrite Hx, Hy. reflexivity.
Qed.

(** C6. An invalid configuration makes the constructor raise before
    anything else happens: the object is left as it was, so no node
    exists and the evaluator has not been called.  The checks run in the
    order of the source: the dtype first ([NotImplementedError]), then
    [max_leaf_nodes] and then [max_depth] ([ValueError], with the value
    in the message). *)
Theorem invalid_configuration_fails_fast (a : InitArgs) :
  (arr_dtype (a_features_data a) <> uint8 ->
   TreeGrower a =
     (fresh_object,
      Raise (NotImplementedError "Explicit feature binning required for now"))) /\
  (forall m, arr_dtype (a_features_data a) = uint8 ->
     a_max_leaf_nodes a = Some m -> m < 1 ->
     TreeGrower a =
       (fresh_object,
        Raise (ValueError ("max_leaf_nodes=" ++ str_of_Z m
                           ++ " should not be smaller than 1")))) /\
  (forall d, arr_dtype (a_features_data a) = uint8 ->
     below_one (a_max_leaf_nodes a) = None ->
     a_max_depth a = Some d -> d < 1 ->
     TreeGrower a =
       (fresh_object,
        Raise (ValueError ("max_depth=" ++ str_of_Z d
                           ++ " should not be smaller than 1")))) /\
  (~ valid_args a ->
   exists e, TreeGrower a = (fresh_object, Raise e) /\
             nodes fresh_object = [] /\
             find_node_split_calls fresh_object = [] /\
             splittable_nodes fresh_object = [] /\
             finalized_leaves fresh_object = []).
Proof.
  unfold TreeGrower, TreeGrower_init.
  split; [|split; [|split]].
  - intros Hdt. destruct (arr_dtype (a_features_data a)); try reflexivity. congruence.
  - intros m Hdt Hml Hm. rewrite Hdt, Hml. cbn.
    destruct (Z.ltb_spec m 1); [reflexivity|lia].
  - intros d Hdt Hml Hmd Hd. rewrite Hdt, Hml, Hmd. cbn.
    destruct (Z.ltb_spec d 1); [reflexivity|lia].
  - intros Hinv.
    destruct (dtype_eqb (arr_dtype (a_features_data a)) uint8) eqn:Edt; cbn [negb].
    + destruct (below_one (a_max_leaf_nodes a)) eqn:Eml.
      { eexists. split; [reflexivity|]. repeat split; reflexivity. }
      destruct (below_one (a_max_depth a)) eqn:Emd.
      { eexists. split; [reflexivity|]. repeat split; reflexivity. }
      exfalso. apply Hinv. repeat split; auto.
      destruct (arr_dtype (a_features_data a)); try discriminate. reflexivity.
    + eexists. split; [reflexivity|]. repeat split; reflexivity.
Qed.

(** C3. With [max_leaf_nodes = 1] the constructor finalizes the root at
    once: the evaluator is never called, the root has no [split_info] and
    no children, the queue is empty, and [grow] returns without a split,
    so the tree is the root alone. *)
Theorem single_leaf_budget (a : InitArgs) :
  valid_args a -> a_max_leaf_nodes a = Some 1 ->
  exists st n,
    TreeGrower a = (st, Ok tt) /\
    find_node_split_calls st = [] /\
    nodes st = [n] /\ root st = 0%nat /\
    split_info n = None /\ left_child n = None /\ right_child n = None /\
    weight n =
      Some (leaf_weight (splitter_of a) (a_shrinkage a) (root_node a (splitter_of a))) /\
    splittable_nodes st = [] /\ finalized_leaves st = [0%nat] /\
    n_nodes st = 1 /\
    forall fuel, grow fuel st = (st, Ok tt).
Proof.
  intros Hv Hml. rewrite (TreeGrower_root a Hv), Hml. cbn [opt_eqb Z.eqb Pos.eqb].
  destruct (rooted_object_fields a)
    as ((C1 & C2 & C3 & C4 & C5 & C6 & C7) & Hn1 & HQ1 & HF1 & Hcalls & _).
  (* from here on only these fields of the state matter *)
  generalize dependent (rooted_object a). intros s1 C1 C2 C3 C4 C5 C6 C7 Hn1 HQ1 HF1 Hcalls.
  assert (Hroot : nodes s1 !! 0%nat = Some (root_node a (splitter_of a))).
  { rewrite Hn1. reflexivity. }
  set (st := with_n_nodes 1 (finalize_effect 0%nat (root_node a (splitter_of a))
                                             (splitter_of a) s1)).
  exists st.
  exists (set_weight (Some (leaf_weight (splitter_of a) (a_shrinkage a)
                                        (root_node a (splitter_of a))))
                     (root_node a (splitter_of a))).
  assert (HQ : splittable_nodes st = []) by exact HQ1.
  split.
  { rewrite (bind_ok _ _ _ _ _ (_finalize_leaf_run _ _ _ _ Hroot C1)). reflexivity. }
  split; [exact Hcalls|]. split.
  { unfold st, finalize_effect.
    cbn [nodes with_n_nodes with_nodes with_finalized_leaves].
    rewrite Hn1, C6. reflexivity. }
  split; [exact C7|]. do 4 (split; [reflexivity|]).
  split; [exact HQ|]. split.
  { unfold st, finalize_effect.
    cbn [finalized_leaves with_n_nodes with_nodes with_finalized_leaves].
    rewrite HF1. reflexivity. }
  split; [reflexivity|].
  intros fuel. apply grow_done. exact HQ.
Qed.

(** C9. [split_next] on an empty queue raises [StopIteration] with the
    message of the source and changes nothing; on a constructed grower it
    raises only then.  [grow] tests the queue before every call, so it
    never meets the exception: it returns normally, with an empty queue,
    unless the model runs out of fuel. *)
Theorem exhaustion_is_not_an_error (a : InitArgs) (st : State) :
  reachable a st ->
  (splittable_nodes st = [] ->
   split_next st = (st, Raise (StopIteration "No more splittable nodes"))) /\
  (forall st' e, split_next st = (st', Raise e) -> splittable_nodes st = []) /\
  (forall fuel, splittable_nodes st = [] -> grow fuel st = (st, Ok tt)) /\
  (forall fuel, splittable_nodes st <> [] ->
     grow (S fuel) st = (split_next ;;; grow fuel) st) /\
  (forall fuel st' o, grow fuel st = (st', o) ->
     (o = Ok tt /\ splittable_nodes st' = []) \/
     (o = OutOfFuel /\ splittable_nodes st' <> [])).
Proof.
  intros Hr. split; [|split; [|split; [|split]]].
  - intros EQ. unfold split_next, bind, gets, raise. rewrite EQ. reflexivity.
  - intros st' e E.
    destruct (decide (splittable_nodes st = [])) as [EQ|Hne]; [exact EQ|].
    destruct (split_next_ok st (proj1 (reachable_wf a st Hr)) Hne)
      as (st1 & l & r & E1 & _).
    rewrite E1 in E. discriminate.
  - intros fuel. apply grow_done.
  - intros fuel. apply grow_step.
  - intros fuel st' o E. eapply grow_reachable; eauto.
Qed.


(** C2. With [max_depth = d], in every state of the grower (after the
    constructor and after every [split_next], hence also when [grow]
    stops) every node has depth at most [d], and a node of depth [d] is a
    finalized leaf: it has a weight, no children, was never evaluated and
    so never entered the queue. *)
Theorem depth_law (a : InitArgs) (d : Z) (st : State) :
  a_max_depth a = Some d -> reachable a st ->
  (forall r n, nodes st !! r = Some n ->
     0 <= depth n <= d /\
     (depth n = d ->
      weight n <> None /\ left_child n = None /\ right_child n = None /\
      split_info n = None /\
      (r ∈ finalized_leaves st) /\ r ∉ splittable_nodes st)) /\
  (forall fuel st' o, grow fuel st = (st', o) ->
     forall r n, nodes st' !! r = Some n ->
       0 <= depth n <= d /\ (depth n = d -> r ∈ finalized_leaves st')).
Proof.
  intros Hd Hr.
  assert (Hall : forall st, reachable a st ->
            forall r n, nodes st !! r = Some n ->
              0 <= depth n <= d /\
              (depth n = d ->
               weight n <> None /\ left_child n = None /\ right_child n = None /\
               split_info n = None /\
               (r ∈ finalized_leaves st) /\ r ∉ splittable_nodes st)).
  { clear st Hr. intros st Hr r n Hn.
    destruct (reachable_wf a st Hr) as [Hwf (_ & _ & C3 & _)].
    rewrite Hd in C3.
    destruct (wf_classify st r n Hwf Hn) as (sp & Hsp & Hcase).
    destruct Hcase as [(HQ & HF & (_ & _ & _ & (D0 & D)))
                      |[(HF & HQ & (W & (L & R) & (D0 & D) & U))
                       |(HQ & HF & (_ & _ & _ & (D0 & D)))]].
    - specialize (D d C3). split; [lia|]. intros; lia.
    - specialize (D d C3). split; [lia|]. intros Hdep.
      rewrite W. repeat split; auto; try discriminate. apply (U d C3 Hdep).
    - specialize (D d C3). split; [lia|]. intros; lia. }
  split; [apply Hall; exact Hr|].
  intros fuel st' o E r n Hn.
  destruct (grow_reachable a fuel st st' o Hr E) as [Hr' _].
  destruct (Hall st' Hr' r n Hn) as [H1 H2]. split; [exact H1|].
  intros Hdep. apply H2. exact Hdep.
Qed.

(** C10. When [grow] returns, every node ever created is either a
    finalized leaf (a weight, no child) or an internal node (both
    children, no weight, an evaluated split): no node has exactly one
    child and none is left queued.  The leaves are listed once each, and
    [n_nodes], the number of nodes, is twice the number of leaves minus
    one. *)
Theorem full_binary_tree (a : InitArgs) (st0 st : State) (fuel : nat) :
  reachable a st0 -> grow fuel st0 = (st, Ok tt) ->
  splittable_nodes st = [] /\
  (forall r n, nodes st !! r = Some n ->
     (r ∈ finalized_leaves st /\ weight n <> None /\
      left_child n = None /\ right_child n = None)
     \/ ((r ∉ finalized_leaves st) /\ weight n = None /\ split_info n <> None /\
         exists l r', left_child n = Some l /\ right_child n = Some r' /\
                      is_Some (nodes st !! l) /\ is_Some (nodes st !! r'))) /\
  NoDup (finalized_leaves st) /\
  n_nodes st = Z.of_nat (length (nodes st)) /\
  n_nodes st = 2 * Z.of_nat (length (finalized_leaves st)) - 1.
Proof.
  intros Hr E.
  destruct (grow_reachable a fuel st0 st (Ok tt) Hr E) as [Hr' [[_ HQ]|[Ho _]]];
    [|discriminate].
  destruct (reachable_wf a st Hr') as [Hwf _].
  split; [exact HQ|]. split; [|split; [|split]].
  - intros r n Hn.
    destruct (wf_classify st r n Hwf Hn) as (sp & Hsp & Hcase).
    destruct Hcase as [(HrQ & _)|[(HF & _ & (W & (L & R) & _))
                                 |(_ & HF & (W & (si & S) & (l & r' & L & R & Hl & Hr2) & _))]].
    + rewrite HQ in HrQ. apply elem_of_nil in HrQ. contradiction.
    + left. rewrite W. split; [exact HF|]. split; [discriminate|]. auto.
    + right. split; [exact HF|]. split; [exact W|]. split; [congruence|].
      exists l, r'. repeat split; auto; apply lookup_lt_is_Some_2; lia.
  - destruct Hwf as (sp & _ & I & _).
    pose proof (inv_nodup _ _ _ _ _ _ _ _ _ I) as Hnd.
    rewrite HQ, app_nil_r in Hnd. exact Hnd.
  - destruct Hwf as (sp & _ & _ & Hn). exact Hn.
  - destruct Hwf as (sp & _ & I & Hn).
    pose proof (inv_count _ _ _ _ _ _ _ _ _ I) as Hc.
    rewrite HQ in Hc. cbn in Hc. rewrite Hn. lia.
Qed.


(** ** The leaf budget *)

(** Either the budget is not reached and every leaf so far was finalized
    for its low gain, or the budget has been reached and the queue
    drained. *)
Definition budget_inv (k : Z) (st : State) : Prop :=
  (Z.of_nat (length (splittable_nodes st) + length (finalized_leaves st)) < k /\
   low_leaves st)
  \/ (splittable_nodes st = [] /\ Z.of_nat (length (finalized_leaves st)) = k).

Lemma budget_step (k : Z) (st st' : State) (l r : node_ref) :
  wf st -> max_leaf_nodes st = Some k -> max_depth st = None ->
  splittable_nodes st <> [] -> budget_inv k st -> split_step st st' l r ->
  budget_inv k st' /\
  (Z.to_nat (k - Z.of_nat (length (splittable_nodes st') + length (finalized_leaves st')))
   < Z.to_nat (k - Z.of_nat (length (splittable_nodes st) + length (finalized_leaves st))))%nat.
Proof.
  intros Hwf Hml Hmd Hne Hb Hstep.
  destruct Hb as [[Hlt Hlow]|[HQ _]]; [|contradiction].
  destruct (ss_popped _ _ _ _ Hstep) as (p & n & _ & _ & _ & _ & Hbr).
  assert (Hpos : (0 < length (splittable_nodes st))%nat).
  { destruct (splittable_nodes st); [congruence|cbn; lia]. }
  destruct Hbr as [Hd|[(_ & Hml' & HQ' & HF')|(_ & Hml' & Hc & Hlow')]].
  - rewrite Hmd in Hd. discriminate.
  - rewrite Hml in Hml'. injection Hml' as Hk. split.
    + right. split; [exact HQ'|]. rewrite HF'. lia.
    + rewrite HQ', HF'. cbn. lia.
  - split.
    + left. split; [|apply Hlow'; exact Hlow].
      rewrite Hc. rewrite Hml in Hml'.
      assert (k <> Z.of_nat (length (finalized_leaves st))
                   + Z.of_nat (length (splittable_nodes st) - 1) + 2) by congruence.
      lia.
    + rewrite Hc. lia.
Qed.


(** More fuel does not change what [grow] returns. *)
Lemma grow_more_fuel (fuel : nat) :
  forall fuel' st st',
    grow fuel st = (st', Ok tt) -> (fuel <= fuel')%nat -> grow fuel' st = (st', Ok tt).
Proof.
  induction fuel as [|fuel IH]; intros fuel' st st' E Hle.
  - destruct (decide (splittable_nodes st = [])) as [HQ|Hne].
    + rewrite (grow_done 0 _ HQ) in E. rewrite (grow_done fuel' _ HQ). exact E.
    + rewrite (grow_out_of_fuel _ Hne) in E. discriminate.
  - destruct (decide (splittable_nodes st = [])) as [HQ|Hne].
    + rewrite (grow_done (S fuel) _ HQ) in E. rewrite (grow_done fuel' _ HQ). exact E.
    + destruct fuel' as [|fuel']; [lia|].
      rewrite (grow_step fuel _ Hne) in E. rewrite (grow_step fuel' _ Hne).
      unfold bind in E |- *.
      destruct (split_next st) as [s1 [lr|e|]]; try discriminate.
      apply IH; [exact E|lia].
Qed.



(** ** The predictor array *)

(** The record of a leaf and of an internal node; the fields that
    [_fill_predictor_node_array] does not assign keep the zero that
    [np.zeros] put there. *)
Definition leaf_record (w : scalar) : PredictorRecord :=
  mkPredictorRecord _ w true 0 0 0%nat 0%nat.

Definition node_record (si : SplitInfo) (l r : nat) : PredictorRecord :=
  mkPredictorRecord _ szero false (feature_idx si) (bin_idx si) l r.

(** [laid_out ns arr r s e]: the subtree of [r] fills the slots [s] up to
    [e] (excluded) of [arr] in preorder. *)
Inductive laid_out (ns : list TreeNode) (arr : list PredictorRecord)
  : node_ref -> nat -> nat -> Prop :=
| lo_leaf r n w s :
    ns !! r = Some n -> weight n = Some w ->
    arr !! s = Some (leaf_record w) ->
    laid_out ns arr r s (S s)
| lo_node r n si l r' s m e :
    ns !! r = Some n -> weight n = None -> split_info n = Some si ->
    left_child n = Some l -> right_child n = Some r' ->
    arr !! s = Some (node_record si (S s) m) ->
    laid_out ns arr l (S s) m ->
    laid_out ns arr r' m e ->
    laid_out ns arr r s e.

(** A node of a finished tree: a leaf with a weight, or an internal node
    with an evaluated split. *)
Definition finished_node (n : TreeNode) : Prop :=
  (weight n <> None /\ left_child n = None)
  \/ (weight n = None /\ split_info n <> None /\ left_child n <> None).

Lemma laid_out_lt ns arr r s e : laid_out ns arr r s e -> (s < e)%nat.
Proof. induction 1; lia. Qed.

Lemma laid_out_ext ns arr arr' r s e :
  laid_out ns arr r s e ->
  (forall i, (s <= i < e)%nat -> arr' !! i = arr !! i) ->
  laid_out ns arr' r s e.
Proof.
  intros Hl. induction Hl as [r n w s Hn W Hs|r n si l r' s m e Hn W HS L R Hs Hl IHl Hr IHr];
    intros Hext.
  - eapply lo_leaf; eauto. rewrite Hext by lia. exact Hs.
  - pose proof (laid_out_lt _ _ _ _ _ Hl). pose proof (laid_out_lt _ _ _ _ _ Hr).
    eapply lo_node; eauto.
    + rewrite Hext by lia. exact Hs.
    + apply IHl. intros i Hi. apply Hext. lia.
    + apply IHr. intros i Hi. apply Hext. lia.
Qed.

Lemma assign_run (arr : list PredictorRecord) (i : nat) (rec : PredictorRecord)
      (f : PredictorRecord -> PredictorRecord) :
  arr !! i = Some rec -> assign i f arr = (<[i := f rec]> arr, Ok tt).
Proof.
  intros Hi. unfold assign, bind, getitem, setitem. rewrite Hi.
  destruct (Nat.ltb_spec i (length arr)) as [_|Hge]; [reflexivity|].
  apply lookup_lt_Some in Hi. lia.
Qed.

Lemma _fill_predictor_node_array_ok (ns : list TreeNode) (r : node_ref) (t : shape) :
  tree_at ns r t ->
  (forall q, q ∈ ids t -> node_is ns finished_node q) ->
  forall fuel s arr,
    (length (ids t) <= fuel)%nat ->
    (s + length (ids t) <= length arr)%nat ->
    (forall i, (s <= i < s + length (ids t))%nat -> arr !! i = Some zero_record) ->
    exists arr',
      _fill_predictor_node_array fuel ns (Some r) s arr
      = (arr', Ok (s + length (ids t))%nat) /\
      length arr' = length arr /\
      (forall i, ~ (s <= i < s + length (ids t))%nat -> arr' !! i = arr !! i) /\
      laid_out ns arr' r s (s + length (ids t))%nat.
Proof.
  intros Ht. induction Ht as [r n Hn L R|r n l r' a b Hn L R Hta IHa Htb IHb];
    intros Hfin fuel s arr Hfuel Hlen Hzero.
  - (* a leaf *)
    cbn [ids length] in *. destruct fuel as [|fuel]; [lia|].
    destruct (Hfin r ltac:(left)) as (n' & Hn' & [[W _]|(_ & _ & L')]);
      rewrite Hn in Hn'; injection Hn' as <-; [|congruence].
    destruct (weight n) as [w|] eqn:Ew; [|congruence].
    assert (Hs : arr !! s = Some zero_record) by (apply Hzero; lia).
    exists (<[s := leaf_record w]> arr).
    split; [|split; [|split]].
    + cbn [_fill_predictor_node_array].
      rewrite (bind_ok _ _ arr arr zero_record)
        by (unfold getitem; rewrite Hs; reflexivity).
      rewrite (bind_ok _ _ arr arr n) by (rewrite Hn; reflexivity).
      rewrite Ew.
      rewrite (bind_ok _ _ _ _ _ (assign_run arr s zero_record _ Hs)).
      erewrite bind_ok.
      2:{ apply assign_run. apply list_lookup_insert_eq. lia. }
      rewrite list_insert_insert_eq. unfold ret.
      replace (s + 1)%nat with (S s) by lia. reflexivity.
    + apply length_insert.
    + intros i Hi. apply list_lookup_insert_ne. lia.
    + replace (s + 1)%nat with (S s) by lia.
      eapply lo_leaf; eauto. apply list_lookup_insert_eq. lia.
  - (* an internal node *)
    cbn [ids length] in *. rewrite length_app in *.
    destruct fuel as [|fuel]; [lia|].
    destruct (Hfin r ltac:(left)) as (n' & Hn' & [[_ L']|(W & HS & _)]);
      rewrite Hn in Hn'; injection Hn' as <-; [congruence|].
    destruct (split_info n) as [si|] eqn:Esi; [|congruence].
    assert (Hs : arr !! s = Some zero_record) by (apply Hzero; lia).
    set (rec3 := set_p_left (s + 1)%nat
                   (set_p_bin_threshold (bin_idx si)
                      (set_p_feature_idx (feature_idx si) zero_record))).
    set (arr3 := <[s := rec3]> arr).
    assert (Hlen3 : length arr3 = length arr) by apply length_insert.
    assert (H3 : forall i, i <> s -> arr3 !! i = arr !! i).
    { intros i Hi. apply list_lookup_insert_ne. lia. }
    assert (H3s : arr3 !! s = Some rec3).
    { apply list_lookup_insert_eq. lia. }
    destruct (IHa (fun q Hq => Hfin q ltac:(right; apply elem_of_app; left; exact Hq))
                fuel (s + 1)%nat arr3) as (arr4 & E4 & Hlen4 & H4 & Hlo4).
    { lia. }
    { rewrite Hlen3. lia. }
    { intros i Hi. rewrite H3 by lia. apply Hzero. lia. }
    set (m := (s + 1 + length (ids a))%nat) in *.
    set (arr5 := <[s := node_record si (s + 1)%nat m]> arr4).
    assert (H4s : arr4 !! s = Some rec3).
    { rewrite H4 by lia. exact H3s. }
    assert (Hlen5 : length arr5 = length arr) by (unfold arr5; rewrite length_insert; lia).
    assert (H5 : forall i, i <> s -> arr5 !! i = arr4 !! i).
    { intros i Hi. apply list_lookup_insert_ne. lia. }
    destruct (IHb (fun q Hq => Hfin q ltac:(right; apply elem_of_app; right; exact Hq))
                fuel m arr5) as (arr6 & E6 & Hlen6 & H6 & Hlo6).
    { lia. }
    { rewrite Hlen5. unfold m. lia. }
    { intros i Hi. unfold m in Hi. rewrite H5 by lia. rewrite H4 by lia.
      rewrite H3 by lia. apply Hzero. lia. }
    replace (s + S (length (ids a) + length (ids b)))%nat
      with (m + length (ids b))%nat by (unfold m; lia).
    exists arr6. split; [|split; [|split]].
    + cbn [_fill_predictor_node_array].
      rewrite (bind_ok _ _ arr arr zero_record)
        by (unfold getitem; rewrite Hs; reflexivity).
      rewrite (bind_ok _ _ arr arr n) by (rewrite Hn; reflexivity).
      rewrite W, Esi.
      rewrite (bind_ok _ _ arr arr si) by reflexivity.
      rewrite (bind_ok _ _ _ _ _ (assign_run arr s zero_record _ Hs)).
      erewrite bind_ok.
      2:{ apply assign_run. apply list_lookup_insert_eq. lia. }
      rewrite list_insert_insert_eq.
      erewrite bind_ok.
      2:{ apply assign_run. apply list_lookup_insert_eq. lia. }
      rewrite list_insert_insert_eq.
      rewrite L. fold rec3. fold arr3.
      rewrite (bind_ok _ _ _ _ _ E4).
      rewrite (bind_ok _ _ _ _ _ (assign_run arr4 s rec3 _ H4s)).
      rewrite R. exact E6.
    + rewrite Hlen6. exact Hlen5.
    + intros i Hi. unfold m in *.
      rewrite H6 by lia. rewrite H5 by lia. rewrite H4 by lia. apply H3. lia.
    + pose proof (laid_out_lt _ _ _ _ _ Hlo4).
      eapply (lo_node ns arr6 r n si l r' s m); eauto.
      * rewrite H6 by (unfold m; lia). replace (S s) with (s + 1)%nat by lia.
        apply list_lookup_insert_eq. lia.
      * replace (S s) with (s + 1)%nat by lia.
        eapply laid_out_ext; [exact Hlo4|].
        intros i Hi. rewrite H6 by (unfold m in *; lia). apply H5. lia.
Qed.

(** C8. On a finished tree [make_predictor] fills the array in preorder:
    the root is in slot 0; the record of an internal node holds the
    [feature_idx] and [bin_idx] of its split, [left] is its own slot plus
    one and [right] the slot that the walk of the left subtree returned;
    the record of a leaf holds its weight with [is_leaf] set.  The walk
    fills all [n_nodes] slots, and [n_nodes] is one for the root plus two
    for each split. *)
Theorem predictor_preorder (a : InitArgs) (st0 st : State) (fuel0 : nat) :
  reachable a st0 -> grow fuel0 st0 = (st, Ok tt) ->
  (exists k, grown a k st /\ n_nodes st = 1 + 2 * Z.of_nat k) /\
  forall fuel, (length (nodes st) <= fuel)%nat ->
    exists arr,
      make_predictor fuel st = (st, Ok arr) /\
      Z.of_nat (length arr) = n_nodes st /\
      laid_out (nodes st) arr (root st) 0%nat (length arr).
Proof.
  intros Hr E.
  destruct (grow_reachable a fuel0 st0 st (Ok tt) Hr E) as [Hr' [[_ HQ]|[Ho _]]];
    [|discriminate].
  split.
  { destruct Hr' as (k & Hk). exists k. split; [exact Hk|].
    apply (grown_wf a k st Hk). }
  intros fuel Hfuel.
  destruct (reachable_wf a st Hr') as [Hwf _].
  pose proof Hwf as (sp & Hsp & I & Hn).
  destruct (inv_tree _ _ _ _ _ _ _ _ _ I) as (t & Ht & Hperm).
  assert (Hsize : length (ids t) = length (nodes st)).
  { rewrite Hperm. apply length_seq. }
  assert (Hfin : forall q, q ∈ ids t -> node_is (nodes st) finished_node q).
  { intros q Hq. rewrite Hperm in Hq. apply elem_of_seq in Hq.
    destruct (lookup_lt_is_Some_2 (nodes st) q ltac:(lia)) as [n Hqn].
    exists n. split; [exact Hqn|].
    destruct (wf_classify st q n Hwf Hqn) as (sp' & _ & Hcase).
    destruct Hcase as [(HqQ & _)|[(_ & _ & (W & (L & _) & _))
                                 |(_ & _ & (W & (si & HS) & (l & r' & L & _) & _))]].
    - rewrite HQ in HqQ. apply elem_of_nil in HqQ. contradiction.
    - left. rewrite W. split; [discriminate|exact L].
    - right. rewrite HS, L. repeat split; auto; discriminate. }
  destruct (_fill_predictor_node_array_ok (nodes st) (root st) t Ht Hfin fuel 0%nat
              (replicate (Z.to_nat (n_nodes st)) zero_record))
    as (arr & Efill & Hlen & _ & Hlo).
  - lia.
  - rewrite length_replicate, Hn, Hsize. lia.
  - intros i Hi. apply lookup_replicate_2. rewrite Hn. lia.
  - rewrite length_replicate in Hlen.
    exists arr. split; [|split].
    + unfold make_predictor. rewrite Efill. reflexivity.
    + rewrite Hlen, Hn. lia.
    + cbn in Hlo. rewrite Hsize in Hlo. rewrite Hlen, Hn, Nat2Z.id. exact Hlo.
Qed.
(** * More laws of the grower *)

(** ** What one call does, exactly *)

(** The two children that [split_next] creates below the node [n] whose
    split is [si]. *)
Definition left_node (sp : HistogramSplitter) (n : TreeNode) (si : SplitInfo)
  : TreeNode :=
  mkTreeNode _ (depth n + 1) (fst (split_indices sp (sample_indices n) si))
             (gradient_left si) (hessian_left si) None None None None.

Definition right_node (sp : HistogramSplitter) (n : TreeNode) (si : SplitInfo)
  : TreeNode :=
  mkTreeNode _ (depth n + 1) (snd (split_indices sp (sample_indices n) si))
             (gradient_right si) (hessian_right si) None None None None.

(** A node after [_finalize_leaf], after the evaluation of its split, and
    after [_compute_spittability]. *)
Definition finalized_node (sp : HistogramSplitter) (sh : scalar) (n : TreeNode)
  : TreeNode :=
  set_weight (Some (leaf_weight sp sh n)) n.

Definition evaluated_node (sp : HistogramSplitter) (n : TreeNode) : TreeNode :=
  set_split_info (Some (find_node_split sp (sample_indices n))) n.

Definition low_gain (sp : HistogramSplitter) (mg : scalar) (n : TreeNode) : bool :=
  sltb (gain (find_node_split sp (sample_indices n))) mg.

Definition classified_node (sp : HistogramSplitter) (mg sh : scalar) (n : TreeNode)
  : TreeNode :=
  if low_gain sp mg n then finalized_node sp sh (evaluated_node sp n)
  else evaluated_node sp n.

(** [_compute_spittability] on a pending node above the maximal depth:
    the state it returns. *)
Lemma _compute_spittability_effect (st : State) (r : node_ref) (pend : list node_ref) :
  SInv (r :: pend) st ->
  node_is (nodes st) (depth_lt (max_depth st)) r ->
  exists n sp st',
    nodes st !! r = Some n /\ splitter st = Some sp /\
    _compute_spittability r st = (st', Ok tt) /\
    SInv pend st' /\
    config st' = config st /\ n_nodes st' = n_nodes st /\
    warnings st' = warnings st /\
    nodes st' =
      <[r := classified_node sp (min_gain_to_split st) (shrinkage st) n]> (nodes st) /\
    find_node_split_calls st' = find_node_split_calls st ++ [sample_indices n] /\
    finalized_leaves st' =
      finalized_leaves st
      ++ (if low_gain sp (min_gain_to_split st) n then [r] else []) /\
    splittable_nodes st' ≡ₚ
      (if low_gain sp (min_gain_to_split st) n then [] else [r])
      ++ splittable_nodes st.
Proof.
  intros HI (n0 & Hn0 & Hd).
  destruct (SInv_pending_lookup _ _ _ HI) as (n & sp & Hn & Hsp & Pn).
  rewrite Hn in Hn0. injection Hn0 as <-.
  pose proof (lookup_lt_Some _ _ _ Hn) as Hlen.
  exists n, sp.
  set (si := find_node_split sp (sample_indices n)).
  set (st1 := evaluate_effect r n sp st).
  assert (E1 : _compute_spittability r st =
             (if sltb (gain si) (min_gain_to_split st) then _finalize_leaf r
              else push_splittable r) st1).
  { unfold _compute_spittability, call_find_node_split.
    unfold bind, get_node, get_splitter, modify, ret, update_node, gets.
    rewrite Hn, Hsp. cbn. rewrite Hn. reflexivity. }
  rewrite E1. clear E1.
  assert (Hn1 : nodes st1 !! r = Some (set_split_info (Some si) n)).
  { cbn. apply list_lookup_insert_eq. exact Hlen. }
  assert (HI1 : SInv (r :: pend) st1).
  { destruct HI as (sp' & Hsp' & I). exists sp'. split; [exact Hsp'|]. cbn.
    apply Inv_evaluate; assumption. }
  unfold classified_node, low_gain. fold si.
  destruct (sltb (gain si) (min_gain_to_split st)) eqn:Hg.
  - exists (finalize_effect r (set_split_info (Some si) n) sp st1).
    split; [exact Hn|]. split; [exact Hsp|].
    split; [apply _finalize_leaf_run; [exact Hn1|exact Hsp]|].
    split; [apply SInv_finalize; [exact HI1|exact Hn1|exact Hsp]|].
    do 3 (split; [reflexivity|]).
    split; [cbn; apply list_insert_insert_eq|].
    split; [reflexivity|]. split; [reflexivity|]. reflexivity.
  - destruct Pn as (W & C & D & U).
    destruct (push_splittable_run st1 r pend HI1) as (Q' & E & Hperm & HI').
    { exists (set_split_info (Some si) n). split; [exact Hn1|].
      split; [exists si; split; [reflexivity|exact Hg]|].
      split; [exact W|]. split; [exact C|exact Hd]. }
    exists (with_splittable_nodes Q' st1).
    split; [exact Hn|]. split; [exact Hsp|]. split; [exact E|].
    split; [exact HI'|].
    do 3 (split; [reflexivity|]).
    split; [reflexivity|]. split; [reflexivity|].
    split; [cbn; rewrite app_nil_r; reflexivity|]. exact Hperm.
Qed.

(** [_finalize_splittable_nodes]: the queue is emptied from its end, every
    node gets its weight and none is evaluated. *)
Lemma _finalize_splittable_nodes_loop_effect (sp : HistogramSplitter) (Q : list node_ref) :
  forall fuel st,
    splitter st = Some sp -> splittable_nodes st = Q ->
    Forall (fun q => is_Some (nodes st !! q)) Q ->
    (length Q <= fuel)%nat ->
    exists st',
      _finalize_splittable_nodes_loop fuel st = (st', Ok tt) /\
      config st' = config st /\ n_nodes st' = n_nodes st /\
      warnings st' = warnings st /\
      find_node_split_calls st' = find_node_split_calls st /\
      splittable_nodes st' = [] /\
      finalized_leaves st' = finalized_leaves st ++ reverse Q /\
      length (nodes st') = length (nodes st) /\
      (forall q, q ∉ Q -> nodes st' !! q = nodes st !! q) /\
      (forall q n, q ∈ Q -> nodes st !! q = Some n ->
         nodes st' !! q = Some (finalized_node sp (shrinkage st) n)).
Proof.
  induction Q as [|r Q0 IH] using rev_ind; intros fuel st Hsp HQ Hval Hfuel.
  - exists st. split.
    { destruct fuel; cbn [_finalize_splittable_nodes_loop];
        unfold bind, gets; rewrite HQ; reflexivity. }
    do 4 (split; [reflexivity|]). split; [exact HQ|].
    split; [cbn; rewrite app_nil_r; reflexivity|]. split; [reflexivity|].
    split; [reflexivity|]. intros q n Hq. apply elem_of_nil in Hq. contradiction.
  - rewrite length_app in Hfuel. cbn in Hfuel.
    destruct fuel as [|fuel]; [lia|].
    apply Forall_app in Hval as [Hval0 Hr]. apply Forall_singleton in Hr as [n Hn].
    set (st1 := with_splittable_nodes Q0 st).
    assert (Epop : zoom splittable_nodes with_splittable_nodes pop st = (st1, Ok r)).
    { unfold zoom, pop. rewrite HQ, last_snoc, removelast_last. reflexivity. }
    set (st2 := finalize_effect r n sp st1).
    assert (E2 : _finalize_leaf r st1 = (st2, Ok tt)).
    { apply _finalize_leaf_run; [exact Hn|exact Hsp]. }
    pose proof (lookup_lt_Some _ _ _ Hn) as Hlen.
    destruct (IH fuel st2) as (st' & E' & D1 & D2 & D3 & D4 & D5 & D6 & D7 & D8 & D9).
    { exact Hsp. }
    { reflexivity. }
    { eapply Forall_impl; [exact Hval0|]. intros q Hq. cbn.
      apply lookup_lt_is_Some. rewrite length_insert.
      apply lookup_lt_is_Some. exact Hq. }
    { lia. }
    exists st'. split.
    { cbn [_finalize_splittable_nodes_loop].
      rewrite (bind_ok _ _ st st (splittable_nodes st)) by reflexivity.
      assert (Htest : (0 <? length (splittable_nodes st))%nat = true).
      { apply Nat.ltb_lt. rewrite HQ, length_app. cbn. lia. }
      rewrite Htest.
      rewrite (bind_ok _ _ _ _ _ Epop).
      rewrite (bind_ok _ _ _ _ _ E2). exact E'. }
    split; [rewrite D1; reflexivity|]. split; [rewrite D2; reflexivity|].
    split; [rewrite D3; reflexivity|]. split; [rewrite D4; reflexivity|].
    split; [exact D5|].
    split; [rewrite D6, reverse_snoc; cbn; rewrite <- app_assoc; reflexivity|].
    split; [rewrite D7; cbn; apply length_insert|].
    assert (Hfin : forall m, finalized_node sp (shrinkage st) (finalized_node sp (shrinkage st) m)
                             = finalized_node sp (shrinkage st) m) by reflexivity.
    split.
    + intros q Hq. rewrite not_elem_of_app, not_elem_of_cons in Hq.
      destruct Hq as [Hq0 [Hqr _]].
      rewrite D8 by exact Hq0. cbn. apply list_lookup_insert_ne. auto.
    + intros q m Hq Hm.
      destruct (decide (q ∈ Q0)) as [Hin|Hnin].
      * destruct (decide (q = r)) as [->|Hne].
        -- rewrite Hn in Hm. injection Hm as <-.
           rewrite (D9 r (finalized_node sp (shrinkage st) n) Hin).
           ++ cbn. rewrite Hfin. reflexivity.
           ++ cbn. apply list_lookup_insert_eq. exact Hlen.
        -- apply (D9 q m Hin). cbn. rewrite list_lookup_insert_ne by auto. exact Hm.
      * apply elem_of_app in Hq as [Hq|Hq]; [contradiction|].
        apply list_elem_of_singleton in Hq as ->.
        rewrite Hn in Hm. injection Hm as <-.
        rewrite D8 by exact Hnin. cbn. apply list_lookup_insert_eq. exact Hlen.
Qed.

Lemma _finalize_splittable_nodes_effect (sp : HistogramSplitter) (st : State) :
  splitter st = Some sp ->
  Forall (fun q => is_Some (nodes st !! q)) (splittable_nodes st) ->
  exists st',
    _finalize_splittable_nodes st = (st', Ok tt) /\
    config st' = config st /\ n_nodes st' = n_nodes st /\
    warnings st' = warnings st /\
    find_node_split_calls st' = find_node_split_calls st /\
    splittable_nodes st' = [] /\
    finalized_leaves st' = finalized_leaves st ++ reverse (splittable_nodes st) /\
    length (nodes st') = length (nodes st) /\
    (forall q, q ∉ splittable_nodes st -> nodes st' !! q = nodes st !! q) /\
    (forall q n, q ∈ splittable_nodes st -> nodes st !! q = Some n ->
       nodes st' !! q = Some (finalized_node sp (shrinkage st) n)).
Proof.
  intros Hsp Hval. unfold _finalize_splittable_nodes.
  rewrite (bind_ok _ _ st st (splittable_nodes st)) by reflexivity.
  apply (_finalize_splittable_nodes_loop_effect sp (splittable_nodes st)); auto.
Qed.

(** [split_next] up to the point where the children are linked, with the
    children as they are created. *)
Lemma split_next_children (st : State) :
  SInv [] st -> splittable_nodes st <> [] ->
  exists p Q' n si sp,
    splittable_nodes st !! 0%nat = Some p /\
    p :: Q' ≡ₚ splittable_nodes st /\
    nodes st !! p = Some n /\ split_info n = Some si /\
    splitter st = Some sp /\
    node_is (nodes st) (queued_node (max_depth st) (min_gain_to_split st)) p /\
    let st2 :=
      attach_effect p n (left_node sp n si) (right_node sp n si)
                    (with_splittable_nodes Q' st) in
    SInv [length (nodes st); S (length (nodes st))] st2 /\
    split_next st =
      split_next_tail (max_depth st) (max_leaf_nodes st) (depth n + 1)
        (Z.of_nat (length (finalized_leaves st)) + Z.of_nat (length Q') + 2)
        (length (nodes st)) (S (length (nodes st))) st2.
Proof.
  intros HI Hne.
  destruct (pop_splittable_run st HI Hne) as (p & Q' & Epop & Hhead & Hperm & HI1 & Hp).
  pose proof Hp as (n & Hn & (si & Hsi & Hg) & W & C & D).
  destruct HI1 as (sp & Hsp & I1). cbn in Hsp, I1.
  pose proof (lookup_lt_Some _ _ _ Hn) as Hlen.
  exists p, Q', n, si, sp.
  do 6 (split; [assumption|]).
  split.
  - exists sp. split; [exact Hsp|]. cbn.
    apply (Inv_attach sp (max_depth st) (min_gain_to_split st) (shrinkage st)
             (nodes st) Q' (finalized_leaves st) (root st) p n
             (fst (split_indices sp (sample_indices n) si))
             (snd (split_indices sp (sample_indices n) si))); assumption.
  - unfold split_next, left_node, right_node.
    destruct (split_indices sp (sample_indices n) si) as [il ir] eqn:Esplit.
    rewrite (bind_ok _ _ st st (splittable_nodes st)) by reflexivity.
    destruct (Nat.eqb_spec (length (splittable_nodes st)) 0) as [E0|_].
    { destruct (splittable_nodes st); [congruence|discriminate]. }
    rewrite (bind_ok _ _ _ _ _ Epop).
    unfold bind at 1. unfold get_node at 1. cbn [nodes with_splittable_nodes].
    rewrite Hn.
    unfold bind at 1. unfold get_splitter at 1. cbn [splitter with_splittable_nodes].
    rewrite Hsp. rewrite Hsi.
    unfold bind at 1. unfold ret at 1. rewrite Esplit.
    unfold bind at 1. unfold gets at 1.
    unfold bind at 1. unfold gets at 1.
    unfold bind at 1. unfold new_TreeNode at 1.
    unfold bind at 1. unfold update_node at 1.
    cbn [nodes with_nodes with_splittable_nodes].
    rewrite (lookup_app_l_Some _ _ _ _ Hn).
    unfold bind at 1. unfold new_TreeNode at 1.
    unfold bind at 1. unfold update_node at 1.
    cbn [nodes with_nodes with_splittable_nodes].
    rewrite lookup_app_l by (rewrite length_insert, length_app; cbn; lia).
    rewrite list_lookup_insert_eq by (rewrite length_app; cbn; lia).
    unfold bind at 1. unfold modify at 1.
    unfold bind at 1. unfold gets at 1.
    unfold bind at 1. unfold gets at 1.
    rewrite length_insert, length_app. cbn [length].
    replace (length (nodes st) + 1)%nat with (S (length (nodes st))) by lia.
    reflexivity.
Qed.

(** The three ways a split ends, with the state each of them leaves. *)
Definition split_case (st st' : State) (l r p : node_ref) (n : TreeNode)
    (si : SplitInfo) (sp : HistogramSplitter) (Q' : list node_ref) : Prop :=
  let nl := left_node sp n si in
  let nr := right_node sp n si in
  let mg := min_gain_to_split st in
  let sh := shrinkage st in
  let budget :=
    Z.of_nat (length (finalized_leaves st)) + Z.of_nat (length Q') + 2 in
  let untouched (T : list node_ref) :=
    forall q, (q < length (nodes st))%nat -> q <> p -> q ∉ T ->
              nodes st' !! q = nodes st !! q in
  (* at the maximal depth *)
  (max_depth st = Some (depth n + 1) /\
   nodes st' !! l = Some (finalized_node sp sh nl) /\
   nodes st' !! r = Some (finalized_node sp sh nr) /\
   finalized_leaves st' = finalized_leaves st ++ [l; r] /\
   splittable_nodes st' = Q' /\
   find_node_split_calls st' = find_node_split_calls st /\
   untouched [])
  \/ (* on the leaf budget *)
  (max_depth st <> Some (depth n + 1) /\ max_leaf_nodes st = Some budget /\
   nodes st' !! l = Some (finalized_node sp sh nl) /\
   nodes st' !! r = Some (finalized_node sp sh nr) /\
   finalized_leaves st' = finalized_leaves st ++ [l; r] ++ reverse Q' /\
   splittable_nodes st' = [] /\
   find_node_split_calls st' = find_node_split_calls st /\
   (forall q m, q ∈ Q' -> nodes st !! q = Some m ->
      nodes st' !! q = Some (finalized_node sp sh m)) /\
   untouched Q')
  \/ (* the children are evaluated *)
  (max_depth st <> Some (depth n + 1) /\ max_leaf_nodes st <> Some budget /\
   nodes st' !! l = Some (classified_node sp mg sh nl) /\
   nodes st' !! r = Some (classified_node sp mg sh nr) /\
   finalized_leaves st' =
     finalized_leaves st ++ (if low_gain sp mg nl then [l] else [])
                         ++ (if low_gain sp mg nr then [r] else []) /\
   splittable_nodes st' ≡ₚ
     (if low_gain sp mg nr then [] else [r])
     ++ (if low_gain sp mg nl then [] else [l]) ++ Q' /\
   find_node_split_calls st' =
     find_node_split_calls st ++ [sample_indices nl; sample_indices nr] /\
   untouched []).

(** One successful call of [split_next]: the node [p] at the head of the
    queue, with the split [si], gets the children [l] and [r]. *)
Record split_effect (st st' : State) (l r p : node_ref) (n : TreeNode)
    (si : SplitInfo) (sp : HistogramSplitter) (Q' : list node_ref) : Prop :=
  mkSplitEffect {
  se_head : splittable_nodes st !! 0%nat = Some p;
  se_rest : p :: Q' ≡ₚ splittable_nodes st;
  se_node : nodes st !! p = Some n;
  se_split : split_info n = Some si;
  se_queued : queued_node (max_depth st) (min_gain_to_split st) n;
  se_splitter : splitter st = Some sp;
  se_left : l = length (nodes st);
  se_right : r = S (length (nodes st));
  se_config : config st' = config st;
  se_warnings : warnings st' = warnings st;
  se_n_nodes : n_nodes st' = n_nodes st + 2;
  se_length : length (nodes st') = S (S (length (nodes st)));
  se_parent :
    nodes st' !! p = Some (set_right_child (Some r) (set_left_child (Some l) n));
  se_case : split_case st st' l r p n si sp Q'
}.

Lemma split_next_effect (st st' : State) (l r : node_ref) :
  wf st -> split_next st = (st', Ok (l, r)) ->
  exists p n si sp Q', split_effect st st' l r p n si sp Q'.
Proof.
  intros Hwf E.
  assert (Hne : splittable_nodes st <> []).
  { intros EQ. unfold split_next, bind, gets, raise in E. rewrite EQ in E. discriminate. }
  pose proof (wf_SInv st Hwf) as HI.
  destruct Hwf as (sp0 & Hsp0 & I0 & Hcount).
  destruct (split_next_children st HI Hne)
    as (p & Q' & n & si & sp & Hhead & Hperm & Hn & Hsi & Hsp & Hp & HI2 & Erun).
  cbv zeta in HI2, Erun.
  set (nl := left_node sp n si) in *. set (nr := right_node sp n si) in *.
  set (st2 := attach_effect p n nl nr (with_splittable_nodes Q' st)) in *.
  set (l0 := length (nodes st)) in *. set (r0 := S l0) in *.
  pose proof (lookup_lt_Some _ _ _ Hn) as Hplen.
  assert (HpQ' : p ∉ Q').
  { pose proof (inv_nodup _ _ _ _ _ _ _ _ _ I0) as Hnd.
    apply NoDup_app in Hnd as (Hnd & _ & _). rewrite <- Hperm in Hnd.
    apply NoDup_cons in Hnd as [Hnd _]. exact Hnd. }
  assert (HQ'len : forall q, q ∈ Q' -> (q < l0)%nat).
  { intros q Hq. eapply Forall_node_is_lt; [apply (inv_queued _ _ _ _ _ _ _ _ _ I0)|].
    rewrite <- Hperm. right. exact Hq. }
  assert (Hp2 : nodes st2 !! p =
                Some (set_right_child (Some r0) (set_left_child (Some l0) n))).
  { cbn. apply attach_nodes_parent. exact Hplen. }
  assert (Hlen2 : length (nodes st2) = S (S (length (nodes st)))).
  { cbn. apply attach_nodes_length. }
  assert (Hl2 : nodes st2 !! l0 = Some nl).
  { cbn. apply attach_nodes_left. exact Hplen. }
  assert (Hr2 : nodes st2 !! r0 = Some nr).
  { cbn. apply attach_nodes_right. exact Hplen. }
  assert (Hold2 : forall q, (q < l0)%nat -> q <> p -> nodes st2 !! q = nodes st !! q).
  { intros q Hq Hqp. cbn. apply attach_nodes_other; assumption. }
  assert (Hqn : queued_node (max_depth st) (min_gain_to_split st) n).
  { destruct Hp as (n' & Hn' & Pn). rewrite Hn in Hn'. injection Hn' as <-. exact Pn. }
  assert (Hsp2 : splitter st2 = Some sp) by exact Hsp.
  (* the two leaves, finalized one after the other *)
  set (st3 := finalize_effect l0 nl sp st2).
  set (st4 := finalize_effect r0 nr sp st3).
  assert (E3 : _finalize_leaf l0 st2 = (st3, Ok tt)).
  { apply _finalize_leaf_run; [exact Hl2|exact Hsp2]. }
  assert (Hr3 : nodes st3 !! r0 = Some nr).
  { cbn [st3 finalize_effect nodes with_nodes with_finalized_leaves].
    rewrite list_lookup_insert_ne by (unfold r0; lia). exact Hr2. }
  assert (E4 : _finalize_leaf r0 st3 = (st4, Ok tt)).
  { apply _finalize_leaf_run; [exact Hr3|exact Hsp2]. }
  assert (Hl4 : nodes st4 !! l0 = Some (finalized_node sp (shrinkage st) nl)).
  { cbn [st4 st3 finalize_effect nodes with_nodes with_finalized_leaves].
    rewrite list_lookup_insert_ne by (unfold r0; lia).
    apply list_lookup_insert_eq. rewrite Hlen2. unfold l0. lia. }
  assert (Hr4 : nodes st4 !! r0 = Some (finalized_node sp (shrinkage st) nr)).
  { cbn [st4 st3 finalize_effect nodes with_nodes with_finalized_leaves].
    apply list_lookup_insert_eq. rewrite length_insert, Hlen2. unfold r0, l0. lia. }
  assert (Hold4 : forall q, (q < l0)%nat -> nodes st4 !! q = nodes st2 !! q).
  { intros q Hq.
    cbn [st4 st3 finalize_effect nodes with_nodes with_finalized_leaves].
    rewrite !list_lookup_insert_ne by (unfold r0; lia). reflexivity. }
  assert (Hlen4 : length (nodes st4) = S (S (length (nodes st)))).
  { cbn [st4 st3 finalize_effect nodes with_nodes with_finalized_leaves].
    rewrite !length_insert. exact Hlen2. }
  assert (HF4 : finalized_leaves st4 = finalized_leaves st ++ [l0; r0]).
  { cbn. rewrite <- app_assoc. reflexivity. }
  rewrite Erun in E. unfold split_next_tail in E.
  destruct (opt_eqb (max_depth st) (depth n + 1)) eqn:Emd.
  - (* maximal depth *)
    apply opt_eqb_true in Emd.
    rewrite (bind_ok _ _ _ st4 tt) in E
      by (rewrite (bind_ok _ _ _ _ _ E3); exact E4).
    injection E as <- <- <-.
    exists p, n, si, sp, Q'. constructor.
    1-8: first [assumption | reflexivity].
    + reflexivity.
    + reflexivity.
    + reflexivity.
    + exact Hlen4.
    + rewrite Hold4 by exact Hplen. exact Hp2.
    + left. split; [exact Emd|]. split; [exact Hl4|]. split; [exact Hr4|].
      split; [exact HF4|]. split; [reflexivity|]. split; [reflexivity|].
      intros q Hq Hqp _. rewrite Hold4 by exact Hq. apply Hold2; assumption.
  - apply opt_eqb_false in Emd.
    destruct (opt_eqb (max_leaf_nodes st)
                (Z.of_nat (length (finalized_leaves st)) + Z.of_nat (length Q') + 2))
      eqn:Eml.
    + (* leaf budget *)
      apply opt_eqb_true in Eml.
      destruct (_finalize_splittable_nodes_effect sp st4 Hsp2)
        as (st5 & E5 & D1 & D2 & D3 & D4 & D5 & D6 & D7 & D8 & D9).
      { apply Forall_forall. intros q Hq. change (splittable_nodes st4) with Q' in Hq.
        apply lookup_lt_is_Some. rewrite Hlen4. specialize (HQ'len q Hq). unfold l0 in *. lia. }
      change (splittable_nodes st4) with Q' in D6, D8, D9.
      rewrite (bind_ok _ _ _ st5 tt) in E
        by (rewrite (bind_ok _ _ _ _ _ E3), (bind_ok _ _ _ _ _ E4); exact E5).
      injection E as <- <- <-.
      assert (HlQ : l0 ∉ Q') by (intros Hin; specialize (HQ'len _ Hin); lia).
      assert (HrQ : r0 ∉ Q') by (intros Hin; specialize (HQ'len _ Hin); unfold r0 in *; lia).
      exists p, n, si, sp, Q'. constructor.
      1-8: first [assumption | reflexivity].
      * rewrite D1. reflexivity.
      * rewrite D3. reflexivity.
      * rewrite D2. cbn. lia.
      * rewrite D7. exact Hlen4.
      * rewrite D8 by exact HpQ'. rewrite Hold4 by exact Hplen. exact Hp2.
      * right. left. split; [exact Emd|]. split; [exact Eml|].
        split; [rewrite D8 by exact HlQ; exact Hl4|].
        split; [rewrite D8 by exact HrQ; exact Hr4|].
        split; [rewrite D6, HF4, <- app_assoc; reflexivity|].
        split; [exact D5|]. split; [rewrite D4; reflexivity|]. split.
        -- intros q m Hq Hm. apply (D9 q m Hq).
           rewrite Hold4 by (apply HQ'len; exact Hq).
           rewrite Hold2; [exact Hm|apply HQ'len; exact Hq|].
           intros ->. contradiction.
        -- intros q Hq Hqp HqQ. rewrite D8 by exact HqQ.
           rewrite Hold4 by exact Hq. apply Hold2; assumption.
    + (* the children are evaluated *)
      apply opt_eqb_false in Eml.
      assert (Hdl : forall d, max_depth st = Some d -> depth n + 1 < d).
      { intros d Hd. destruct Hqn as (_ & _ & _ & _ & D). specialize (D d Hd).
        assert (depth n + 1 <> d) by (intros <-; apply Emd; exact Hd). lia. }
      assert (Hd0 : 0 <= depth n) by (destruct Hqn as (_ & _ & _ & D0 & _); exact D0).
      destruct (_compute_spittability_effect st2 l0 [r0] HI2)
        as (nl' & sp' & st5 & Hnl' & Hsp' & E5 & HI5 & C5 & N5 & W5 & S5 & K5 & F5 & Q5).
      { exists nl. split; [exact Hl2|]. split; [cbn; lia|].
        intros d Hd. cbn. apply Hdl. exact Hd. }
      rewrite Hl2 in Hnl'. injection Hnl' as <-.
      rewrite Hsp2 in Hsp'. injection Hsp' as <-.
      assert (Hr5 : nodes st5 !! r0 = Some nr).
      { rewrite S5. rewrite list_lookup_insert_ne by (unfold r0; lia). exact Hr2. }
      assert (Hcfg5 : max_depth st5 = max_depth st /\
                      min_gain_to_split st5 = min_gain_to_split st /\
                      shrinkage st5 = shrinkage st /\ splitter st5 = Some sp).
      { injection C5 as c1 c2 c3 c4 c5 c6 c7. rewrite c1, c3, c5, c6. auto. }
      destruct Hcfg5 as (Hmd5 & Hmg5 & Hsh5 & Hsp5).
      destruct (_compute_spittability_effect st5 r0 [] HI5)
        as (nr' & sp' & st6 & Hnr' & Hsp' & E6 & HI6 & C6 & N6 & W6 & S6 & K6 & F6 & Q6).
      { exists nr. split; [exact Hr5|]. rewrite Hmd5. split; [cbn; lia|].
        intros d Hd. cbn. apply Hdl. exact Hd. }
      rewrite Hr5 in Hnr'. injection Hnr' as <-.
      rewrite Hsp5 in Hsp'. injection Hsp' as <-.
      rewrite Hmg5, Hsh5 in S6. rewrite Hmg5 in F6, Q6.
      change (min_gain_to_split st2) with (min_gain_to_split st) in S5, F5, Q5.
      change (shrinkage st2) with (shrinkage st) in S5.
      rewrite (bind_ok _ _ _ st6 tt) in E
        by (rewrite (bind_ok _ _ _ _ _ E5); exact E6).
      injection E as <- <- <-.
      exists p, n, si, sp, Q'. constructor.
      1-8: first [assumption | reflexivity].
      * rewrite C6, C5. reflexivity.
      * rewrite W6, W5. reflexivity.
      * rewrite N6, N5. cbn. lia.
      * rewrite S6, S5, !length_insert. exact Hlen2.
      * rewrite S6, S5, !list_lookup_insert_ne by (unfold r0; lia). exact Hp2.
      * right. right. split; [exact Emd|]. split; [exact Eml|].
        split.
        { rewrite S6, S5. rewrite list_lookup_insert_ne by (unfold r0; lia).
          apply list_lookup_insert_eq. rewrite Hlen2. unfold l0. lia. }
        split.
        { rewrite S6. apply list_lookup_insert_eq.
          rewrite S5, length_insert, Hlen2. unfold r0, l0. lia. }
        split; [rewrite F6, F5, <- app_assoc; reflexivity|].
        split; [rewrite Q6, Q5; reflexivity|].
        split; [rewrite K6, K5, <- app_assoc; reflexivity|].
        intros q Hq Hqp _. rewrite S6, S5.
        rewrite !list_lookup_insert_ne by (unfold r0; lia).
        apply Hold2; assumption.
Qed.

(** The warning of [__init__]; the two literals of the source are joined
    without a space. *)
Definition contiguity_warning : string :=
  "Binned data should be passed as Fortran contiguousarray for maximum efficiency.".

Lemma rooted_object_warnings (a : InitArgs) :
  warnings (rooted_object a) =
    if f_contiguous (a_features_data a) then [] else [contiguity_warning].
Proof.
  unfold rooted_object, configured_object.
  destruct (f_contiguous (a_features_data a)); reflexivity.
Qed.

(** The constructor on valid arguments: the state it returns. *)
Lemma TreeGrower_effect (a : InitArgs) :
  valid_args a ->
  let sp := splitter_of a in
  let rn := root_node a sp in
  let mg := a_min_gain_to_split a in
  let sh := a_shrinkage a in
  exists st,
    TreeGrower a = (st, Ok tt) /\ configured a st /\ n_nodes st = 1 /\
    warnings st =
      (if f_contiguous (a_features_data a) then [] else [contiguity_warning]) /\
    ((a_max_leaf_nodes a = Some 1 /\
      nodes st = [finalized_node sp sh rn] /\
      find_node_split_calls st = [] /\
      finalized_leaves st = [0%nat] /\ splittable_nodes st = [])
     \/ (a_max_leaf_nodes a <> Some 1 /\
         nodes st = [classified_node sp mg sh rn] /\
         find_node_split_calls st = [sample_indices rn] /\
         finalized_leaves st = (if low_gain sp mg rn then [0%nat] else []) /\
         splittable_nodes st = (if low_gain sp mg rn then [] else [0%nat]))).
Proof.
  intros Hv sp rn mg sh. rewrite (TreeGrower_root a Hv).
  destruct Hv as (Hdt & Hml & Hmd).
  pose proof (rooted_object_warnings a) as Hw.
  destruct (rooted_object_fields a)
    as ((C1 & C2 & C3 & C4 & C5 & C6 & C7) & Hn1 & HQ1 & HF1 & HK1 & _).
  generalize dependent (rooted_object a).
  intros s1 Hw C1 C2 C3 C4 C5 C6 C7 Hn1 HQ1 HF1 HK1.
  fold (splitter_of a) in C1. fold sp in C1, Hn1. fold rn in Hn1.
  assert (Hroot : nodes s1 !! 0%nat = Some rn) by (rewrite Hn1; reflexivity).
  assert (Hcfg : forall st2, config st2 = config s1 -> configured a (with_n_nodes 1 st2)).
  { intros st2 E. injection E as E1 E2 E3 E4 E5 E6 E7.
    unfold configured. cbn. rewrite E1, E2, E3, E4, E5, E6, E7.
    repeat split; assumption. }
  destruct (opt_eqb (a_max_leaf_nodes a) 1) eqn:Eml.
  - apply opt_eqb_true in Eml.
    exists (with_n_nodes 1 (finalize_effect 0%nat rn sp s1)).
    split.
    { rewrite (bind_ok _ _ _ _ _ (_finalize_leaf_run _ _ _ _ Hroot C1)). reflexivity. }
    split; [apply Hcfg; reflexivity|]. split; [reflexivity|]. split; [exact Hw|].
    left. split; [exact Eml|]. cbn. rewrite Hn1, HF1, HQ1, HK1, C6. auto.
  - apply opt_eqb_false in Eml.
    destruct (_compute_spittability_effect s1 0%nat [])
      as (n & sp' & st2 & Hn & Hsp' & E2 & _ & Cf & _ & W2 & S2 & K2 & F2 & Q2).
    { exists sp. split; [exact C1|]. rewrite Hn1, HQ1, HF1, C3, C7.
      apply Inv_root; auto. }
    { exists rn. split; [exact Hroot|]. split; [cbn; lia|].
      intros d Hd. rewrite C3 in Hd. pose proof (below_one_None _ d Hmd Hd). cbn. lia. }
    rewrite Hroot in Hn. injection Hn as <-.
    rewrite C1 in Hsp'. injection Hsp' as <-.
    rewrite C5, C6, Hn1 in S2. rewrite C5, HF1 in F2. rewrite C5, HQ1 in Q2.
    rewrite HK1 in K2.
    exists (with_n_nodes 1 st2). split.
    { rewrite (bind_ok _ _ _ _ _ E2). reflexivity. }
    split; [apply Hcfg; exact Cf|]. split; [reflexivity|].
    split; [cbn; rewrite W2; exact Hw|].
    right. split; [exact Eml|]. cbn.
    split; [exact S2|]. split; [exact K2|]. split; [exact F2|].
    fold mg in Q2. destruct (low_gain sp mg rn).
    + cbn in Q2. apply Permutation_nil_r in Q2. exact Q2.
    + cbn in Q2. apply Permutation_singleton_r in Q2. exact Q2.
Qed.

(** ** The history of a tree *)

(** The attributes that [TreeNode.__init__] sets; no method assigns them. *)
Definition same_core (m' m : TreeNode) : Prop :=
  depth m' = depth m /\ sample_indices m' = sample_indices m /\
  sum_gradients m' = sum_gradients m /\ sum_hessians m' = sum_hessians m.

(** All but the weight. *)
Definition keeps (m' m : TreeNode) : Prop :=
  same_core m' m /\ left_child m' = left_child m /\
  right_child m' = right_child m /\ split_info m' = split_info m.

(** A [split_info] is what the splitter returned for the samples of the node. *)
Definition evaluation (sp : HistogramSplitter) (m : TreeNode) : Prop :=
  forall si, split_info m = Some si -> si = find_node_split sp (sample_indices m).

(** The argument of the call of [find_node_split] for a node, if it was
    evaluated. *)
Definition evaluated_samples (m : TreeNode) : option (list nat) :=
  match split_info m with
  | Some _ => Some (sample_indices m)
  | None => None
  end.

(** A node has no child, or two children made from its split, and then
    the gain of the split is not below the threshold. *)
Definition family (sp : HistogramSplitter) (mg : scalar) (ns : list TreeNode)
    (m : TreeNode) : Prop :=
  match left_child m, right_child m with
  | None, None => True
  | Some l, Some r =>
      exists si ml mr,
        split_info m = Some si /\ sltb (gain si) mg = false /\
        ns !! l = Some ml /\ ns !! r = Some mr /\
        same_core ml (left_node sp m si) /\ same_core mr (right_node sp m si)
  | _, _ => False
  end.

Record history (a : InitArgs) (st : State) : Prop := mkHistory {
  h_root : exists m, nodes st !! 0%nat = Some m /\
                     same_core m (root_node a (splitter_of a));
  h_family : forall q m, nodes st !! q = Some m ->
    family (splitter_of a) (a_min_gain_to_split a) (nodes st) m;
  h_evaluation : forall q m, nodes st !! q = Some m -> evaluation (splitter_of a) m;
  h_calls : find_node_split_calls st = omap evaluated_samples (nodes st);
  h_warnings : warnings st =
    if f_contiguous (a_features_data a) then [] else [contiguity_warning]
}.

Lemma same_core_refl (m : TreeNode) : same_core m m.
Proof. repeat split. Qed.

Lemma same_core_trans (m1 m2 m3 : TreeNode) :
  same_core m1 m2 -> same_core m2 m3 -> same_core m1 m3.
Proof.
  intros (A1 & A2 & A3 & A4) (B1 & B2 & B3 & B4).
  repeat split; congruence.
Qed.

Lemma same_core_left (sp : HistogramSplitter) (m' m : TreeNode) (si : SplitInfo) :
  same_core m' m -> left_node sp m' si = left_node sp m si.
Proof. intros (A1 & A2 & _). unfold left_node. rewrite A1, A2. reflexivity. Qed.

Lemma same_core_right (sp : HistogramSplitter) (m' m : TreeNode) (si : SplitInfo) :
  same_core m' m -> right_node sp m' si = right_node sp m si.
Proof. intros (A1 & A2 & _). unfold right_node. rewrite A1, A2. reflexivity. Qed.

Lemma keeps_refl (m : TreeNode) : keeps m m.
Proof. repeat split. Qed.

Lemma keeps_evaluated_samples (m' m : TreeNode) :
  keeps m' m -> evaluated_samples m' = evaluated_samples m.
Proof.
  intros ((_ & A2 & _) & _ & _ & A). unfold evaluated_samples. rewrite A, A2. reflexivity.
Qed.

Lemma classified_node_facts (sp : HistogramSplitter) (mg sh : scalar) (m : TreeNode) :
  left_child m = None -> right_child m = None ->
  let m' := classified_node sp mg sh m in
  same_core m' m /\ childless m' /\ evaluation sp m' /\
  evaluated_samples m' = Some (sample_indices m).
Proof.
  intros L R. unfold classified_node.
  destruct (low_gain sp mg m); cbn; repeat split; auto; intros si [= <-]; reflexivity.
Qed.

Lemma finalized_node_facts (sp : HistogramSplitter) (sh : scalar) (m : TreeNode) :
  left_child m = None -> right_child m = None -> split_info m = None ->
  let m' := finalized_node sp sh m in
  same_core m' m /\ childless m' /\ evaluation sp m' /\ evaluated_samples m' = None.
Proof.
  intros L R S. cbn. repeat split; auto.
  - intros si. cbn. rewrite S. discriminate.
  - unfold evaluated_samples. cbn. rewrite S. reflexivity.
Qed.

(** What a split leaves of the nodes, whatever way it ended. *)
Lemma split_effect_nodes (st st' : State) (l r p : node_ref) (n : TreeNode)
      (si : SplitInfo) (sp : HistogramSplitter) (Q' : list node_ref) :
  split_effect st st' l r p n si sp Q' ->
  exists ml mr,
    nodes st' !! l = Some ml /\ nodes st' !! r = Some mr /\
    same_core ml (left_node sp n si) /\ same_core mr (right_node sp n si) /\
    childless ml /\ childless mr /\ evaluation sp ml /\ evaluation sp mr /\
    find_node_split_calls st' =
      find_node_split_calls st ++ omap evaluated_samples [ml; mr] /\
    (forall q m, nodes st !! q = Some m -> q <> p ->
       exists m', nodes st' !! q = Some m' /\ keeps m' m).
Proof.
  intros [Hhead Hrest Hn Hsi Hq Hsp -> -> Hcfg Hw Hnn Hlen Hp Hcase].
  set (nl := left_node sp n si) in *. set (nr := right_node sp n si) in *.
  assert (Hold : forall T : list node_ref,
    (forall q, (q < length (nodes st))%nat -> q <> p -> q ∉ T ->
               nodes st' !! q = nodes st !! q) ->
    (forall q m, q ∈ T -> nodes st !! q = Some m ->
       nodes st' !! q = Some (finalized_node sp (shrinkage st) m)) ->
    forall q m, nodes st !! q = Some m -> q <> p ->
       exists m', nodes st' !! q = Some m' /\ keeps m' m).
  { intros T Hun Hfin q m Hm Hqp. destruct (decide (q ∈ T)) as [Hin|Hnin].
    - exists (finalized_node sp (shrinkage st) m). split; [eauto|]. repeat split.
    - exists m. split; [|apply keeps_refl].
      rewrite Hun; auto. eapply lookup_lt_Some; eauto. }
  destruct Hcase as [(Hmd & Hl & Hr & HF & HQ & HK & Hun)
                    |[(Hmd & Hml & Hl & Hr & HF & HQ & HK & Hfin & Hun)
                     |(Hmd & Hml & Hl & Hr & HF & HQ & HK & Hun)]].
  - destruct (finalized_node_facts sp (shrinkage st) nl) as (A1 & A2 & A3 & A4);
      try reflexivity.
    destruct (finalized_node_facts sp (shrinkage st) nr) as (B1 & B2 & B3 & B4);
      try reflexivity.
    eexists _, _. split; [exact Hl|]. split; [exact Hr|].
    do 6 (split; [assumption|]). split.
    + cbn [omap list_omap]. fold nl nr. rewrite A4, B4, app_nil_r. exact HK.
    + apply (Hold []); [exact Hun|]. intros q m Hin. apply elem_of_nil in Hin. contradiction.
  - destruct (finalized_node_facts sp (shrinkage st) nl) as (A1 & A2 & A3 & A4);
      try reflexivity.
    destruct (finalized_node_facts sp (shrinkage st) nr) as (B1 & B2 & B3 & B4);
      try reflexivity.
    eexists _, _. split; [exact Hl|]. split; [exact Hr|].
    do 6 (split; [assumption|]). split.
    + cbn [omap list_omap]. fold nl nr. rewrite A4, B4, app_nil_r. exact HK.
    + apply (Hold Q'); assumption.
  - destruct (classified_node_facts sp (min_gain_to_split st) (shrinkage st) nl)
      as (A1 & A2 & A3 & A4); try reflexivity.
    destruct (classified_node_facts sp (min_gain_to_split st) (shrinkage st) nr)
      as (B1 & B2 & B3 & B4); try reflexivity.
    eexists _, _. split; [exact Hl|]. split; [exact Hr|].
    do 6 (split; [assumption|]). split.
    + cbn [omap list_omap]. fold nl nr. rewrite A4, B4. exact HK.
    + apply (Hold []); [exact Hun|]. intros q m Hin. apply elem_of_nil in Hin. contradiction.
Qed.

Lemma omap_pointwise {A B : Type} (f : A -> option B) (l l' : list A) :
  length l' = length l ->
  (forall i x x', l !! i = Some x -> l' !! i = Some x' -> f x' = f x) ->
  omap f l' = omap f l.
Proof.
  revert l'. induction l as [|x l IH]; intros [|x' l'] Hlen Hf; try discriminate.
  - reflexivity.
  - cbn. rewrite (Hf 0%nat x x') by reflexivity.
    rewrite (IH l'); [reflexivity|cbn in Hlen; lia|].
    intros i y y' Hy Hy'. apply (Hf (S i)); assumption.
Qed.

Lemma omap_length_le {A B : Type} (f : A -> option B) (l : list A) :
  (length (omap f l) <= length l)%nat.
Proof.
  induction l as [|x l IH]; [reflexivity|]. cbn. destruct (f x); cbn; lia.
Qed.

Lemma list_split_last_two {A : Type} (l : list A) (k : nat) (x y : A) :
  length l = S (S k) -> l !! k = Some x -> l !! S k = Some y ->
  l = take k l ++ [x; y].
Proof.
  intros Hlen Hx Hy.
  rewrite <- (take_drop k l) at 1. f_equal.
  apply list_eq. intros i.
  rewrite lookup_drop.
  destruct i as [|[|i]]; cbn.
  - rewrite Nat.add_0_r. exact Hx.
  - replace (k + 1)%nat with (S k) by lia. exact Hy.
  - apply lookup_ge_None. lia.
Qed.

(** One split keeps the history. *)
Lemma history_step (a : InitArgs) (st st' : State) (l r : node_ref) :
  wf st -> configured a st -> history a st ->
  split_next st = (st', Ok (l, r)) -> history a st'.
Proof.
  intros Hwf (C1 & _ & _ & _ & C5 & _) [Hroot Hfam Hev Hcalls Hwarn] E.
  destruct (split_next_effect st st' l r Hwf E) as (p & n & si & sp & Q' & Heff).
  destruct (split_effect_nodes _ _ _ _ _ _ _ _ _ Heff)
    as (ml & mr & Hl & Hr & Cl & Cr & Ll & Lr & El & Er & HK & Hold).
  destruct Heff as [Hhead Hrest Hn Hsi Hq Hsp -> -> Hcfg Hw Hnn Hlen Hp _].
  fold (splitter_of a) in C1. rewrite C1 in Hsp. injection Hsp as <-.
  set (sp := splitter_of a) in *.
  set (len := length (nodes st)) in *.
  pose proof (lookup_lt_Some _ _ _ Hn) as Hplen.
  (* every old node is still there, with the same core *)
  assert (Hcore : forall q m, nodes st !! q = Some m ->
            exists m', nodes st' !! q = Some m' /\ same_core m' m /\
                       split_info m' = split_info m).
  { intros q m Hm. destruct (decide (q = p)) as [->|Hqp].
    - rewrite Hn in Hm. injection Hm as <-. eexists. split; [exact Hp|].
      split; [repeat split|reflexivity].
    - destruct (Hold q m Hm Hqp) as (m' & Hm' & K & _ & _ & S). eauto. }
  assert (Hcases : forall q m', nodes st' !! q = Some m' ->
            (q = p /\ m' = set_right_child (Some (S len)) (set_left_child (Some len) n))
            \/ (q <> p /\ exists m, nodes st !! q = Some m /\ keeps m' m)
            \/ (q = len /\ m' = ml) \/ (q = S len /\ m' = mr)).
  { intros q m' Hm'. pose proof (lookup_lt_Some _ _ _ Hm') as Hq'. rewrite Hlen in Hq'.
    destruct (decide (q = p)) as [->|Hqp].
    { left. rewrite Hp in Hm'. injection Hm' as <-. auto. }
    destruct (decide (q < len)%nat) as [Hlt|Hge].
    - right. left. split; [exact Hqp|].
      destruct (lookup_lt_is_Some_2 (nodes st) q Hlt) as [m Hm].
      destruct (Hold q m Hm Hqp) as (m2 & Hm2 & K). rewrite Hm' in Hm2.
      injection Hm2 as <-. eauto.
    - right. right. destruct (decide (q = len)) as [->|Hne].
      + left. rewrite Hl in Hm'. injection Hm' as <-. auto.
      + right. assert (q = S len) as -> by (fold len in Hq'; lia).
        rewrite Hr in Hm'. injection Hm' as <-. auto. }
  constructor.
  - destruct Hroot as (m & Hm & Cm). destruct (Hcore _ _ Hm) as (m' & Hm' & Cm' & _).
    exists m'. split; [exact Hm'|]. eapply same_core_trans; eauto.
  - intros q m' Hm'.
    destruct (Hcases q m' Hm') as [[-> ->]|[(Hqp & m & Hm & K)|[[-> ->]|[-> ->]]]].
    + unfold family. cbn. exists si, ml, mr.
      split; [exact Hsi|]. split.
      { destruct Hq as ((si' & Hsi' & Hg) & _). rewrite Hsi in Hsi'.
        injection Hsi' as <-. rewrite <- C5. exact Hg. }
      auto.
    + destruct K as (Cm & KL & KR & KS). specialize (Hfam q m Hm).
      unfold family in *. rewrite KL, KR, KS.
      destruct (left_child m) as [c1|], (right_child m) as [c2|]; auto.
      destruct Hfam as (si1 & m1 & m2 & S1 & G1 & L1 & R1 & D1 & D2).
      destruct (Hcore _ _ L1) as (m1' & L1' & D1' & _).
      destruct (Hcore _ _ R1) as (m2' & R1' & D2' & _).
      exists si1, m1', m2'. split; [exact S1|]. split; [exact G1|].
      split; [exact L1'|]. split; [exact R1'|].
      rewrite (same_core_left _ m' m si1 Cm), (same_core_right _ m' m si1 Cm).
      split; eapply same_core_trans; eauto.
    + unfold family. destruct Ll as [-> ->]. exact I.
    + unfold family. destruct Lr as [-> ->]. exact I.
  - intros q m' Hm'.
    destruct (Hcases q m' Hm') as [[-> ->]|[(Hqp & m & Hm & K)|[[-> ->]|[-> ->]]]].
    + intros si'. cbn. apply (Hev p n Hn).
    + destruct K as ((_ & KS & _) & _ & _ & KI). intros si'. rewrite KI, KS.
      apply (Hev q m Hm).
    + exact El.
    + exact Er.
  - rewrite (list_split_last_two (nodes st') len ml mr Hlen Hl Hr).
    rewrite omap_app, HK, Hcalls. f_equal. symmetry.
    apply omap_pointwise.
    + rewrite length_take, Hlen. fold len. lia.
    + intros i x x' Hx Hx'. apply lookup_take_Some in Hx' as [Hx' Hi].
      destruct (Hcore i x Hx) as (x2 & Hx2 & (_ & CS & _) & SI).
      rewrite Hx' in Hx2. injection Hx2 as <-.
      unfold evaluated_samples. rewrite SI, CS. reflexivity.
  - rewrite Hw. exact Hwarn.
Qed.

Lemma history_init (a : InitArgs) (st : State) :
  TreeGrower a = (st, Ok tt) -> history a st.
Proof.
  intros E.
  destruct (TreeGrower_effect a (TreeGrower_Ok_valid a st E))
    as (st0 & E0 & _ & _ & Hw & Hcase).
  rewrite E0 in E. injection E as <-.
  set (sp := splitter_of a) in *. set (rn := root_node a sp) in *.
  assert (Hgen : forall m, same_core m rn -> childless m -> evaluation sp m ->
            nodes st0 = [m] ->
            find_node_split_calls st0 = omap evaluated_samples [m] ->
            history a st0).
  { intros m Cm [L R] Em Hn HK. constructor.
    - exists m. rewrite Hn. auto.
    - intros q m' Hm'. rewrite Hn in Hm'. apply list_lookup_singleton_Some in Hm' as [_ <-].
      unfold family. rewrite L, R. exact I.
    - intros q m' Hm'. rewrite Hn in Hm'. apply list_lookup_singleton_Some in Hm' as [_ <-].
      exact Em.
    - rewrite Hn. exact HK.
    - exact Hw. }
  destruct Hcase as [(_ & Hn & HK & _)|(_ & Hn & HK & _)].
  - destruct (finalized_node_facts sp (a_shrinkage a) rn) as (A1 & A2 & A3 & A4);
      try reflexivity.
    apply (Hgen _ A1 A2 A3 Hn). cbn [omap list_omap]. rewrite A4. exact HK.
  - destruct (classified_node_facts sp (a_min_gain_to_split a) (a_shrinkage a) rn)
      as (A1 & A2 & A3 & A4); try reflexivity.
    apply (Hgen _ A1 A2 A3 Hn). cbn [omap list_omap]. rewrite A4. exact HK.
Qed.

Lemma grown_history (a : InitArgs) (k : nat) (st : State) :
  grown a k st -> history a st.
Proof.
  intros Hg. induction Hg as [st E|k st st' [l r] Hg IH E].
  - apply history_init. exact E.
  - destruct (grown_wf a k st Hg) as (Hwf & Hc & _).
    eapply history_step; eauto.
Qed.

Lemma reachable_history (a : InitArgs) (st : State) :
  reachable a st -> history a st.
Proof. intros (k & Hk). eapply grown_history; eauto. Qed.

Lemma reachable_splitter (a : InitArgs) (st : State) :
  reachable a st -> splitter st = Some (splitter_of a).
Proof. intros Hr. destruct (reachable_wf a st Hr) as [_ (C1 & _)]. exact C1. Qed.


(** ** The constructor *)


(** X2. Unless [max_leaf_nodes] is 1, the constructor evaluates the root
    once, on all the samples: the root, the only node, is at depth 0,
    holds the sample indices [0 .. n_samples - 1] and the sums of all
    gradients and hessians, and has the split the splitter returned.  If
    the gain of that split is below [min_gain_to_split] the root is
    finalized at once and the queue stays empty, so nothing will ever be
    split; otherwise the root is the single queued node. *)
Theorem root_is_evaluated_once (a : InitArgs) (st : State) :
  TreeGrower a = (st, Ok tt) -> a_max_leaf_nodes a <> Some 1 ->
  let sp := splitter_of a in
  let all := seq 0 (shape0 (a_features_data a)) in
  let si := find_node_split sp all in
  find_node_split_calls st = [all] /\ root st = 0%nat /\
  exists m,
    nodes st = [m] /\ depth m = 0 /\ sample_indices m = all /\
    sum_gradients m = ssum (all_gradients sp) /\
    sum_hessians m = ssum (all_hessians sp) /\
    split_info m = Some si /\ left_child m = None /\ right_child m = None /\
    if sltb (gain si) (a_min_gain_to_split a)
    then finalized_leaves st = [0%nat] /\ splittable_nodes st = [] /\
         weight m = Some (sdiv (smul (a_shrinkage a) (sum_gradients m))
                               (sadd (sum_hessians m) (l2_regularization sp))) /\
         forall fuel, grow fuel st = (st, Ok tt)
    else finalized_leaves st = [] /\ splittable_nodes st = [0%nat] /\
         weight m = None.
Proof.
  intros E Hml sp all si.
  destruct (TreeGrower_effect a (TreeGrower_Ok_valid a st E))
    as (st0 & E0 & Hc & Hn & Hw & Hcase).
  rewrite E0 in E. injection E as <-.
  destruct Hcase as [(Hml' & _)|(_ & Hns & HK & HF & HQ)]; [contradiction|].
  split; [exact HK|]. split; [apply Hc|].
  eexists. split; [exact Hns|].
  fold sp in HF, HQ |- *.
  unfold classified_node, low_gain in *. cbn [root_node sample_indices] in *.
  fold all in HF, HQ |- *. fold si in HF, HQ |- *.
  destruct (sltb (gain si) (a_min_gain_to_split a)).
  - cbn. repeat split; auto. intros fuel. apply grow_done. exact HQ.
  - cbn. repeat split; auto.
Qed.

(** ** The tree, at any time *)

Lemma family_children (sp : HistogramSplitter) (mg : scalar) (ns : list TreeNode)
      (m : TreeNode) :
  family sp mg ns m ->
  left_child m <> None \/ right_child m <> None ->
  exists l r si ml mr,
    left_child m = Some l /\ right_child m = Some r /\
    split_info m = Some si /\ sltb (gain si) mg = false /\
    ns !! l = Some ml /\ ns !! r = Some mr /\
    same_core ml (left_node sp m si) /\ same_core mr (right_node sp m si).
Proof.
  unfold family. intros Hf Hc.
  destruct (left_child m) as [l|], (right_child m) as [r|]; try contradiction.
  - destruct Hf as (si & ml & mr & Hf). exists l, r, si, ml, mr. tauto.
  - destruct Hc; congruence.
Qed.

(** In a tree whose nodes are all different no node is both the left and
    the right child of a node. *)
Lemma tree_at_children_distinct (ns : list TreeNode) (rt : node_ref) (t : shape)
      (c : node_ref) :
  tree_at ns rt t -> NoDup (ids t) ->
  forall x n, x ∈ ids t -> ns !! x = Some n ->
    left_child n = Some c -> right_child n = Some c -> False.
Proof.
  intros Ht. induction Ht as [x n Hn L R|x n l r ta tb Hn L R Hta IHa Htb IHb];
    intros Hnd y ny Hy Hny Ly Ry.
  - cbn in Hy. apply list_elem_of_singleton in Hy as ->.
    rewrite Hn in Hny. injection Hny as <-. congruence.
  - cbn in Hnd, Hy. apply NoDup_cons in Hnd as [Hx Hnd].
    apply NoDup_app in Hnd as (Hnda & Hdisj & Hndb).
    apply elem_of_cons in Hy as [->|Hy].
    + rewrite Hn in Hny. injection Hny as <-.
      rewrite L in Ly. rewrite R in Ry. injection Ly as ->. injection Ry as ->.
      apply (Hdisj c); eapply tree_at_root_in; eauto.
    + apply elem_of_app in Hy as [Hy|Hy]; eauto.
Qed.

(** X3. The [depth] attribute is the distance from the root: the root is
    at depth 0, and a child is one level below its parent, in every state
    of a grower. *)
Theorem depth_is_distance_from_root (a : InitArgs) (st : State) :
  reachable a st ->
  (exists m, nodes st !! root st = Some m /\ depth m = 0) /\
  forall q m c,
    nodes st !! q = Some m ->
    left_child m = Some c \/ right_child m = Some c ->
    exists mc, nodes st !! c = Some mc /\ depth mc = depth m + 1.
Proof.
  intros Hr. pose proof (reachable_history a st Hr) as [Hroot Hfam _ _ _].
  destruct (reachable_wf a st Hr) as [_ (_ & _ & _ & _ & _ & _ & C7)].
  split.
  - rewrite C7. destruct Hroot as (m & Hm & D & _). exists m. auto.
  - intros q m c Hm Hc.
    destruct (family_children _ _ _ _ (Hfam q m Hm))
      as (l & r & si & ml & mr & L & R & _ & _ & Hl & Hr' & (Dl & _) & (Dr & _)).
    { destruct Hc as [Hc|Hc]; rewrite Hc; [left|right]; discriminate. }
    destruct Hc as [Hc|Hc].
    + rewrite L in Hc. injection Hc as <-. exists ml. auto.
    + rewrite R in Hc. injection Hc as <-. exists mr. auto.
Qed.

(** X4. The children of a node are made from its split: a node with a
    child has both children and a [split_info]; the children hold the two
    index sets that [split_indices] returns for the samples and the split
    of the node, and their sums are the left and right gradient and
    hessian sums of that split.  No later call changes this. *)
Theorem children_carry_the_split (a : InitArgs) (st : State) (q : node_ref)
        (m : TreeNode) :
  reachable a st -> nodes st !! q = Some m ->
  left_child m <> None \/ right_child m <> None ->
  exists l r si ml mr,
    left_child m = Some l /\ right_child m = Some r /\ l <> r /\
    split_info m = Some si /\
    nodes st !! l = Some ml /\ nodes st !! r = Some mr /\
    (sample_indices ml, sample_indices mr)
    = split_indices (splitter_of a) (sample_indices m) si /\
    sum_gradients ml = gradient_left si /\ sum_hessians ml = hessian_left si /\
    sum_gradients mr = gradient_right si /\ sum_hessians mr = hessian_right si.
Proof.
  intros Hr Hm Hc. pose proof (reachable_history a st Hr) as [_ Hfam _ _ _].
  destruct (family_children _ _ _ _ (Hfam q m Hm) Hc)
    as (l & r & si & ml & mr & L & R & S & _ & Hl & Hr'
        & (_ & A2 & A3 & A4) & (_ & B2 & B3 & B4)).
  exists l, r, si, ml, mr.
  split; [exact L|]. split; [exact R|]. split.
  { intros ->. destruct (reachable_wf a st Hr) as [(sp & _ & I & _) _].
    destruct (inv_tree _ _ _ _ _ _ _ _ _ I) as (t & Ht & Hperm).
    apply (tree_at_children_distinct (nodes st) (root st) t r Ht) with (x := q) (n := m);
      auto.
    - rewrite Hperm. apply NoDup_seq.
    - rewrite Hperm. apply elem_of_seq. apply lookup_lt_Some in Hm. lia. }
  split; [exact S|]. split; [exact Hl|]. split; [exact Hr'|].
  cbn in A2, B2. rewrite A2, B2.
  split; [destruct (split_indices _ _ _); reflexivity|]. auto.
Qed.

(** X5. The threshold rule: a node whose evaluated gain is below
    [min_gain_to_split] is a finalized leaf, never queued and never
    split; a node that is queued or has a child has a gain that is not
    below the threshold. *)
Theorem no_split_below_min_gain (a : InitArgs) (st : State) (q : node_ref)
        (m : TreeNode) (si : SplitInfo) :
  reachable a st -> nodes st !! q = Some m -> split_info m = Some si ->
  (sltb (gain si) (a_min_gain_to_split a) = true ->
   q ∈ finalized_leaves st /\ (q ∉ splittable_nodes st) /\ weight m <> None /\
   left_child m = None /\ right_child m = None) /\
  (q ∈ splittable_nodes st \/ left_child m <> None \/ right_child m <> None ->
   sltb (gain si) (a_min_gain_to_split a) = false).
Proof.
  intros Hr Hm Hsi. pose proof (reachable_history a st Hr) as [_ Hfam _ _ _].
  destruct (reachable_wf a st Hr) as [Hwf (_ & _ & _ & _ & C5 & _)].
  assert (Hhigh : q ∈ splittable_nodes st \/ left_child m <> None \/ right_child m <> None ->
                  sltb (gain si) (a_min_gain_to_split a) = false).
  { intros [HqQ|Hc].
    - destruct Hwf as (sp & _ & I & _).
      pose proof (inv_queued _ _ _ _ _ _ _ _ _ I) as HQ. rewrite Forall_forall in HQ.
      destruct (HQ q HqQ) as (m' & Hm' & (si' & Hsi' & Hg) & _).
      rewrite Hm in Hm'. injection Hm' as <-. rewrite Hsi in Hsi'. injection Hsi' as <-.
      rewrite <- C5. exact Hg.
    - destruct (family_children _ _ _ _ (Hfam q m Hm) Hc)
        as (l & r & si' & _ & _ & _ & _ & Hsi' & Hg & _).
      rewrite Hsi in Hsi'. injection Hsi' as <-. exact Hg. }
  split; [|exact Hhigh].
  intros Hlow.
  destruct (wf_classify st q m Hwf Hm) as (sp & _ & Hcase).
  destruct Hcase as [(HqQ & _)|[(HF & HQ & (W & (L & R) & _))
                               |(_ & _ & (_ & _ & (l & r' & L & _) & _))]].
  - rewrite Hhigh in Hlow by (left; exact HqQ). discriminate.
  - rewrite W. repeat split; auto; discriminate.
  - rewrite Hhigh in Hlow by (right; left; rewrite L; discriminate). discriminate.
Qed.

(** X6. Every node is evaluated at most once, when it is created: the
    calls of [find_node_split] so far are, in order, the sample sets of
    the nodes that have a [split_info], in the order of their creation,
    and the [split_info] of a node is what the splitter returned for the
    samples of that node. *)
Theorem each_node_is_evaluated_once (a : InitArgs) (st : State) :
  reachable a st ->
  find_node_split_calls st
  = omap (fun m => match split_info m with
                   | Some _ => Some (sample_indices m)
                   | None => None
                   end) (nodes st) /\
  (length (find_node_split_calls st) <= length (nodes st))%nat /\
  forall q m si, nodes st !! q = Some m -> split_info m = Some si ->
    si = find_node_split (splitter_of a) (sample_indices m).
Proof.
  intros Hr. pose proof (reachable_history a st Hr) as [_ _ Hev Hcalls _].
  split; [exact Hcalls|]. split.
  - rewrite Hcalls. apply omap_length_le.
  - intros q m si Hm Hsi. exact (Hev q m Hm si Hsi).
Qed.

(** ** One split *)

Lemma wf_leaf_facts (st : State) (q : node_ref) :
  wf st -> q ∈ finalized_leaves st ->
  (q < length (nodes st))%nat /\ q ∉ splittable_nodes st.
Proof.
  intros (sp & _ & I & _) Hq. split.
  - eapply Forall_node_is_lt; [apply (inv_leaves _ _ _ _ _ _ _ _ _ I)|exact Hq].
  - pose proof (inv_nodup _ _ _ _ _ _ _ _ _ I) as Hnd.
    apply NoDup_app in Hnd as (_ & Hd & _). intros HqQ.
    apply (Hd q HqQ). apply elem_of_app. left. exact Hq.
Qed.

Lemma wf_queue_facts (st : State) (q : node_ref) :
  wf st -> q ∈ splittable_nodes st -> (q < length (nodes st))%nat.
Proof.
  intros (sp & _ & I & _) Hq.
  eapply Forall_node_is_lt; [apply (inv_queued _ _ _ _ _ _ _ _ _ I)|exact Hq].
Qed.



(** X8. What [split_next] does with the two children it creates.  They
    are the next two nodes of the store.  At the limit, that is when the
    children are at [max_depth] or when they bring the number of leaves
    to [max_leaf_nodes], both are finalized without being evaluated: no
    call of [find_node_split] is made.  Otherwise each child is evaluated
    once, the left one first, and goes to the queue if its gain is not
    below [min_gain_to_split] and to the finalized leaves if it is. *)
Theorem children_are_settled (a : InitArgs) (st st' : State) (l r : node_ref) :
  reachable a st -> split_next st = (st', Ok (l, r)) ->
  exists p n ml mr,
    splittable_nodes st !! 0%nat = Some p /\ nodes st !! p = Some n /\
    l = length (nodes st) /\ r = S (length (nodes st)) /\
    nodes st' !! l = Some ml /\ nodes st' !! r = Some mr /\
    let at_limit :=
      max_depth st = Some (depth n + 1)
      \/ max_leaf_nodes st
         = Some (Z.of_nat (length (finalized_leaves st))
                 + Z.of_nat (length (splittable_nodes st)) + 1) in
    (at_limit ->
     find_node_split_calls st' = find_node_split_calls st /\
     split_info ml = None /\ split_info mr = None /\
     l ∈ finalized_leaves st' /\ r ∈ finalized_leaves st') /\
    (~ at_limit ->
     find_node_split_calls st'
     = find_node_split_calls st ++ [sample_indices ml; sample_indices mr] /\
     exists sl sr,
       split_info ml = Some sl /\ split_info mr = Some sr /\
       (l ∈ splittable_nodes st' <-> sltb (gain sl) (min_gain_to_split st) = false) /\
       (l ∈ finalized_leaves st' <-> sltb (gain sl) (min_gain_to_split st) = true) /\
       (r ∈ splittable_nodes st' <-> sltb (gain sr) (min_gain_to_split st) = false) /\
       (r ∈ finalized_leaves st' <-> sltb (gain sr) (min_gain_to_split st) = true)).
Proof.
  intros Hr E. destruct (reachable_wf a st Hr) as [Hwf _].
  destruct (split_next_effect st st' l r Hwf E) as (p & n & si & sp & Q' & Heff).
  destruct Heff as [Hhead Hrest Hn Hsi Hq Hsp -> -> Hcfg Hw Hnn Hlen Hp Hcase].
  set (len := length (nodes st)) in *.
  assert (HlenQ : Z.of_nat (length (splittable_nodes st)) = Z.of_nat (length Q') + 1).
  { rewrite <- Hrest. cbn. lia. }
  assert (HQ' : forall q, q ∈ Q' -> (q < len)%nat).
  { intros q Hq'. apply (wf_queue_facts st q Hwf). rewrite <- Hrest. right. exact Hq'. }
  assert (HF : forall q, q ∈ finalized_leaves st -> (q < len)%nat).
  { intros q Hq'. apply (wf_leaf_facts st q Hwf Hq'). }
  assert (HlQ : len ∉ Q') by (intros Hin; specialize (HQ' _ Hin); lia).
  assert (HrQ : S len ∉ Q') by (intros Hin; specialize (HQ' _ Hin); lia).
  assert (HlF : len ∉ finalized_leaves st) by (intros Hin; specialize (HF _ Hin); lia).
  assert (HrF : S len ∉ finalized_leaves st) by (intros Hin; specialize (HF _ Hin); lia).
  exists p, n.
  destruct Hcase as [(Hmd & Hl & Hr' & HF' & HQ'' & HK & _)
                    |[(Hmd & Hml & Hl & Hr' & HF' & HQ'' & HK & _)
                     |(Hmd & Hml & Hl & Hr' & HF' & HQ'' & HK & _)]].
  - eexists _, _. do 4 (split; [first [assumption|reflexivity]|]).
    split; [exact Hl|]. split; [exact Hr'|]. split.
    + intros _. split; [exact HK|]. split; [reflexivity|]. split; [reflexivity|].
      rewrite HF'. split; apply elem_of_app; right; [left|right; left].
    + intros Hnot. exfalso. apply Hnot. left. exact Hmd.
  - eexists _, _. do 4 (split; [first [assumption|reflexivity]|]).
    split; [exact Hl|]. split; [exact Hr'|]. split.
    + intros _. split; [exact HK|]. split; [reflexivity|]. split; [reflexivity|].
      rewrite HF'. split; apply elem_of_app; right; [left|right; left].
    + intros Hnot. exfalso. apply Hnot. right. rewrite Hml. f_equal. lia.
  - eexists _, _. do 4 (split; [first [assumption|reflexivity]|]).
    split; [exact Hl|]. split; [exact Hr'|]. split.
    + intros [Hlim|Hlim]; [contradiction|]. exfalso. apply Hml. rewrite Hlim. f_equal. lia.
    + intros _.
      set (nl := left_node sp n si) in *. set (nr := right_node sp n si) in *.
      set (mg := min_gain_to_split st) in *.
      destruct (classified_node_facts sp mg (shrinkage st) nl) as (A1 & _ & _ & _);
        try reflexivity.
      destruct (classified_node_facts sp mg (shrinkage st) nr) as (B1 & _ & _ & _);
        try reflexivity.
      destruct A1 as (_ & A1 & _). destruct B1 as (_ & B1 & _).
      split; [rewrite A1, B1; exact HK|].
      exists (find_node_split sp (sample_indices nl)),
             (find_node_split sp (sample_indices nr)).
      assert (Sl : split_info (classified_node sp mg (shrinkage st) nl)
                   = Some (find_node_split sp (sample_indices nl))).
      { unfold classified_node. destruct (low_gain sp mg nl); reflexivity. }
      assert (Sr : split_info (classified_node sp mg (shrinkage st) nr)
                   = Some (find_node_split sp (sample_indices nr))).
      { unfold classified_node. destruct (low_gain sp mg nr); reflexivity. }
      split; [exact Sl|]. split; [exact Sr|].
      rewrite HF', HQ''. unfold low_gain.
      destruct (sltb (gain (find_node_split sp (sample_indices nl))) mg),
               (sltb (gain (find_node_split sp (sample_indices nr))) mg);
        cbn [app]; rewrite ?app_nil_r;
        repeat split; intros Hx; try discriminate; try reflexivity;
        rewrite ?elem_of_app, ?elem_of_cons, ?elem_of_nil in *;
        try (exfalso; intuition (try contradiction; lia)); auto.
Qed.

(** ** Growth that must stop *)

(** A measure of the queue: the sum over the queued nodes of a weight
    that only looks at what [TreeNode.__init__] sets. *)
Definition potential (w : TreeNode -> nat) (st : State) : nat :=
  sum_list_with (fun q => match nodes st !! q with
                          | Some m => w m
                          | None => 0%nat
                          end) (splittable_nodes st).

(** The weight of the node that is split pays for the weights of its two
    children, whenever they can be queued. *)
Definition shrinks (a : InitArgs) (w : TreeNode -> nat) : Prop :=
  (forall m m', same_core m' m -> w m' = w m) /\
  forall st p n si,
    reachable a st -> splittable_nodes st !! 0%nat = Some p ->
    nodes st !! p = Some n -> split_info n = Some si ->
    (0 < w n)%nat /\
    (max_depth st <> Some (depth n + 1) ->
     (w (left_node (splitter_of a) n si) + w (right_node (splitter_of a) n si)
      < w n)%nat).

Lemma sum_list_with_ext_in {A : Type} (f g : A -> nat) (l : list A) :
  (forall x, x ∈ l -> f x = g x) -> sum_list_with f l = sum_list_with g l.
Proof.
  induction l as [|x l IH]; intros Hfg; [reflexivity|]. cbn.
  rewrite (Hfg x) by left. rewrite IH; [reflexivity|].
  intros y Hy. apply Hfg. right. exact Hy.
Qed.

Lemma sum_list_with_option (f : node_ref -> nat) (b : bool) (x : node_ref) :
  (sum_list_with f (if b then [] else [x]) <= f x)%nat.
Proof. destruct b; cbn; lia. Qed.

(** Every split lowers the measure. *)
Lemma potential_step (a : InitArgs) (w : TreeNode -> nat) (st st' : State)
      (l r : node_ref) :
  shrinks a w -> reachable a st -> split_next st = (st', Ok (l, r)) ->
  (potential w st' < potential w st)%nat.
Proof.
  intros [Hcore Hshr] Hr E.
  destruct (reachable_wf a st Hr) as [Hwf (C1 & _)]. fold (splitter_of a) in C1.
  destruct (split_next_effect st st' l r Hwf E) as (p & n & si & sp & Q' & Heff).
  destruct (split_effect_nodes _ _ _ _ _ _ _ _ _ Heff)
    as (ml & mr & Hl & Hr' & Cl & Cr & _ & _ & _ & _ & _ & Hold).
  destruct Heff as [Hhead Hrest Hn Hsi Hq Hsp -> -> Hcfg Hw Hnn Hlen Hp Hcase].
  rewrite C1 in Hsp. injection Hsp as <-.
  destruct (Hshr st p n si Hr Hhead Hn Hsi) as [Hpos Hpay].
  assert (HpQ' : p ∉ Q').
  { destruct Hwf as (sp' & _ & I & _).
    pose proof (inv_nodup _ _ _ _ _ _ _ _ _ I) as Hnd.
    apply NoDup_app in Hnd as (Hnd & _ & _). rewrite <- Hrest in Hnd.
    apply NoDup_cons in Hnd as [Hnd _]. exact Hnd. }
  set (f := fun ns : list TreeNode => fun q : node_ref =>
              match ns !! q with
              | Some m => w m
              | None => 0%nat
              end).
  assert (Hsame : sum_list_with (f (nodes st')) Q' = sum_list_with (f (nodes st)) Q').
  { apply sum_list_with_ext_in. intros q HqQ'.
    assert (Hlt : (q < length (nodes st))%nat).
    { apply (wf_queue_facts st q Hwf). rewrite <- Hrest. right. exact HqQ'. }
    destruct (lookup_lt_is_Some_2 (nodes st) q Hlt) as [m Hm].
    destruct (Hold q m Hm) as (m' & Hm' & (Dm & _)).
    { intros ->. contradiction. }
    unfold f. rewrite Hm, Hm'. apply Hcore. exact Dm. }
  assert (Hst : potential w st = (w n + sum_list_with (f (nodes st)) Q')%nat).
  { unfold potential. fold (f (nodes st)). rewrite <- Hrest. cbn. unfold f at 1.
    rewrite Hn. reflexivity. }
  rewrite Hst. unfold potential. fold (f (nodes st')).
  destruct Hcase as [(_ & _ & _ & _ & HQ & _)
                    |[(_ & _ & _ & _ & _ & HQ & _)
                     |(Hmd & _ & _ & _ & _ & HQ & _)]].
  - rewrite HQ, Hsame. lia.
  - rewrite HQ. cbn. lia.
  - rewrite HQ, !sum_list_with_app, Hsame.
    pose proof (sum_list_with_option (f (nodes st'))
                  (low_gain (splitter_of a) (min_gain_to_split st)
                            (right_node (splitter_of a) n si))
                  (S (length (nodes st)))) as Hr1.
    pose proof (sum_list_with_option (f (nodes st'))
                  (low_gain (splitter_of a) (min_gain_to_split st)
                            (left_node (splitter_of a) n si))
                  (length (nodes st))) as Hl1.
    unfold f at 2 in Hr1. unfold f at 2 in Hl1.
    rewrite Hr' in Hr1. rewrite Hl in Hl1.
    rewrite (Hcore _ _ Cr) in Hr1. rewrite (Hcore _ _ Cl) in Hl1.
    specialize (Hpay Hmd). lia.
Qed.

(** With the measure as fuel, [grow] returns. *)
Lemma grow_potential (a : InitArgs) (w : TreeNode -> nat) :
  shrinks a w ->
  forall fuel st,
    reachable a st -> (potential w st <= fuel)%nat ->
    exists st', grow fuel st = (st', Ok tt).
Proof.
  intros Hs. induction fuel as [|fuel IH]; intros st Hr Hfuel;
    destruct (decide (splittable_nodes st = [])) as [EQ|Hne];
    try (exists st; apply grow_done; exact EQ);
    destruct (split_next_ok st (proj1 (reachable_wf a st Hr)) Hne)
      as (st1 & l & r & E1 & _);
    pose proof (potential_step a w st st1 l r Hs Hr E1) as Hdec.
  - lia.
  - destruct (IH st1 (reachable_split a st st1 (l, r) Hr E1)) as (st' & E'); [lia|].
    exists st'. rewrite (grow_step _ _ Hne), (bind_ok _ _ _ _ _ E1). exact E'.
Qed.

(** The splits made and the measure that is left never exceed the
    measure of the new grower. *)
Lemma grown_potential (a : InitArgs) (w : TreeNode -> nat) (k : nat) (st : State) :
  shrinks a w -> grown a k st ->
  exists st0, TreeGrower a = (st0, Ok tt) /\
              (k + potential w st <= potential w st0)%nat.
Proof.
  intros Hs Hg. induction Hg as [st E|k st st' [l r] Hg (st0 & E0 & IH) E].
  - exists st. split; [exact E|]. lia.
  - exists st0. split; [exact E0|].
    pose proof (potential_step a w st st' l r Hs (ex_intro _ k Hg) E). lia.
Qed.

(** The measure of a new grower is the weight of the root, if it is
    queued. *)
Lemma potential_init (a : InitArgs) (w : TreeNode -> nat) (st0 : State) :
  (forall m m', same_core m' m -> w m' = w m) ->
  TreeGrower a = (st0, Ok tt) ->
  (potential w st0 <= w (root_node a (splitter_of a)))%nat.
Proof.
  intros Hcore E.
  destruct (TreeGrower_effect a (TreeGrower_Ok_valid a st0 E))
    as (st & E0 & _ & _ & _ & Hcase).
  rewrite E0 in E. injection E as <-. unfold potential.
  destruct Hcase as [(_ & _ & _ & _ & ->)|(_ & -> & _ & _ & ->)]; [cbn; lia|].
  destruct (classified_node_facts (splitter_of a) (a_min_gain_to_split a)
              (a_shrinkage a) (root_node a (splitter_of a))) as (A1 & _);
    try reflexivity.
  pose proof (Hcore _ _ A1) as Hw.
  destruct (low_gain _ _ _); [cbn; lia|].
  cbn [sum_list_with lookup list_lookup]. rewrite Hw. lia.
Qed.

(** What a bound on the measure gives: [grow] returns, after a bounded
    number of splits, with a bounded number of leaves. *)
Lemma grow_bounded (a : InitArgs) (w : TreeNode -> nat) (st0 : State) :
  shrinks a w -> TreeGrower a = (st0, Ok tt) ->
  let bound := w (root_node a (splitter_of a)) in
  exists st k,
    (forall fuel, (bound <= fuel)%nat -> grow fuel st0 = (st, Ok tt)) /\
    grown a k st /\ (k <= bound)%nat /\ splittable_nodes st = [] /\
    length (finalized_leaves st) = (k + 1)%nat /\
    n_nodes st = 2 * Z.of_nat k + 1.
Proof.
  intros Hs E0 bound.
  pose proof (potential_init a w st0 (proj1 Hs) E0) as Hinit. fold bound in Hinit.
  destruct (grow_potential a w Hs bound st0 (reachable_init a st0 E0) Hinit) as (st & Eg).
  destruct (grow_reachable a _ st0 st (Ok tt) (reachable_init a st0 E0) Eg)
    as [(k & Hk) [[_ HQ]|[Ho _]]]; [|discriminate].
  destruct (grown_potential a w k st Hs Hk) as (st0' & E0' & Hroom).
  rewrite E0 in E0'. injection E0' as <-.
  destruct (grown_wf a k st Hk) as ((sp & _ & I & Hlen) & _ & Hn).
  pose proof (inv_count _ _ _ _ _ _ _ _ _ I) as Hc.
  rewrite HQ in Hc. cbn in Hc.
  exists st, k.
  split; [intros fuel Hfuel; eapply grow_more_fuel; eauto|].
  split; [exact Hk|]. split; [lia|]. split; [exact HQ|]. split; lia.
Qed.

(** *** Under a depth limit *)

(** The number of splits that the subtree of a node can still take
    under the depth limit [d]. *)
Definition room (d : Z) (m : TreeNode) : nat := Z.to_nat (2 ^ (d - depth m) - 1).

Lemma room_child (d e : Z) :
  0 <= e -> e + 1 < d ->
  (Z.to_nat (2 ^ (d - (e + 1)) - 1) + Z.to_nat (2 ^ (d - (e + 1)) - 1)
   < Z.to_nat (2 ^ (d - e) - 1))%nat.
Proof.
  intros He Hd.
  replace (d - e) with (Z.succ (d - (e + 1))) by lia.
  rewrite Z.pow_succ_r by lia.
  assert (0 < 2 ^ (d - (e + 1))) by (apply Z.pow_pos_nonneg; lia).
  lia.
Qed.

Lemma room_positive (d e : Z) : e < d -> (0 < Z.to_nat (2 ^ (d - e) - 1))%nat.
Proof.
  intros Hd.
  replace (d - e) with (Z.succ (d - e - 1)) by lia.
  rewrite Z.pow_succ_r by lia.
  assert (0 < 2 ^ (d - e - 1)) by (apply Z.pow_pos_nonneg; lia).
  lia.
Qed.

Lemma room_shrinks (a : InitArgs) (d : Z) :
  a_max_depth a = Some d -> shrinks a (room d).
Proof.
  intros Hd. split.
  - intros m m' (D & _). unfold room. rewrite D. reflexivity.
  - intros st p n si Hr Hhead Hn Hsi.
    destruct (reachable_wf a st Hr) as [(sp & _ & I & _) (_ & _ & C3 & _)].
    rewrite Hd in C3.
    pose proof (inv_queued _ _ _ _ _ _ _ _ _ I) as HQ. rewrite Forall_forall in HQ.
    destruct (HQ p (list_elem_of_lookup_2 _ _ _ Hhead)) as (n' & Hn' & _ & _ & _ & D0 & D).
    rewrite Hn in Hn'. injection Hn' as <-. specialize (D d C3).
    unfold room. split; [apply room_positive; exact D|].
    intros Hmd. cbn [left_node right_node depth].
    apply room_child; [exact D0|].
    assert (depth n + 1 <> d) by (intros <-; apply Hmd; exact C3). lia.
Qed.

(** X9. A depth limit bounds the tree whatever the splitter returns and
    whether or not a leaf budget is set: with [max_depth = d], [grow]
    returns after at most [2^d - 1] splits, with an empty queue, at most
    [2^d] leaves and at most [2^(d+1) - 1] nodes. *)
Theorem depth_limit_bounds_the_tree (a : InitArgs) (d : Z) (st0 : State) :
  a_max_depth a = Some d -> TreeGrower a = (st0, Ok tt) ->
  exists st k,
    (forall fuel, (Z.to_nat (2 ^ d - 1) <= fuel)%nat -> grow fuel st0 = (st, Ok tt)) /\
    grown a k st /\ Z.of_nat k <= 2 ^ d - 1 /\
    splittable_nodes st = [] /\
    Z.of_nat (length (finalized_leaves st)) <= 2 ^ d /\
    n_nodes st <= 2 ^ (d + 1) - 1.
Proof.
  intros Hd E0.
  destruct (grow_bounded a (room d) st0 (room_shrinks a d Hd) E0)
    as (st & k & Hgrow & Hk & Hle & HQ & HF & Hn).
  unfold room in Hgrow, Hle. cbn [root_node depth] in Hgrow, Hle.
  rewrite Z.sub_0_r in Hgrow, Hle.
  assert (H1 : 1 <= d).
  { pose proof (TreeGrower_Ok_valid a st0 E0) as (_ & _ & Hmd).
    exact (below_one_None _ d Hmd Hd). }
  assert (Hpow : 0 < 2 ^ d) by (apply Z.pow_pos_nonneg; lia).
  assert (Hpow2 : 2 ^ (d + 1) = 2 * 2 ^ d).
  { replace (d + 1) with (Z.succ d) by lia. apply Z.pow_succ_r. lia. }
  exists st, k. split; [exact Hgrow|]. split; [exact Hk|]. split; [lia|].
  split; [exact HQ|]. split; lia.
Qed.

(** *** With a splitter that shrinks the sample sets *)

(** A splitter whose acceptable splits have two non-empty sides that
    share out the samples of the node.  (An assumption on the class of
    splitting.py; the toy splitter meets it.) *)
Definition shrinking_splits (sp : HistogramSplitter) (mg : scalar) : Prop :=
  forall idx,
    sltb (gain (find_node_split sp idx)) mg = false ->
    (length (fst (split_indices sp idx (find_node_split sp idx)))
     + length (snd (split_indices sp idx (find_node_split sp idx)))
     = length idx)%nat /\
    fst (split_indices sp idx (find_node_split sp idx)) <> [] /\
    snd (split_indices sp idx (find_node_split sp idx)) <> [].

(** The number of splits that a set of samples can still take. *)
Definition spare_samples (m : TreeNode) : nat := (length (sample_indices m) - 1)%nat.

Lemma spare_samples_shrinks (a : InitArgs) :
  shrinking_splits (splitter_of a) (a_min_gain_to_split a) ->
  shrinks a spare_samples.
Proof.
  intros Hsh. split.
  - intros m m' (_ & S & _). unfold spare_samples. rewrite S. reflexivity.
  - intros st p n si Hr Hhead Hn Hsi.
    destruct (reachable_wf a st Hr) as [(sp & _ & I & _) (_ & _ & _ & _ & C5 & _)].
    pose proof (reachable_history a st Hr) as [_ _ Hev _ _].
    pose proof (Hev p n Hn si Hsi) as ->.
    pose proof (inv_queued _ _ _ _ _ _ _ _ _ I) as HQ. rewrite Forall_forall in HQ.
    destruct (HQ p (list_elem_of_lookup_2 _ _ _ Hhead)) as (n' & Hn' & (si' & Hsi' & Hg) & _).
    rewrite Hn in Hn'. injection Hn' as <-. rewrite Hsi in Hsi'. injection Hsi' as <-.
    rewrite C5 in Hg.
    destruct (Hsh (sample_indices n) Hg) as (Hsum & Hl & Hr').
    unfold spare_samples. cbn [left_node right_node sample_indices].
    destruct (fst (split_indices _ _ _)) as [|x l]; [congruence|].
    destruct (snd (split_indices _ _ _)) as [|y r]; [congruence|].
    cbn [length] in *. split; [lia|]. intros _. lia.
Qed.

(** X21. No limit is needed for [grow] to stop when the splitter shrinks
    the sample sets: if every split with an acceptable gain has two
    non-empty sides that share out the samples of the node, then [grow]
    returns after at most [n_samples - 1] splits, with an empty queue
    and at most [n_samples] leaves (one leaf if there is no sample). *)
Theorem grow_stops_when_splits_shrink (a : InitArgs) (st0 : State) :
  shrinking_splits (splitter_of a) (a_min_gain_to_split a) ->
  TreeGrower a = (st0, Ok tt) ->
  let n_samples := shape0 (a_features_data a) in
  exists st k,
    (forall fuel, (n_samples - 1 <= fuel)%nat -> grow fuel st0 = (st, Ok tt)) /\
    grown a k st /\ (k <= n_samples - 1)%nat /\
    splittable_nodes st = [] /\
    (length (finalized_leaves st) <= Nat.max 1 n_samples)%nat.
Proof.
  intros Hsh E0 n_samples.
  destruct (grow_bounded a spare_samples st0 (spare_samples_shrinks a Hsh) E0)
    as (st & k & Hgrow & Hk & Hle & HQ & HF & Hn).
  unfold spare_samples in Hgrow, Hle. cbn [root_node sample_indices] in Hgrow, Hle.
  rewrite length_seq in Hgrow, Hle. fold n_samples in Hgrow, Hle.
  exists st, k. split; [exact Hgrow|]. split; [exact Hk|]. split; [exact Hle|].
  split; [exact HQ|]. lia.
Qed.

(** X10. After [k] successful calls of [split_next] the grower holds
    [2 k + 1] nodes, which is what [n_nodes] counts; [k + 1] of them are
    queued or finalized, each in one of the two lists and only once, and
    the other [k] are the nodes that were split. *)
Theorem two_nodes_per_split (a : InitArgs) (k : nat) (st : State) :
  grown a k st ->
  n_nodes st = 2 * Z.of_nat k + 1 /\
  length (nodes st) = (2 * k + 1)%nat /\
  (length (splittable_nodes st) + length (finalized_leaves st) = k + 1)%nat /\
  NoDup (splittable_nodes st ++ finalized_leaves st).
Proof.
  intros Hk. destruct (grown_wf a k st Hk) as ((sp & _ & I & Hlen) & _ & Hn).
  pose proof (inv_count _ _ _ _ _ _ _ _ _ I) as Hc. cbn in Hc.
  pose proof (inv_nodup _ _ _ _ _ _ _ _ _ I) as Hnd. rewrite app_nil_r in Hnd.
  split; [lia|]. split; [lia|]. split; [lia|exact Hnd].
Qed.

(** ** The predictor of an unfinished tree *)

(** A node that is still queued: evaluated, without weight or child. *)
Definition unfinished_node (n : TreeNode) : Prop :=
  weight n = None /\ split_info n <> None /\ left_child n = None.

(** The two exceptions of a walk that runs into a missing child. *)
Definition lookup_error (e : exn) : Prop :=
  exists msg, e = IndexError msg \/ e = AttributeError msg.

(** The walk over a tree with queued nodes: either there is none below
    the node, or the walk raises at the first one, when it steps into the
    child that is not there. *)
Lemma _fill_predictor_node_array_unfinished (ns : list TreeNode) (r : node_ref)
      (t : shape) :
  tree_at ns r t ->
  (forall q, q ∈ ids t -> node_is ns finished_node q \/ node_is ns unfinished_node q) ->
  forall fuel s arr,
    (length (ids t) < fuel)%nat ->
    (s + length (ids t) <= length arr)%nat ->
    (forall i, (s <= i < s + length (ids t))%nat -> arr !! i = Some zero_record) ->
    (forall q, q ∈ ids t -> node_is ns finished_node q)
    \/ exists arr' e,
         _fill_predictor_node_array fuel ns (Some r) s arr = (arr', Raise e) /\
         lookup_error e.
Proof.
  intros Ht. induction Ht as [r n Hn L R|r n l r' a b Hn L R Hta IHa Htb IHb];
    intros Hcl fuel s arr Hfuel Hlen Hzero.
  - (* a node without children *)
    cbn [ids length] in *.
    destruct (Hcl r ltac:(left)) as [Hfin|(n' & Hn' & W & HS & _)].
    { left. intros q Hq. apply list_elem_of_singleton in Hq as ->. exact Hfin. }
    rewrite Hn in Hn'. injection Hn' as <-.
    destruct (split_info n) as [si|] eqn:Esi; [|congruence].
    right.
    destruct fuel as [|[|fuel]]; [lia|lia|].
    assert (Hs : arr !! s = Some zero_record) by (apply Hzero; lia).
    set (rec3 := set_p_left (s + 1)%nat
                   (set_p_bin_threshold (bin_idx si)
                      (set_p_feature_idx (feature_idx si) zero_record))).
    set (arr3 := <[s := rec3]> arr).
    assert (E3 : _fill_predictor_node_array (S (S fuel)) ns (Some r) s arr
                 = (do next <- _fill_predictor_node_array (S fuel) ns None (s + 1)%nat;
                    assign s (set_p_right next) ;;;
                    _fill_predictor_node_array (S fuel) ns (right_child n) next) arr3).
    { cbn [_fill_predictor_node_array].
      rewrite (bind_ok _ _ arr arr zero_record)
        by (unfold getitem; rewrite Hs; reflexivity).
      rewrite (bind_ok _ _ arr arr n) by (rewrite Hn; reflexivity).
      rewrite W, Esi.
      rewrite (bind_ok _ _ arr arr si) by reflexivity.
      rewrite (bind_ok _ _ _ _ _ (assign_run arr s zero_record _ Hs)).
      erewrite bind_ok.
      2:{ apply assign_run. apply list_lookup_insert_eq. apply lookup_lt_Some in Hs. lia. }
      rewrite list_insert_insert_eq.
      erewrite bind_ok.
      2:{ apply assign_run. apply list_lookup_insert_eq. apply lookup_lt_Some in Hs. lia. }
      rewrite list_insert_insert_eq.
      rewrite L. reflexivity. }
    rewrite E3. cbn [_fill_predictor_node_array].
    unfold bind at 1. unfold bind at 1. unfold getitem, raise.
    destruct (arr3 !! (s + 1)%nat) as [x|].
    + eexists _, _. split; [reflexivity|]. eexists. right. reflexivity.
    + eexists _, _. split; [reflexivity|]. eexists. left. reflexivity.
  - (* a node with children *)
    cbn [ids length] in *. rewrite length_app in *.
    destruct fuel as [|fuel]; [lia|].
    destruct (Hcl r ltac:(left)) as [(n' & Hn' & Hfin)|(n' & Hn' & _ & _ & L')];
      rewrite Hn in Hn'; injection Hn' as <-; [|congruence].
    destruct Hfin as [[_ L']|(W & HS & _)]; [congruence|].
    destruct (split_info n) as [si|] eqn:Esi; [|congruence].
    assert (Hs : arr !! s = Some zero_record) by (apply Hzero; lia).
    pose proof (lookup_lt_Some _ _ _ Hs) as Hslen.
    set (rec3 := set_p_left (s + 1)%nat
                   (set_p_bin_threshold (bin_idx si)
                      (set_p_feature_idx (feature_idx si) zero_record))).
    set (arr3 := <[s := rec3]> arr).
    assert (Hlen3 : length arr3 = length arr) by apply length_insert.
    assert (H3 : forall i, i <> s -> arr3 !! i = arr !! i).
    { intros i Hi. apply list_lookup_insert_ne. lia. }
    assert (H3s : arr3 !! s = Some rec3).
    { apply list_lookup_insert_eq. lia. }
    assert (E3 : _fill_predictor_node_array (S fuel) ns (Some r) s arr
                 = (do next <- _fill_predictor_node_array fuel ns (Some l) (s + 1)%nat;
                    assign s (set_p_right next) ;;;
                    _fill_predictor_node_array fuel ns (Some r') next) arr3).
    { cbn [_fill_predictor_node_array].
      rewrite (bind_ok _ _ arr arr zero_record)
        by (unfold getitem; rewrite Hs; reflexivity).
      rewrite (bind_ok _ _ arr arr n) by (rewrite Hn; reflexivity).
      rewrite W, Esi.
      rewrite (bind_ok _ _ arr arr si) by reflexivity.
      rewrite (bind_ok _ _ _ _ _ (assign_run arr s zero_record _ Hs)).
      erewrite bind_ok.
      2:{ apply assign_run. apply list_lookup_insert_eq. lia. }
      rewrite list_insert_insert_eq.
      erewrite bind_ok.
      2:{ apply assign_run. apply list_lookup_insert_eq. lia. }
      rewrite list_insert_insert_eq.
      rewrite L, R. reflexivity. }
    assert (Hza : forall i, (s + 1 <= i < s + 1 + length (ids a))%nat ->
                            arr3 !! i = Some zero_record).
    { intros i Hi. rewrite H3 by lia. apply Hzero. lia. }
    destruct (IHa (fun q Hq => Hcl q ltac:(right; apply elem_of_app; left; exact Hq))
                fuel (s + 1)%nat arr3 ltac:(lia) ltac:(rewrite Hlen3; lia) Hza)
      as [Hfa|(arr' & e & Ea & He)].
    2:{ right. exists arr', e. split; [|exact He].
        rewrite E3. unfold bind at 1. rewrite Ea. reflexivity. }
    destruct (_fill_predictor_node_array_ok ns l a Hta Hfa fuel (s + 1)%nat arr3
                ltac:(lia) ltac:(rewrite Hlen3; lia) Hza)
      as (arr4 & E4 & Hlen4 & H4 & _).
    set (m := (s + 1 + length (ids a))%nat) in *.
    assert (H4s : arr4 !! s = Some rec3).
    { rewrite H4 by lia. exact H3s. }
    set (arr5 := <[s := set_p_right m rec3]> arr4).
    assert (Hlen5 : length arr5 = length arr) by (unfold arr5; rewrite length_insert; lia).
    assert (Hzb : forall i, (m <= i < m + length (ids b))%nat ->
                            arr5 !! i = Some zero_record).
    { intros i Hi. unfold arr5, m in *. rewrite list_lookup_insert_ne by lia.
      rewrite H4 by lia. rewrite H3 by lia. apply Hzero. lia. }
    destruct (IHb (fun q Hq => Hcl q ltac:(right; apply elem_of_app; right; exact Hq))
                fuel m arr5 ltac:(lia) ltac:(rewrite Hlen5; unfold m; lia) Hzb)
      as [Hfb|(arr' & e & Eb & He)].
    + left. intros q Hq. apply elem_of_cons in Hq as [->|Hq].
      * exists n. split; [exact Hn|]. right. rewrite Esi, L.
        split; [exact W|]. split; discriminate.
      * apply elem_of_app in Hq as [Hq|Hq]; auto.
    + right. exists arr', e. split; [|exact He].
      rewrite E3. rewrite (bind_ok _ _ _ _ _ E4).
      rewrite (bind_ok _ _ _ _ _ (assign_run arr4 s rec3 _ H4s)). exact Eb.
Qed.

(** X11. [make_predictor] needs a finished tree.  On a grower that still
    has a node in its queue the walk steps into the missing child of a
    queued node and raises [IndexError] or [AttributeError]; the grower
    itself is not changed. *)
Theorem make_predictor_needs_a_finished_tree (a : InitArgs) (st : State) :
  reachable a st -> splittable_nodes st <> [] ->
  forall fuel, (length (nodes st) < fuel)%nat ->
    exists e, make_predictor fuel st = (st, Raise e) /\
              exists msg, e = IndexError msg \/ e = AttributeError msg.
Proof.
  intros Hr Hne fuel Hfuel.
  destruct (reachable_wf a st Hr) as [Hwf _].
  pose proof Hwf as (sp & Hsp & I & Hn).
  destruct (inv_tree _ _ _ _ _ _ _ _ _ I) as (t & Ht & Hperm).
  assert (Hsize : length (ids t) = length (nodes st)).
  { rewrite Hperm. apply length_seq. }
  assert (Hcl : forall q, q ∈ ids t ->
            node_is (nodes st) finished_node q \/ node_is (nodes st) unfinished_node q).
  { intros q Hq. rewrite Hperm in Hq. apply elem_of_seq in Hq.
    destruct (lookup_lt_is_Some_2 (nodes st) q ltac:(lia)) as [n Hqn].
    destruct (wf_classify st q n Hwf Hqn) as (sp' & _ & Hcase).
    destruct Hcase as [(_ & _ & ((si & HS & _) & W & (L & _) & _))
                      |[(_ & _ & (W & (L & _) & _))
                       |(_ & _ & (W & (si & HS) & (l & r' & L & _) & _))]].
    - right. exists n. split; [exact Hqn|]. unfold unfinished_node. rewrite HS.
      repeat split; auto; discriminate.
    - left. exists n. split; [exact Hqn|]. left. rewrite W. split; [discriminate|exact L].
    - left. exists n. split; [exact Hqn|]. right. rewrite HS, L.
      repeat split; auto; discriminate. }
  destruct (_fill_predictor_node_array_unfinished (nodes st) (root st) t Ht Hcl fuel 0%nat
              (replicate (Z.to_nat (n_nodes st)) zero_record))
    as [Hfin|(arr' & e & E & He)].
  - lia.
  - rewrite length_replicate, Hn, Hsize. lia.
  - intros i Hi. apply lookup_replicate_2. rewrite Hn. lia.
  - exfalso.
    assert (exists q, q ∈ splittable_nodes st) as [q HqQ].
    { destruct (splittable_nodes st) as [|q Q]; [congruence|]. exists q. left. }
    pose proof (wf_queue_facts st q Hwf HqQ) as Hlt.
    destruct (Hfin q) as (n & Hqn & Hf).
    { rewrite Hperm. apply elem_of_seq. lia. }
    pose proof (inv_queued _ _ _ _ _ _ _ _ _ I) as HQ. rewrite Forall_forall in HQ.
    destruct (HQ q HqQ) as (n' & Hn' & _ & W & (L & _) & _).
    rewrite Hqn in Hn'. injection Hn' as <-.
    destruct Hf as [[W' _]|(_ & _ & L')]; congruence.
  - exists e. split; [|exact He]. unfold make_predictor. rewrite E. reflexivity.
Qed.

(** ** Draining the queue *)

(** X12. [_finalize_splittable_nodes] empties the queue from its end:
    the queued nodes are appended to [finalized_leaves] in the reverse of
    their order in the list, each with the weight of the formula,
    whatever its gain; no node is evaluated or created and no other node
    is touched. *)
Theorem queue_is_drained_from_the_end (st : State) (sp : HistogramSplitter) :
  splitter st = Some sp ->
  Forall (fun q => is_Some (nodes st !! q)) (splittable_nodes st) ->
  exists st',
    _finalize_splittable_nodes st = (st', Ok tt) /\
    splittable_nodes st' = [] /\
    finalized_leaves st' = finalized_leaves st ++ reverse (splittable_nodes st) /\
    find_node_split_calls st' = find_node_split_calls st /\
    n_nodes st' = n_nodes st /\ length (nodes st') = length (nodes st) /\
    (forall q, q ∉ splittable_nodes st -> nodes st' !! q = nodes st !! q) /\
    (forall q n, q ∈ splittable_nodes st -> nodes st !! q = Some n ->
       nodes st' !! q =
         Some (set_weight
                 (Some (sdiv (smul (shrinkage st) (sum_gradients n))
                             (sadd (sum_hessians n) (l2_regularization sp)))) n)).
Proof.
  intros Hsp Hval.
  destruct (_finalize_splittable_nodes_effect sp st Hsp Hval)
    as (st' & E & _ & D2 & _ & D4 & D5 & D6 & D7 & D8 & D9).
  exists st'. repeat split; auto.
Qed.

(** ** The links of the predictor array *)

(** In a laid-out array every record is a leaf, or an internal node
    whose left child is the next slot and whose right child is a later
    slot of the same subtree. *)
Lemma laid_out_forward (ns : list TreeNode) (arr : list PredictorRecord)
      (r : node_ref) (s e : nat) :
  laid_out ns arr r s e ->
  forall i, (s <= i < e)%nat ->
    exists rec, arr !! i = Some rec /\
      (p_is_leaf rec = true
       \/ (p_is_leaf rec = false /\ p_left rec = S i /\ (S i < p_right rec < e)%nat)).
Proof.
  intros Hl. induction Hl as [r n w s Hn W Hs|r n si l r' s m e Hn W HS L R Hs Hl IHl Hr IHr];
    intros i Hi.
  - assert (i = s) as -> by lia. exists (leaf_record w). split; [exact Hs|]. left. reflexivity.
  - pose proof (laid_out_lt _ _ _ _ _ Hl). pose proof (laid_out_lt _ _ _ _ _ Hr).
    destruct (decide (i = s)) as [->|Hne].
    { exists (node_record si (S s) m). split; [exact Hs|]. right. cbn. repeat split; lia. }
    destruct (decide (i < m)%nat) as [Hlt|Hge].
    + destruct (IHl i ltac:(lia)) as (rec & Hrec & [Hleaf|(Hnode & Hleft & Hright)]).
      * exists rec. auto.
      * exists rec. split; [exact Hrec|]. right. repeat split; auto; lia.
    + destruct (IHr i ltac:(lia)) as (rec & Hrec & Hcase). exists rec. auto.
Qed.

(** X13. In the predictor array of a finished tree every link points
    forward and stays inside the array: the record in slot [i] is a leaf,
    or its [left] is [i + 1] and its [right] lies strictly between
    [i + 1] and the length of the array.  So a walk that follows the
    links from slot 0 never leaves the array and never comes back to a
    slot. *)
Theorem predictor_links_point_forward (a : InitArgs) (st0 st : State) (fuel0 : nat) :
  reachable a st0 -> grow fuel0 st0 = (st, Ok tt) ->
  forall fuel, (length (nodes st) <= fuel)%nat ->
    exists arr,
      make_predictor fuel st = (st, Ok arr) /\
      forall i rec, arr !! i = Some rec ->
        p_is_leaf rec = true
        \/ (p_is_leaf rec = false /\ p_left rec = S i /\
            (S i < p_right rec < length arr)%nat).
Proof.
  intros Hr E fuel Hfuel.
  destruct (grow_reachable a fuel0 st0 st (Ok tt) Hr E) as [Hr' [[_ HQ]|[Ho _]]];
    [|discriminate].
  destruct (reachable_wf a st Hr') as [Hwf _].
  pose proof Hwf as (sp & Hsp & I & Hn).
  destruct (inv_tree _ _ _ _ _ _ _ _ _ I) as (t & Ht & Hperm).
  assert (Hsize : length (ids t) = length (nodes st)).
  { rewrite Hperm. apply length_seq. }
  assert (Hfin : forall q, q ∈ ids t -> node_is (nodes st) finished_node q).
  { intros q Hq. rewrite Hperm in Hq. apply elem_of_seq in Hq.
    destruct (lookup_lt_is_Some_2 (nodes st) q ltac:(lia)) as [n Hqn].
    exists n. split; [exact Hqn|].
    destruct (wf_classify st q n Hwf Hqn) as (sp' & _ & Hcase).
    destruct Hcase as [(HqQ & _)|[(_ & _ & (W & (L & _) & _))
                                 |(_ & _ & (W & (si & HS) & (l & r' & L & _) & _))]].
    - rewrite HQ in HqQ. apply elem_of_nil in HqQ. contradiction.
    - left. rewrite W. split; [discriminate|exact L].
    - right. rewrite HS, L. repeat split; auto; discriminate. }
  destruct (_fill_predictor_node_array_ok (nodes st) (root st) t Ht Hfin fuel 0%nat
              (replicate (Z.to_nat (n_nodes st)) zero_record))
    as (arr & Efill & Hlen & _ & Hlo).
  - lia.
  - rewrite length_replicate, Hn, Hsize. lia.
  - intros i Hi. apply lookup_replicate_2. rewrite Hn. lia.
  - rewrite length_replicate in Hlen.
    assert (Hlen' : length arr = length (ids t)) by (rewrite Hlen, Hn, Hsize; lia).
    exists arr. split.
    + unfold make_predictor. rewrite Efill. reflexivity.
    + intros i rec Hrec. cbn in Hlo. rewrite <- Hlen' in Hlo.
      destruct (laid_out_forward _ _ _ _ _ Hlo i) as (rec' & Hrec' & Hcase).
      { apply lookup_lt_Some in Hrec. lia. }
      rewrite Hrec in Hrec'. injection Hrec' as <-. exact Hcase.
Qed.

(** ** The text of a node *)

(** The character that separates the fields. *)
Definition comma : Ascii.ascii :=
  match ","%string with
  | String c _ => c
  | EmptyString => Ascii.zero
  end.

Fixpoint no_comma (s : string) : Prop :=
  match s with
  | EmptyString => True
  | String c s' => c <> comma /\ no_comma s'
  end.

(** Empty, or starting with a comma. *)
Definition comma_or_end (s : string) : Prop :=
  match s with
  | EmptyString => True
  | String c _ => c = comma
  end.

Lemma string_app_assoc (s1 s2 s3 : string) :
  ((s1 ++ s2) ++ s3 = s1 ++ s2 ++ s3)%string.
Proof. induction s1 as [|c s1 IH]; cbn; [reflexivity|]. rewrite IH. reflexivity. Qed.

Lemma no_comma_uint (d : Decimal.uint) : no_comma (NilEmpty.string_of_uint d).
Proof. induction d; cbn; auto; split; auto; discriminate. Qed.

Lemma no_comma_str_of_Z (z : Z) : no_comma (str_of_Z z).
Proof.
  unfold str_of_Z, NilZero.string_of_int, NilZero.string_of_uint.
  destruct (Z.to_int z) as [d|d]; destruct d; cbn; repeat split;
    try discriminate; apply no_comma_uint.
Qed.

Lemma str_of_Z_inj (z z' : Z) : str_of_Z z = str_of_Z z' -> z = z'.
Proof.
  unfold str_of_Z. intros E.
  assert (Hnn : forall x, Z.to_int x <> Decimal.Pos Decimal.Nil /\
                          Z.to_int x <> Decimal.Neg Decimal.Nil).
  { intros [|p|p]; cbn; split; try discriminate; intros [= Hp];
      exact (DecimalPos.Unsigned.to_uint_nonnil p Hp). }
  apply DecimalZ.to_int_inj.
  pose proof (NilZero.isi (Z.to_int z) (proj1 (Hnn z)) (proj2 (Hnn z))) as E1.
  pose proof (NilZero.isi (Z.to_int z') (proj1 (Hnn z')) (proj2 (Hnn z'))) as E2.
  rewrite E in E1. rewrite E1 in E2. injection E2 as E2. exact E2.
Qed.

(** Two texts that agree are cut at the same place by the first comma. *)
Lemma cut_at_comma (s1 s2 t1 t2 : string) :
  no_comma s1 -> no_comma s2 -> comma_or_end t1 -> comma_or_end t2 ->
  (s1 ++ t1 = s2 ++ t2)%string -> s1 = s2 /\ t1 = t2.
Proof.
  revert s2. induction s1 as [|c s1 IH]; intros [|c' s2] H1 H2 T1 T2 E;
    cbn [String.append no_comma] in *.
  - auto.
  - destruct t1 as [|x t1]; [discriminate|]. injection E as -> _.
    destruct H2 as [H2 _]. cbn in T1. contradiction.
  - destruct t2 as [|x t2]; [discriminate|]. injection E as -> _.
    destruct H1 as [H1 _]. cbn in T2. contradiction.
  - injection E as -> E. destruct H1 as [_ H1]. destruct H2 as [_ H2].
    destruct (IH s2 H1 H2 T1 T2 E) as [-> ->]. auto.
Qed.

(** X14. The text of a node starts with [TreeNode: depth=] and shows the
    depth, the number of samples and, once the node is evaluated, the
    feature and the bin of its split, as decimal numbers; so two nodes
    have the same text only if they agree on all of these, and a node
    that is evaluated never prints like one that is not. *)
Theorem TreeNode_repr_shows_the_node (n1 n2 : TreeNode) :
  TreeNode_repr n1 = TreeNode_repr n2 ->
  depth n1 = depth n2 /\
  length (sample_indices n1) = length (sample_indices n2) /\
  match split_info n1, split_info n2 with
  | Some s1, Some s2 => feature_idx s1 = feature_idx s2 /\ bin_idx s1 = bin_idx s2
  | None, None => True
  | _, _ => False
  end.
Proof.
  unfold TreeNode_repr. intros E.
  set (T := fun o : option SplitInfo =>
              match o with
              | Some si => (", feature_idx=" ++ str_of_Z (feature_idx si)
                            ++ ", bin_idx=" ++ str_of_Z (bin_idx si))%string
              | None => EmptyString
              end).
  assert (Hform : forall n,
    match split_info n with
    | Some si =>
        (((("TreeNode: depth=" ++ str_of_Z (depth n) ++ ", ") ++ "samples="
           ++ str_of_Z (Z.of_nat (length (sample_indices n))))
          ++ ", feature_idx=" ++ str_of_Z (feature_idx si))
         ++ ", bin_idx=" ++ str_of_Z (bin_idx si))%string
    | None =>
        (("TreeNode: depth=" ++ str_of_Z (depth n) ++ ", ") ++ "samples="
         ++ str_of_Z (Z.of_nat (length (sample_indices n))))%string
    end
    = ("TreeNode: depth="
       ++ str_of_Z (depth n)
       ++ (", samples="
           ++ str_of_Z (Z.of_nat (length (sample_indices n))) ++ T (split_info n)))%string).
  { intros n. unfold T. destruct (split_info n) as [si|].
    - rewrite !string_app_assoc. reflexivity.
    - assert (Hnil : forall s : string, (s ++ "")%string = s).
      { induction s as [|c s IH]; cbn; [reflexivity|]. rewrite IH. reflexivity. }
      rewrite !string_app_assoc, Hnil. reflexivity. }
  cbv zeta in E. rewrite (Hform n1), (Hform n2) in E.
  cbn in E. injection E as E.
  apply cut_at_comma in E as [Ed E]; try apply no_comma_str_of_Z; try reflexivity.
  cbn in E. injection E as E.
  assert (HT : forall o, comma_or_end (T o)). { intros [si|]; reflexivity. }
  apply cut_at_comma in E as [En E]; try apply no_comma_str_of_Z; try apply HT.
  split; [apply str_of_Z_inj; exact Ed|].
  split; [apply Nat2Z.inj, str_of_Z_inj; exact En|].
  unfold T in E. destruct (split_info n1) as [s1|], (split_info n2) as [s2|];
    try discriminate; [|exact I].
  cbn in E. injection E as E.
  apply cut_at_comma in E as [Ef E]; try apply no_comma_str_of_Z; try reflexivity.
  cbn in E. injection E as E.
  split; apply str_of_Z_inj; assumption.
Qed.

(** ** The leaf budget, at any time *)

Lemma grown_budget_inv (a : InitArgs) (k : Z) (n : nat) (st : State) :
  a_max_leaf_nodes a = Some k -> 2 <= k -> a_max_depth a = None ->
  grown a n st -> budget_inv k st.
Proof.
  intros Hml Hk Hmd Hg. induction Hg as [st E|n st st' [l r] Hg IH E].
  - destruct (TreeGrower_ok a (TreeGrower_Ok_valid a st E))
      as (st0 & E0 & _ & _ & Hone & Hlow & _).
    rewrite E0 in E. injection E as <-.
    left. split; [lia|]. apply Hlow. rewrite Hml. intros [= ->]. lia.
  - destruct (grown_wf a n st Hg) as (Hwf & (_ & C2 & C3 & _) & _).
    rewrite Hml in C2. rewrite Hmd in C3.
    assert (Hne : splittable_nodes st <> []).
    { intros EQ. unfold split_next, bind, gets, raise in E. rewrite EQ in E. discriminate. }
    pose proof (split_next_step st st' (l, r) Hwf E) as Hstep.
    apply (budget_step k st st' l r Hwf C2 C3 Hne IH Hstep).
Qed.

(** X15. Without a depth limit the leaf budget holds at every moment,
    not only when [grow] returns: with [max_leaf_nodes = k] the queued
    nodes and the finalized leaves together are never more than [k],
    after the constructor and after every [split_next]; so the grower
    never holds more than [2 k - 1] nodes. *)
Theorem leaf_budget_is_never_exceeded (a : InitArgs) (k : Z) (st : State) :
  a_max_leaf_nodes a = Some k -> a_max_depth a = None -> reachable a st ->
  Z.of_nat (length (splittable_nodes st) + length (finalized_leaves st)) <= k /\
  n_nodes st <= 2 * k - 1.
Proof.
  intros Hml Hmd Hr.
  assert (Hnodes : n_nodes st
                   = 2 * Z.of_nat (length (splittable_nodes st)
                                   + length (finalized_leaves st)) - 1).
  { destruct (reachable_wf a st Hr) as [(sp & _ & I & Hn) _].
    pose proof (inv_count _ _ _ _ _ _ _ _ _ I) as Hc. cbn in Hc. lia. }
  enough (Z.of_nat (length (splittable_nodes st) + length (finalized_leaves st)) <= k)
    by (split; [assumption|lia]).
  clear Hnodes. destruct Hr as (n & Hg).
  destruct (Z.le_gt_cases 2 k) as [Hk|Hk].
  - destruct (grown_budget_inv a k n st Hml Hk Hmd Hg) as [[Hlt _]|[HQ Heq]];
      [lia|rewrite HQ; cbn [length]; lia].
  - (* a budget of one leaf: the root is finalized and nothing is ever split *)
    assert (Hone : splittable_nodes st = [] /\ length (finalized_leaves st) = 1%nat /\ k = 1).
    { induction Hg as [st E|n st st' [l r] Hg IH E].
      - pose proof (TreeGrower_Ok_valid a st E) as Hv.
        pose proof Hv as (_ & Hb & _).
        pose proof (below_one_None _ k Hb Hml) as Hk1.
        destruct (TreeGrower_effect a Hv) as (st0 & E0 & _ & _ & _ & Hcase).
        rewrite E0 in E. injection E as <-.
        destruct Hcase as [(_ & _ & _ & -> & ->)|(Hne & _)].
        + repeat split; lia.
        + exfalso. apply Hne. rewrite Hml. f_equal. lia.
      - destruct IH as (EQ & _).
        unfold split_next, bind, gets, raise in E. rewrite EQ in E. discriminate. }
    destruct Hone as (-> & -> & ->). cbn. lia.
Qed.

(** X16. What a split does with the rest of the queue.  The node that is
    split leaves the queue for good.  The queue is drained only when the
    children are above [max_depth] and bring the number of leaves to
    [max_leaf_nodes]: then every node still queued becomes a finalized
    leaf.  In every other case, also when the children are at
    [max_depth] and the budget is met by the same split, the other
    queued nodes stay queued, and the only nodes that can enter the
    queue are the two children. *)
Theorem queue_after_a_split (a : InitArgs) (st st' : State) (l r : node_ref) :
  reachable a st -> split_next st = (st', Ok (l, r)) ->
  exists p n,
    splittable_nodes st !! 0%nat = Some p /\ nodes st !! p = Some n /\
    (p ∉ splittable_nodes st') /\ (p ∉ finalized_leaves st') /\
    let drained :=
      max_depth st <> Some (depth n + 1) /\
      max_leaf_nodes st
      = Some (Z.of_nat (length (finalized_leaves st))
              + Z.of_nat (length (splittable_nodes st)) + 1) in
    (drained ->
     splittable_nodes st' = [] /\
     (forall q, q ∈ splittable_nodes st -> q <> p -> q ∈ finalized_leaves st') /\
     length (finalized_leaves st')
     = (length (finalized_leaves st) + length (splittable_nodes st) + 1)%nat) /\
    (~ drained ->
     (forall q, q ∈ splittable_nodes st -> q <> p -> q ∈ splittable_nodes st') /\
     (forall q, q ∈ splittable_nodes st' ->
        q ∈ splittable_nodes st \/ q = l \/ q = r)).
Proof.
  intros Hr E. destruct (reachable_wf a st Hr) as [Hwf _].
  destruct (split_next_effect st st' l r Hwf E) as (p & n & si & sp & Q' & Heff).
  destruct Heff as [Hhead Hrest Hn Hsi Hq Hsp -> -> Hcfg Hw Hnn Hlen Hp Hcase].
  set (len := length (nodes st)) in *.
  assert (HlenQ : length (splittable_nodes st) = S (length Q')).
  { rewrite <- Hrest. reflexivity. }
  assert (Hplen : (p < len)%nat) by (eapply lookup_lt_Some; eauto).
  assert (HpQ' : p ∉ Q').
  { destruct Hwf as (sp' & _ & I & _).
    pose proof (inv_nodup _ _ _ _ _ _ _ _ _ I) as Hnd.
    apply NoDup_app in Hnd as (Hnd & _ & _). rewrite <- Hrest in Hnd.
    apply NoDup_cons in Hnd as [Hnd _]. exact Hnd. }
  assert (HpF : p ∉ finalized_leaves st).
  { intros HpF. destruct (wf_leaf_facts st p Hwf HpF) as [_ HpQ].
    apply HpQ. rewrite <- Hrest. left. }
  assert (Hin : forall q, q ∈ splittable_nodes st -> q <> p -> q ∈ Q').
  { intros q HqQ Hqp. rewrite <- Hrest in HqQ.
    apply elem_of_cons in HqQ as [->|HqQ]; [contradiction|exact HqQ]. }
  exists p, n. split; [exact Hhead|]. split; [exact Hn|].
  destruct Hcase as [(Hmd & _ & _ & HF' & HQ'' & _)
                    |[(Hmd & Hml & _ & _ & HF' & HQ'' & _)
                     |(Hmd & Hml & _ & _ & HF' & HQ'' & _)]].
  - split; [rewrite HQ''; exact HpQ'|]. split.
    { rewrite HF', elem_of_app, !elem_of_cons, elem_of_nil. intros [?|[?|[?|?]]];
        [contradiction|lia|lia|contradiction]. }
    split.
    + intros [Hno _]. contradiction.
    + intros _. rewrite HQ''. split.
      * exact Hin.
      * intros q Hq'. left. rewrite <- Hrest. right. exact Hq'.
  - split; [rewrite HQ''; apply not_elem_of_nil|]. split.
    { rewrite HF', !elem_of_app, !elem_of_cons, elem_of_nil, elem_of_reverse.
      intros [?|[[?|[?|?]]|?]]; try contradiction; lia. }
    split.
    + intros _. split; [exact HQ''|]. split.
      * intros q HqQ Hqp. rewrite HF', !elem_of_app, elem_of_reverse.
        right. right. apply Hin; assumption.
      * rewrite HF', !length_app, length_reverse, HlenQ. cbn. lia.
    + intros Hnot. exfalso. apply Hnot. split; [exact Hmd|].
      rewrite Hml. f_equal. lia.
  - assert (Hsub : forall q, q ∈ Q' -> q ∈ splittable_nodes st').
    { intros q Hq'. rewrite HQ'', !elem_of_app. right. right. exact Hq'. }
    assert (Hsup : forall q, q ∈ splittable_nodes st' -> q ∈ Q' \/ q = len \/ q = S len).
    { intros q. rewrite HQ'', !elem_of_app.
      intros [Hx|[Hx|Hx]]; [right; right|right; left|left; exact Hx].
      - destruct (low_gain sp (min_gain_to_split st) (right_node sp n si));
          [apply elem_of_nil in Hx; contradiction|].
        apply list_elem_of_singleton in Hx. exact Hx.
      - destruct (low_gain sp (min_gain_to_split st) (left_node sp n si));
          [apply elem_of_nil in Hx; contradiction|].
        apply list_elem_of_singleton in Hx. exact Hx. }
    split.
    { intros HpQ. destruct (Hsup p HpQ) as [?|[?|?]]; [contradiction|lia|lia]. }
    split.
    { rewrite HF', !elem_of_app. intros [?|[Hx|Hx]]; [contradiction| |].
      - destruct (low_gain sp (min_gain_to_split st) (left_node sp n si));
          [|apply elem_of_nil in Hx; contradiction].
        apply list_elem_of_singleton in Hx. lia.
      - destruct (low_gain sp (min_gain_to_split st) (right_node sp n si));
          [|apply elem_of_nil in Hx; contradiction].
        apply list_elem_of_singleton in Hx. lia. }
    split.
    + intros [_ Hlim]. exfalso. apply Hml. rewrite Hlim. f_equal. lia.
    + intros _. split.
      * intros q HqQ Hqp. apply Hsub, Hin; assumption.
      * intros q Hq'. destruct (Hsup q Hq') as [Hx|[->| ->]]; auto.
        left. rewrite <- Hrest. right. exact Hx.
Qed.

(** X17. At every moment each node is in exactly one of three states:
    queued (in the queue, evaluated, no weight, no child), a finalized
    leaf (in [finalized_leaves], a weight, no child), or split (in
    neither list, no weight, evaluated, two children).  The children of
    a node were created after it: their references are greater. *)
Theorem every_node_has_one_state (a : InitArgs) (st : State) (q : node_ref)
        (m : TreeNode) :
  reachable a st -> nodes st !! q = Some m ->
  (q ∈ splittable_nodes st /\ (q ∉ finalized_leaves st) /\
   weight m = None /\ split_info m <> None /\
   left_child m = None /\ right_child m = None)
  \/ (q ∈ finalized_leaves st /\ (q ∉ splittable_nodes st) /\
      weight m <> None /\ left_child m = None /\ right_child m = None)
  \/ ((q ∉ splittable_nodes st) /\ (q ∉ finalized_leaves st) /\
      weight m = None /\ split_info m <> None /\
      exists l r, left_child m = Some l /\ right_child m = Some r /\
                  (q < l < length (nodes st))%nat /\ (q < r < length (nodes st))%nat).
Proof.
  intros Hr Hm. destruct (reachable_wf a st Hr) as [Hwf _].
  destruct (wf_classify st q m Hwf Hm) as (sp & _ & Hcase).
  destruct Hcase as [(HQ & HF & ((si & HS & _) & W & (L & R) & _))
                    |[(HF & HQ & (W & (L & R) & _))
                     |(HQ & HF & (W & (si & HS) & (l & r & L & R & Hl & Hr') & _))]].
  - left. rewrite HS. repeat split; auto; discriminate.
  - right. left. rewrite W. repeat split; auto; discriminate.
  - right. right. rewrite HS. do 3 (split; [assumption|]).
    split; [discriminate|]. exists l, r. auto.
Qed.

(** ** The queue, at any time *)

(** X18. The queue is kept the way [heapq] needs it.  Any two queued
    nodes can be compared: [<] does not raise on them, so the
    [ValueError] of [TreeNode.__lt__] is never met by the grower itself.
    And if [<] on gains is an order, the list is a binary heap at every
    moment: the gain of the node at index [i] is not greater than the
    gain of the node at index [(i - 1) / 2], and so no queued node has a
    greater gain than the first one. *)
Theorem queue_is_a_heap (a : InitArgs) (st : State) :
  reachable a st ->
  (forall x y, x ∈ splittable_nodes st -> y ∈ splittable_nodes st ->
     exists mx my sx sy,
       nodes st !! x = Some mx /\ nodes st !! y = Some my /\
       split_info mx = Some sx /\ split_info my = Some sy /\
       ref_lt (nodes st) x y = Ok (sltb (gain sy) (gain sx))) /\
  (scalar_order ->
   forall i x y mx my sx sy,
     splittable_nodes st !! i = Some x ->
     nodes st !! x = Some mx -> split_info mx = Some sx ->
     nodes st !! y = Some my -> split_info my = Some sy ->
     (splittable_nodes st !! ((i - 1) / 2)%nat = Some y \/
      splittable_nodes st !! 0%nat = Some y) ->
     sltb (gain sy) (gain sx) = false).
Proof.
  intros Hr. destruct (reachable_wf a st Hr) as [(sp & _ & I & _) _].
  pose proof (inv_queued _ _ _ _ _ _ _ _ _ I) as HQ.
  assert (Hev : Forall (evaluated (nodes st)) (splittable_nodes st)).
  { eapply Forall_impl; [exact HQ|].
    intros q (m & Hm & (sq & Hsq & _) & _). exists m, sq. auto. }
  rewrite Forall_forall in Hev.
  split.
  - intros x y Hx Hy.
    destruct (Hev x Hx) as (mx & sx & Hmx & Hsx).
    destruct (Hev y Hy) as (my & sy & Hmy & Hsy).
    exists mx, my, sx, sy. repeat split; auto.
    unfold ref_lt, TreeNode_lt. rewrite Hmx, Hmy, Hsx, Hsy. reflexivity.
  - intros Hord i x y mx my sx sy Hx Hmx Hsx Hmy Hsy [Hy|Hy].
    + destruct (decide (i = 0)%nat) as [->|Hi].
      * cbn in Hy. rewrite Hx in Hy. injection Hy as <-.
        rewrite Hmx in Hmy. injection Hmy as <-. rewrite Hsx in Hsy. injection Hsy as <-.
        destruct Hord as [Hasym _].
        destruct (sltb (gain sx) (gain sx)) eqn:E; [|reflexivity].
        rewrite (Hasym _ _ E) in E. discriminate.
      * pose proof (inv_heap _ _ _ _ _ _ _ _ _ I Hord i ltac:(lia) x y Hx Hy) as Hh.
        unfold ref_ltb, sgtb in Hh. rewrite Hmx, Hmy, Hsx, Hsy in Hh. exact Hh.
    + pose proof (heap_root_min (ref_ltb (nodes st)) (evaluated (nodes st))
                    (splittable_nodes st) y (scalar_order_laws (nodes st) Hord)
                    ltac:(apply Forall_forall; exact Hev)
                    (inv_heap _ _ _ _ _ _ _ _ _ I Hord) Hy i x Hx) as Hmin.
      unfold ref_ltb, sgtb in Hmin. rewrite Hmx, Hmy, Hsx, Hsy in Hmin. exact Hmin.
Qed.

(** ** [grow] and [split_next] *)


(** ** The leaves of the predictor array *)

(** The number of leaf records in the slots [s] up to [e] (excluded). *)
Definition leaf_records (arr : list PredictorRecord) (s e : nat) : nat :=
  sum_list_with (fun rec : PredictorRecord => if p_is_leaf rec then 1%nat else 0%nat)
                (take (e - s) (drop s arr)).

Lemma leaf_records_one (arr : list PredictorRecord) (s : nat) (rec : PredictorRecord) :
  arr !! s = Some rec ->
  leaf_records arr s (S s) = if p_is_leaf rec then 1%nat else 0%nat.
Proof.
  intros Hs. unfold leaf_records. replace (S s - s)%nat with 1%nat by lia.
  assert (Hd : drop s arr !! 0%nat = Some rec).
  { rewrite lookup_drop, Nat.add_0_r. exact Hs. }
  destruct (drop s arr) as [|x l]; [discriminate|].
  cbn in Hd. injection Hd as ->. cbn. destruct (p_is_leaf rec); reflexivity.
Qed.

Lemma leaf_records_split (arr : list PredictorRecord) (s m e : nat) :
  (s <= m <= e)%nat ->
  leaf_records arr s e = (leaf_records arr s m + leaf_records arr m e)%nat.
Proof.
  intros Hm. unfold leaf_records.
  replace (e - s)%nat with ((m - s) + (e - m))%nat by lia.
  rewrite <- take_take_drop, sum_list_with_app, drop_drop.
  replace (s + (m - s))%nat with m by lia. reflexivity.
Qed.

(** A laid-out subtree has one leaf record more than internal records. *)
Lemma laid_out_leaf_records (ns : list TreeNode) (arr : list PredictorRecord)
      (r : node_ref) (s e : nat) :
  laid_out ns arr r s e -> (e - s + 1 = 2 * leaf_records arr s e)%nat.
Proof.
  intros Hl. induction Hl as [r n w s Hn W Hs|r n si l r' s m e Hn W HS L R Hs Hl IHl Hr IHr].
  - rewrite (leaf_records_one arr s _ Hs). cbn. lia.
  - pose proof (laid_out_lt _ _ _ _ _ Hl). pose proof (laid_out_lt _ _ _ _ _ Hr).
    rewrite (leaf_records_split arr s (S s) e) by lia.
    rewrite (leaf_records_split arr (S s) m e) by lia.
    rewrite (leaf_records_one arr s _ Hs). cbn [node_record p_is_leaf]. lia.
Qed.

(** X20. The predictor array of a finished tree holds one record per
    node and exactly one leaf record per finalized leaf; the other
    records, one less, are those of the nodes that were split. *)
Theorem predictor_has_one_leaf_record_per_leaf (a : InitArgs) (st0 st : State)
        (fuel0 : nat) :
  reachable a st0 -> grow fuel0 st0 = (st, Ok tt) ->
  forall fuel, (length (nodes st) <= fuel)%nat ->
    exists arr,
      make_predictor fuel st = (st, Ok arr) /\
      length arr = length (nodes st) /\
      length (filter (fun rec => p_is_leaf rec = true) arr)
      = length (finalized_leaves st) /\
      (length (filter (fun rec => p_is_leaf rec = false) arr) + 1
       = length (finalized_leaves st))%nat.
Proof.
  intros Hr E fuel Hfuel.
  destruct (grow_reachable a fuel0 st0 st (Ok tt) Hr E) as [Hr' [[_ HQ]|[Ho _]]];
    [|discriminate].
  destruct (reachable_wf a st Hr') as [Hwf _].
  pose proof Hwf as (sp & Hsp & I & Hn).
  destruct (inv_tree _ _ _ _ _ _ _ _ _ I) as (t & Ht & Hperm).
  pose proof (inv_count _ _ _ _ _ _ _ _ _ I) as Hc. rewrite HQ in Hc. cbn in Hc.
  assert (Hsize : length (ids t) = length (nodes st)).
  { rewrite Hperm. apply length_seq. }
  assert (Hfin : forall q, q ∈ ids t -> node_is (nodes st) finished_node q).
  { intros q Hq. rewrite Hperm in Hq. apply elem_of_seq in Hq.
    destruct (lookup_lt_is_Some_2 (nodes st) q ltac:(lia)) as [n Hqn].
    exists n. split; [exact Hqn|].
    destruct (wf_classify st q n Hwf Hqn) as (sp' & _ & Hcase).
    destruct Hcase as [(HqQ & _)|[(_ & _ & (W & (L & _) & _))
                                 |(_ & _ & (W & (si & HS) & (l & r' & L & _) & _))]].
    - rewrite HQ in HqQ. apply elem_of_nil in HqQ. contradiction.
    - left. rewrite W. split; [discriminate|exact L].
    - right. rewrite HS, L. repeat split; auto; discriminate. }
  destruct (_fill_predictor_node_array_ok (nodes st) (root st) t Ht Hfin fuel 0%nat
              (replicate (Z.to_nat (n_nodes st)) zero_record))
    as (arr & Efill & Hlen & _ & Hlo).
  - lia.
  - rewrite length_replicate, Hn, Hsize. lia.
  - intros i Hi. apply lookup_replicate_2. rewrite Hn. lia.
  - rewrite length_replicate in Hlen.
    assert (Hlen' : length arr = length (nodes st)) by (rewrite Hlen, Hn; lia).
    exists arr. split; [unfold make_predictor; rewrite Efill; reflexivity|].
    split; [exact Hlen'|].
    cbn in Hlo. rewrite Hsize, <- Hlen' in Hlo.
    pose proof (laid_out_leaf_records _ _ _ _ _ Hlo) as Hcount.
    unfold leaf_records in Hcount. rewrite Nat.sub_0_r, drop_0, firstn_all in Hcount.
    assert (Hpart : forall l : list PredictorRecord,
              length (filter (fun rec => p_is_leaf rec = true) l)
              = sum_list_with (fun rec : PredictorRecord =>
                                 if p_is_leaf rec then 1%nat else 0%nat) l /\
              (length (filter (fun rec => p_is_leaf rec = true) l)
               + length (filter (fun rec => p_is_leaf rec = false) l) = length l)%nat).
    { induction l as [|x l [IH1 IH2]]; [split; reflexivity|].
      rewrite !filter_cons. cbn [sum_list_with length].
      destruct (p_is_leaf x) eqn:Ex.
      - rewrite decide_True by reflexivity. rewrite decide_False by discriminate.
        cbn [length]. split; lia.
      - rewrite decide_False by discriminate. rewrite decide_True by reflexivity.
        cbn [length]. split; lia. }
    destruct (Hpart arr) as [P1 P2]. lia.
Qed.

End GrowerProofs.

(** * The laws on the toy grower

    Every law is run once on a concrete grower: rational scalars, the toy
    splitter, eight samples. *)

Section Witnesses.
#[local] Existing Instance QScalar.
#[local] Existing Instance ToyAPI.

Lemma toy_init_ok (a : InitArgs) :
  snd (TreeGrower a) = Ok tt -> TreeGrower a = (toy_init a, Ok tt).
Proof.
  unfold toy_init. destruct (TreeGrower a) as [st o]. cbn. intros ->. reflexivity.
Qed.

Lemma toy_final_ok (a : InitArgs) :
  snd (grow 100 (toy_init a)) = Ok tt -> grow 100 (toy_init a) = (toy_final a, Ok tt).
Proof.
  unfold toy_final. destruct (grow 100 (toy_init a)) as [st o]. cbn. intros ->. reflexivity.
Qed.

Lemma toy_after_ok (k : nat) (a : InitArgs) :
  bool_decide (is_Some (split_times k (toy_init a))) = true ->
  split_times k (toy_init a) = Some (toy_after k a).
Proof.
  intros Hk. apply bool_decide_eq_true in Hk as [st Hst].
  unfold toy_after. rewrite Hst. reflexivity.
Qed.

Lemma toy_node_ok (st : State) (r : node_ref) :
  bool_decide (is_Some (nodes st !! r)) = true ->
  nodes st !! r = Some (toy_node st r).
Proof.
  intros Hr. apply bool_decide_eq_true in Hr as [n Hn].
  unfold toy_node. rewrite Hn. reflexivity.
Qed.

Lemma nonempty_queue (st : State) :
  (0 <? length (splittable_nodes st))%nat = true -> splittable_nodes st <> [].
Proof.
  intros Hl E. rewrite E in Hl. discriminate.
Qed.

Lemma Qlt_scalar_order : scalar_order.
Proof.
  split.
  - intros x y Hxy. cbn in *.
    apply negb_true_iff in Hxy. apply negb_false_iff.
    apply Qle_bool_iff. destruct (Qlt_le_dec y x) as [Hlt|Hle]; [|exact Hle].
    exfalso. apply Qlt_le_weak in Hlt. apply Qle_bool_iff in Hlt. congruence.
  - intros x y z Hxy Hyz. cbn in *.
    apply negb_false_iff in Hxy, Hyz. apply negb_false_iff.
    apply Qle_bool_iff in Hxy, Hyz. apply Qle_bool_iff.
    eapply Qle_trans; eauto.
Qed.

Lemma toy_final_reachable (a : InitArgs) :
  snd (TreeGrower a) = Ok tt -> reachable a (toy_final a).
Proof.
  intros E. pose proof (reachable_init a _ (toy_init_ok a E)) as Hr.
  apply (grow_reachable a 100 (toy_init a) (toy_final a) (snd (grow 100 (toy_init a))) Hr).
  unfold toy_final. destruct (grow 100 (toy_init a)); reflexivity.
Qed.

Lemma toy_after_reachable (k : nat) (a : InitArgs) :
  snd (TreeGrower a) = Ok tt ->
  bool_decide (is_Some (split_times k (toy_init a))) = true ->
  reachable a (toy_after k a).
Proof.
  intros E Ek.
  exact (reachable_split_times a k _ _ (toy_init_ok a E) (toy_after_ok k a Ek)).
Qed.



(** With [max_depth] set as well the budget can be exceeded: the depth
    test comes first in [split_next], and at the maximal depth the queue
    is not drained.  Eight samples, [max_leaf_nodes = 3], [max_depth = 2]:
    four leaves. *)
Example leaf_budget_exceeded_at_max_depth :
  grow 100 (toy_init toy_both) = (toy_final toy_both, Ok tt) /\
  max_leaf_nodes (toy_final toy_both) = Some 3 /\
  finalized_leaves (toy_final toy_both) = [3; 4; 5; 6]%nat.
Proof.
  split; [apply toy_final_ok; vm_compute; reflexivity|].
  split; vm_compute; reflexivity.
Qed.

(** C2 on the toy grower with [max_depth = 2], after one split. *)
Lemma depth_law_witness :
  (forall r n, nodes (toy_after 1 toy_depth) !! r = Some n ->
     0 <= depth n <= 2 /\
     (depth n = 2 ->
      weight n <> None /\ left_child n = None /\ right_child n = None /\
      split_info n = None /\
      (r ∈ finalized_leaves (toy_after 1 toy_depth)) /\
      r ∉ splittable_nodes (toy_after 1 toy_depth))) /\
  (forall fuel st' o, grow fuel (toy_after 1 toy_depth) = (st', o) ->
     forall r n, nodes st' !! r = Some n ->
       0 <= depth n <= 2 /\ (depth n = 2 -> r ∈ finalized_leaves st')).
Proof.
  apply (depth_law toy_depth 2 (toy_after 1 toy_depth)).
  - reflexivity.
  - apply toy_after_reachable; vm_compute; reflexivity.
Defined.

(** C3 on the toy grower with [max_leaf_nodes = 1]. *)
Lemma single_leaf_budget_witness :
  exists st n,
    TreeGrower toy_single = (st, Ok tt) /\
    find_node_split_calls st = [] /\
    nodes st = [n] /\ root st = 0%nat /\
    split_info n = None /\ left_child n = None /\ right_child n = None /\
    weight n =
      Some (leaf_weight (splitter_of toy_single) (a_shrinkage toy_single)
                        (root_node toy_single (splitter_of toy_single))) /\
    splittable_nodes st = [] /\ finalized_leaves st = [0%nat] /\
    n_nodes st = 1 /\
    forall fuel, grow fuel st = (st, Ok tt).
Proof.
  apply (single_leaf_budget toy_single).
  - repeat split; reflexivity.
  - reflexivity.
Defined.



(** C6 on three invalid configurations: a float matrix (together with
    [max_leaf_nodes = 0]), [max_leaf_nodes = 0], and [max_depth = -3]. *)
Lemma invalid_configuration_witness :
  TreeGrower (mkInitArgs (mkNdarray float64 true 2 1 [0; 0]) [] [] (Some 0) None
                         0%Q 256 0%Q 0%Q 1%Q)
  = (fresh_object,
     Raise (NotImplementedError "Explicit feature binning required for now")) /\
  TreeGrower (toy_args 8 (Some 0) None)
  = (fresh_object,
     Raise (ValueError "max_leaf_nodes=0 should not be smaller than 1")) /\
  TreeGrower (toy_args 8 None (Some (-3)))
  = (fresh_object,
     Raise (ValueError "max_depth=-3 should not be smaller than 1")).
Proof.
  split; [|split].
  - apply (proj1 (invalid_configuration_fails_fast _)). discriminate.
  - apply (proj1 (proj2 (invalid_configuration_fails_fast (toy_args 8 (Some 0) None))) 0);
      [reflexivity|reflexivity|lia].
  - apply (proj1 (proj2 (proj2
             (invalid_configuration_fails_fast (toy_args 8 None (Some (-3)))))) (-3));
      [reflexivity|reflexivity|reflexivity|lia].
Defined.

(** C9 on the fully grown toy tree. *)
Lemma exhaustion_is_not_an_error_witness :
  (splittable_nodes (toy_final toy_plain) = [] ->
   split_next (toy_final toy_plain)
   = (toy_final toy_plain, Raise (StopIteration "No more splittable nodes"))) /\
  (forall st' e, split_next (toy_final toy_plain) = (st', Raise e) ->
     splittable_nodes (toy_final toy_plain) = []) /\
  (forall fuel, splittable_nodes (toy_final toy_plain) = [] ->
     grow fuel (toy_final toy_plain) = (toy_final toy_plain, Ok tt)) /\
  (forall fuel, splittable_nodes (toy_final toy_plain) <> [] ->
     grow (S fuel) (toy_final toy_plain) = (split_next ;;; grow fuel) (toy_final toy_plain)) /\
  (forall fuel st' o, grow fuel (toy_final toy_plain) = (st', o) ->
     (o = Ok tt /\ splittable_nodes st' = []) \/
     (o = OutOfFuel /\ splittable_nodes st' <> [])).
Proof.
  apply (exhaustion_is_not_an_error toy_plain (toy_final toy_plain)).
  apply toy_final_reachable. vm_compute. reflexivity.
Defined.

(** C10 on the fully grown toy tree: fifteen nodes, eight leaves. *)
Lemma full_binary_tree_witness :
  splittable_nodes (toy_final toy_plain) = [] /\
  (forall r n, nodes (toy_final toy_plain) !! r = Some n ->
     ((r ∈ finalized_leaves (toy_final toy_plain)) /\ weight n <> None /\
      left_child n = None /\ right_child n = None)
     \/ ((r ∉ finalized_leaves (toy_final toy_plain)) /\ weight n = None /\
         split_info n <> None /\
         exists l r', left_child n = Some l /\ right_child n = Some r' /\
                      is_Some (nodes (toy_final toy_plain) !! l) /\
                      is_Some (nodes (toy_final toy_plain) !! r'))) /\
  NoDup (finalized_leaves (toy_final toy_plain)) /\
  n_nodes (toy_final toy_plain) = Z.of_nat (length (nodes (toy_final toy_plain))) /\
  n_nodes (toy_final toy_plain)
  = 2 * Z.of_nat (length (finalized_leaves (toy_final toy_plain))) - 1.
Proof.
  apply (full_binary_tree toy_plain (toy_init toy_plain) (toy_final toy_plain) 100).
  - apply reachable_init. apply toy_init_ok. vm_compute. reflexivity.
  - apply toy_final_ok. vm_compute. reflexivity.
Defined.

(** C8 on the fully grown toy tree. *)
Lemma predictor_preorder_witness :
  (exists k, grown toy_plain k (toy_final toy_plain) /\
             n_nodes (toy_final toy_plain) = 1 + 2 * Z.of_nat k) /\
  forall fuel, (length (nodes (toy_final toy_plain)) <= fuel)%nat ->
    exists arr,
      make_predictor fuel (toy_final toy_plain) = (toy_final toy_plain, Ok arr) /\
      Z.of_nat (length arr) = n_nodes (toy_final toy_plain) /\
      laid_out (nodes (toy_final toy_plain)) arr (root (toy_final toy_plain))
               0%nat (length arr).
Proof.
  apply (predictor_preorder toy_plain (toy_init toy_plain) (toy_final toy_plain) 100).
  - apply reachable_init. apply toy_init_ok. vm_compute. reflexivity.
  - apply toy_final_ok. vm_compute. reflexivity.
Defined.

(** The array of the tree grown under a budget of four leaves, as it is
    computed: the root in slot 0, its left child (a leaf) in slot 1, its
    right child in slot 2, whose left child is the leaf in slot 3 and
    whose right child, in slot 4, has the leaves in slots 5 and 6. *)
Example predictor_array_example :
  snd (make_predictor 7 (toy_final (toy_args 8 (Some 4) None)))
  = Ok [ mkPredictorRecord _ 0%Q false 0 4 1 2;
         mkPredictorRecord _ (5 # 2)%Q true 0 0 0 0;
         mkPredictorRecord _ 0%Q false 0 2 3 4;
         mkPredictorRecord _ (11 # 2)%Q true 0 0 0 0;
         mkPredictorRecord _ 0%Q false 0 1 5 6;
         mkPredictorRecord _ 7%Q true 0 0 0 0;
         mkPredictorRecord _ 8%Q true 0 0 0 0 ]%nat.
Proof. vm_compute. reflexivity. Qed.

(** C7 on the root of the single-leaf toy grower, which has no
    [split_info], and on the two children of the root of the plain one,
    whose gains are 6 (node 1) and 22 (node 2). *)
Lemma TreeNode_lt_witness :
  TreeNode_lt (toy_node (toy_final toy_single) 0) (toy_node (toy_after 1 toy_plain) 2)
  = Raise (ValueError "Cannot compare nodes with split_info") /\
  TreeNode_lt (toy_node (toy_after 1 toy_plain) 2) (toy_node (toy_after 1 toy_plain) 1)
  = Ok (@sltb QScalar 6%Q 22%Q) /\
  @sltb QScalar 6%Q 22%Q = true.
Proof.
  split; [|split].
  - apply (proj1 (TreeNode_lt_fails_fast _ _)). left. vm_compute. reflexivity.
  - apply (proj2 (TreeNode_lt_fails_fast (toy_node (toy_after 1 toy_plain) 2)
                                         (toy_node (toy_after 1 toy_plain) 1))
             (@mkSplitInfo QScalar 22%Q 0 2 11%Q 2%Q 15%Q 2%Q)
             (@mkSplitInfo QScalar 6%Q 0 2 3%Q 2%Q 7%Q 2%Q));
      vm_compute; reflexivity.
  - reflexivity.
Defined.

(** ** The further laws on the toy grower *)

Lemma toy_after_grown (k : nat) (a : InitArgs) :
  snd (TreeGrower a) = Ok tt ->
  bool_decide (is_Some (split_times k (toy_init a))) = true ->
  grown a k (toy_after k a).
Proof.
  intros E Ek.
  exact (grown_split_times a k 0 _ _ (grown_init a _ (toy_init_ok a E))
                           (toy_after_ok k a Ek)).
Qed.

Lemma toy_next_ok (st : State) :
  match snd (split_next st) with Ok _ => true | _ => false end = true ->
  split_next st = (toy_next st, Ok (fst (toy_children st), snd (toy_children st))).
Proof.
  unfold toy_next, toy_children.
  destruct (split_next st) as [s [[l r]|e|]]; cbn; intros E;
    [reflexivity|discriminate|discriminate].
Qed.

Lemma toy_split_info_ok (st : State) (r : node_ref) :
  bool_decide (is_Some (split_info (toy_node st r))) = true ->
  split_info (toy_node st r) = Some (toy_split_info st r).
Proof.
  intros Hr. apply bool_decide_eq_true in Hr as [si Hsi].
  unfold toy_split_info. rewrite Hsi. reflexivity.
Qed.

Lemma has_child (n : TreeNode) :
  bool_decide (is_Some (left_child n)) = true ->
  left_child n <> None \/ right_child n <> None.
Proof.
  intros Hl. apply bool_decide_eq_true in Hl as [l Hl]. left. rewrite Hl. discriminate.
Qed.

Lemma queue_refs_checked (st : State) :
  forallb (fun q => bool_decide (is_Some (nodes st !! q))) (splittable_nodes st) = true ->
  Forall (fun q => is_Some (nodes st !! q)) (splittable_nodes st).
Proof.
  intros Hall. apply Forall_forall. intros q Hq.
  rewrite forallb_forall in Hall. apply list_elem_of_In in Hq.
  apply (bool_decide_eq_true_1 (is_Some (nodes st !! q))). apply Hall. exact Hq.
Qed.


(** X2 on the toy grower: the root of the eight samples has the gain 28
    and is queued. *)
Lemma root_is_evaluated_once_witness :
  let sp := splitter_of toy_plain in
  let all := seq 0 (shape0 (a_features_data toy_plain)) in
  let si := find_node_split sp all in
  find_node_split_calls (toy_init toy_plain) = [all] /\
  root (toy_init toy_plain) = 0%nat /\
  exists m,
    nodes (toy_init toy_plain) = [m] /\ depth m = 0 /\ sample_indices m = all /\
    sum_gradients m = ssum (all_gradients sp) /\
    sum_hessians m = ssum (all_hessians sp) /\
    split_info m = Some si /\ left_child m = None /\ right_child m = None /\
    if sltb (gain si) (a_min_gain_to_split toy_plain)
    then finalized_leaves (toy_init toy_plain) = [0%nat] /\
         splittable_nodes (toy_init toy_plain) = [] /\
         weight m = Some (sdiv (smul (a_shrinkage toy_plain) (sum_gradients m))
                               (sadd (sum_hessians m) (l2_regularization sp))) /\
         forall fuel, grow fuel (toy_init toy_plain) = (toy_init toy_plain, Ok tt)
    else finalized_leaves (toy_init toy_plain) = [] /\
         splittable_nodes (toy_init toy_plain) = [0%nat] /\
         weight m = None.
Proof.
  apply (root_is_evaluated_once toy_plain (toy_init toy_plain)).
  - apply toy_init_ok. vm_compute. reflexivity.
  - discriminate.
Defined.

(** X3 on the toy grower after two splits: node 3 is a child of node 2. *)
Lemma depth_is_distance_from_root_witness :
  (exists m, nodes (toy_after 2 toy_plain) !! root (toy_after 2 toy_plain) = Some m /\
             depth m = 0) /\
  exists mc, nodes (toy_after 2 toy_plain) !! 3%nat = Some mc /\
             depth mc = depth (toy_node (toy_after 2 toy_plain) 2) + 1.
Proof.
  assert (Hr : reachable toy_plain (toy_after 2 toy_plain))
    by (apply toy_after_reachable; vm_compute; reflexivity).
  split.
  - apply (proj1 (depth_is_distance_from_root toy_plain (toy_after 2 toy_plain) Hr)).
  - apply (proj2 (depth_is_distance_from_root toy_plain (toy_after 2 toy_plain) Hr)
             2%nat (toy_node (toy_after 2 toy_plain) 2) 3%nat).
    + apply toy_node_ok. vm_compute. reflexivity.
    + left. vm_compute. reflexivity.
Defined.

(** X4 on the root of the toy grower after two splits. *)
Lemma children_carry_the_split_witness :
  exists l r si ml mr,
    left_child (toy_node (toy_after 2 toy_plain) 0) = Some l /\
    right_child (toy_node (toy_after 2 toy_plain) 0) = Some r /\ l <> r /\
    split_info (toy_node (toy_after 2 toy_plain) 0) = Some si /\
    nodes (toy_after 2 toy_plain) !! l = Some ml /\
    nodes (toy_after 2 toy_plain) !! r = Some mr /\
    (sample_indices ml, sample_indices mr)
    = split_indices (splitter_of toy_plain)
        (sample_indices (toy_node (toy_after 2 toy_plain) 0)) si /\
    sum_gradients ml = gradient_left si /\ sum_hessians ml = hessian_left si /\
    sum_gradients mr = gradient_right si /\ sum_hessians mr = hessian_right si.
Proof.
  apply (children_carry_the_split toy_plain (toy_after 2 toy_plain) 0%nat).
  - apply toy_after_reachable; vm_compute; reflexivity.
  - apply toy_node_ok. vm_compute. reflexivity.
  - apply has_child. vm_compute. reflexivity.
Defined.

(** X5 on the fully grown toy tree: node 5 holds one sample, its gain
    [-1] is below the threshold [0]; node 2 was split with the gain 22. *)
Lemma no_split_below_min_gain_witness :
  (5%nat ∈ finalized_leaves (toy_final toy_plain) /\
   (5%nat ∉ splittable_nodes (toy_final toy_plain)) /\
   weight (toy_node (toy_final toy_plain) 5) <> None /\
   left_child (toy_node (toy_final toy_plain) 5) = None /\
   right_child (toy_node (toy_final toy_plain) 5) = None) /\
  sltb (gain (toy_split_info (toy_final toy_plain) 2)) (a_min_gain_to_split toy_plain)
  = false.
Proof.
  assert (Hr : reachable toy_plain (toy_final toy_plain))
    by (apply toy_final_reachable; vm_compute; reflexivity).
  assert (H5 : nodes (toy_final toy_plain) !! 5%nat
               = Some (toy_node (toy_final toy_plain) 5))
    by (apply toy_node_ok; vm_compute; reflexivity).
  assert (S5 : split_info (toy_node (toy_final toy_plain) 5)
               = Some (toy_split_info (toy_final toy_plain) 5))
    by (apply toy_split_info_ok; vm_compute; reflexivity).
  assert (H2 : nodes (toy_final toy_plain) !! 2%nat
               = Some (toy_node (toy_final toy_plain) 2))
    by (apply toy_node_ok; vm_compute; reflexivity).
  assert (S2 : split_info (toy_node (toy_final toy_plain) 2)
               = Some (toy_split_info (toy_final toy_plain) 2))
    by (apply toy_split_info_ok; vm_compute; reflexivity).
  split.
  - apply (proj1 (no_split_below_min_gain toy_plain (toy_final toy_plain) 5%nat
                    (toy_node (toy_final toy_plain) 5)
                    (toy_split_info (toy_final toy_plain) 5) Hr H5 S5)).
    vm_compute. reflexivity.
  - apply (proj2 (no_split_below_min_gain toy_plain (toy_final toy_plain) 2%nat
                    (toy_node (toy_final toy_plain) 2)
                    (toy_split_info (toy_final toy_plain) 2) Hr H2 S2)).
    right. left. vm_compute. discriminate.
Defined.

(** X6 on the toy grower under a depth limit of 2: seven nodes, three
    calls of the splitter. *)
Lemma each_node_is_evaluated_once_witness :
  find_node_split_calls (toy_final toy_depth)
  = omap (fun m => match split_info m with
                   | Some _ => Some (sample_indices m)
                   | None => None
                   end) (nodes (toy_final toy_depth)) /\
  (length (find_node_split_calls (toy_final toy_depth))
   <= length (nodes (toy_final toy_depth)))%nat /\
  forall q m si, nodes (toy_final toy_depth) !! q = Some m -> split_info m = Some si ->
    si = find_node_split (splitter_of toy_depth) (sample_indices m).
Proof.
  apply (each_node_is_evaluated_once toy_depth (toy_final toy_depth)).
  apply toy_final_reachable. vm_compute. reflexivity.
Defined.


(** X8 on the toy grower: the second split of the plain grower evaluates
    both children; the second split under a depth limit of 2 evaluates
    none. *)
Lemma children_are_settled_witness :
  (exists p n ml mr,
     splittable_nodes (toy_after 1 toy_plain) !! 0%nat = Some p /\
     nodes (toy_after 1 toy_plain) !! p = Some n /\
     fst (toy_children (toy_after 1 toy_plain)) = length (nodes (toy_after 1 toy_plain)) /\
     snd (toy_children (toy_after 1 toy_plain))
     = S (length (nodes (toy_after 1 toy_plain))) /\
     nodes (toy_next (toy_after 1 toy_plain))
       !! fst (toy_children (toy_after 1 toy_plain)) = Some ml /\
     nodes (toy_next (toy_after 1 toy_plain))
       !! snd (toy_children (toy_after 1 toy_plain)) = Some mr /\
     let at_limit :=
       max_depth (toy_after 1 toy_plain) = Some (depth n + 1)
       \/ max_leaf_nodes (toy_after 1 toy_plain)
          = Some (Z.of_nat (length (finalized_leaves (toy_after 1 toy_plain)))
                  + Z.of_nat (length (splittable_nodes (toy_after 1 toy_plain))) + 1) in
     (at_limit ->
      find_node_split_calls (toy_next (toy_after 1 toy_plain))
      = find_node_split_calls (toy_after 1 toy_plain) /\
      split_info ml = None /\ split_info mr = None /\
      fst (toy_children (toy_after 1 toy_plain))
        ∈ finalized_leaves (toy_next (toy_after 1 toy_plain)) /\
      snd (toy_children (toy_after 1 toy_plain))
        ∈ finalized_leaves (toy_next (toy_after 1 toy_plain))) /\
     (~ at_limit ->
      find_node_split_calls (toy_next (toy_after 1 toy_plain))
      = find_node_split_calls (toy_after 1 toy_plain)
        ++ [sample_indices ml; sample_indices mr] /\
      exists sl sr,
        split_info ml = Some sl /\ split_info mr = Some sr /\
        (fst (toy_children (toy_after 1 toy_plain))
           ∈ splittable_nodes (toy_next (toy_after 1 toy_plain))
         <-> sltb (gain sl) (min_gain_to_split (toy_after 1 toy_plain)) = false) /\
        (fst (toy_children (toy_after 1 toy_plain))
           ∈ finalized_leaves (toy_next (toy_after 1 toy_plain))
         <-> sltb (gain sl) (min_gain_to_split (toy_after 1 toy_plain)) = true) /\
        (snd (toy_children (toy_after 1 toy_plain))
           ∈ splittable_nodes (toy_next (toy_after 1 toy_plain))
         <-> sltb (gain sr) (min_gain_to_split (toy_after 1 toy_plain)) = false) /\
        (snd (toy_children (toy_after 1 toy_plain))
           ∈ finalized_leaves (toy_next (toy_after 1 toy_plain))
         <-> sltb (gain sr) (min_gain_to_split (toy_after 1 toy_plain)) = true))) /\
  find_node_split_calls (toy_next (toy_after 1 toy_plain))
  = find_node_split_calls (toy_after 1 toy_plain) ++ [[4; 5]; [6; 7]]%nat /\
  find_node_split_calls (toy_next (toy_after 1 toy_depth))
  = find_node_split_calls (toy_after 1 toy_depth).
Proof.
  split; [|split].
  - apply (children_are_settled toy_plain (toy_after 1 toy_plain)
             (toy_next (toy_after 1 toy_plain))).
    + apply toy_after_reachable; vm_compute; reflexivity.
    + apply toy_next_ok. vm_compute. reflexivity.
  - vm_compute. reflexivity.
  - vm_compute. reflexivity.
Defined.

(** X9 on the toy grower with [max_depth = 2]: three splits, four leaves. *)
Lemma depth_limit_bounds_the_tree_witness :
  exists st k,
    (forall fuel, (Z.to_nat (2 ^ 2 - 1) <= fuel)%nat ->
       grow fuel (toy_init toy_depth) = (st, Ok tt)) /\
    grown toy_depth k st /\ Z.of_nat k <= 2 ^ 2 - 1 /\
    splittable_nodes st = [] /\
    Z.of_nat (length (finalized_leaves st)) <= 2 ^ 2 /\
    n_nodes st <= 2 ^ (2 + 1) - 1.
Proof.
  apply (depth_limit_bounds_the_tree toy_depth 2 (toy_init toy_depth)).
  - reflexivity.
  - apply toy_init_ok. vm_compute. reflexivity.
Defined.

(** X10 on the toy grower after two splits: five nodes, three of them
    queued. *)
Lemma two_nodes_per_split_witness :
  n_nodes (toy_after 2 toy_plain) = 2 * Z.of_nat 2 + 1 /\
  length (nodes (toy_after 2 toy_plain)) = (2 * 2 + 1)%nat /\
  (length (splittable_nodes (toy_after 2 toy_plain))
   + length (finalized_leaves (toy_after 2 toy_plain)) = 2 + 1)%nat /\
  NoDup (splittable_nodes (toy_after 2 toy_plain)
         ++ finalized_leaves (toy_after 2 toy_plain)).
Proof.
  apply (two_nodes_per_split toy_plain 2 (toy_after 2 toy_plain)).
  apply toy_after_grown; vm_compute; reflexivity.
Defined.

(** X11 on the toy grower after two splits, with three nodes queued. *)
Lemma make_predictor_needs_a_finished_tree_witness :
  exists e, make_predictor 10 (toy_after 2 toy_plain)
            = (toy_after 2 toy_plain, Raise e) /\
            exists msg, e = IndexError msg \/ e = AttributeError msg.
Proof.
  apply (make_predictor_needs_a_finished_tree toy_plain (toy_after 2 toy_plain)).
  - apply toy_after_reachable; vm_compute; reflexivity.
  - apply nonempty_queue. vm_compute. reflexivity.
  - vm_compute. lia.
Defined.

(** The walk over the tree above: the root in slot 0, node 1, which is
    queued, in slot 1, and no child of node 1 to put in slot 2. *)
Example make_predictor_unfinished_example :
  snd (make_predictor 10 (toy_after 2 toy_plain))
  = Raise (AttributeError "'NoneType' object has no attribute 'weight'").
Proof. vm_compute. reflexivity. Qed.

(** X12 on the toy grower after two splits: the queue [4; 1; 3] is
    appended to the leaves as [3; 1; 4]. *)
Lemma queue_is_drained_from_the_end_witness :
  splittable_nodes (toy_after 2 toy_plain) = [4; 1; 3]%nat /\
  exists st',
    _finalize_splittable_nodes (toy_after 2 toy_plain) = (st', Ok tt) /\
    splittable_nodes st' = [] /\
    finalized_leaves st'
    = finalized_leaves (toy_after 2 toy_plain)
      ++ reverse (splittable_nodes (toy_after 2 toy_plain)) /\
    find_node_split_calls st' = find_node_split_calls (toy_after 2 toy_plain) /\
    n_nodes st' = n_nodes (toy_after 2 toy_plain) /\
    length (nodes st') = length (nodes (toy_after 2 toy_plain)) /\
    (forall q, q ∉ splittable_nodes (toy_after 2 toy_plain) ->
       nodes st' !! q = nodes (toy_after 2 toy_plain) !! q) /\
    (forall q n, q ∈ splittable_nodes (toy_after 2 toy_plain) ->
       nodes (toy_after 2 toy_plain) !! q = Some n ->
       nodes st' !! q =
         Some (set_weight
                 (Some (sdiv (smul (shrinkage (toy_after 2 toy_plain)) (sum_gradients n))
                             (sadd (sum_hessians n)
                                   (l2_regularization (splitter_of toy_plain))))) n)).
Proof.
  split; [vm_compute; reflexivity|].
  apply (queue_is_drained_from_the_end (toy_after 2 toy_plain) (splitter_of toy_plain)).
  - vm_compute. reflexivity.
  - apply queue_refs_checked. vm_compute. reflexivity.
Defined.

(** X13 on the fully grown toy tree. *)
Lemma predictor_links_point_forward_witness :
  exists arr,
    make_predictor 15 (toy_final toy_plain) = (toy_final toy_plain, Ok arr) /\
    forall i rec, arr !! i = Some rec ->
      p_is_leaf rec = true
      \/ (p_is_leaf rec = false /\ p_left rec = S i /\
          (S i < p_right rec < length arr)%nat).
Proof.
  apply (predictor_links_point_forward toy_plain (toy_init toy_plain)
           (toy_final toy_plain) 100).
  - apply reachable_init. apply toy_init_ok. vm_compute. reflexivity.
  - apply toy_final_ok. vm_compute. reflexivity.
  - vm_compute. lia.
Defined.

(** X14 on the toy grower after two splits: the nodes 3 and 4 print the
    same text, and they agree on what the text shows. *)
Lemma TreeNode_repr_shows_the_node_witness :
  TreeNode_repr (toy_node (toy_after 2 toy_plain) 3)
  = "TreeNode: depth=2, samples=2, feature_idx=0, bin_idx=1"%string /\
  depth (toy_node (toy_after 2 toy_plain) 3) = depth (toy_node (toy_after 2 toy_plain) 4) /\
  length (sample_indices (toy_node (toy_after 2 toy_plain) 3))
  = length (sample_indices (toy_node (toy_after 2 toy_plain) 4)) /\
  match split_info (toy_node (toy_after 2 toy_plain) 3),
        split_info (toy_node (toy_after 2 toy_plain) 4) with
  | Some s1, Some s2 => feature_idx s1 = feature_idx s2 /\ bin_idx s1 = bin_idx s2
  | None, None => True
  | _, _ => False
  end.
Proof.
  split; [vm_compute; reflexivity|].
  apply (TreeNode_repr_shows_the_node (toy_node (toy_after 2 toy_plain) 3)
                                      (toy_node (toy_after 2 toy_plain) 4)).
  vm_compute. reflexivity.
Defined.

(** X15 on the toy grower with a budget of three leaves, after one split. *)
Lemma leaf_budget_is_never_exceeded_witness :
  Z.of_nat (length (splittable_nodes (toy_after 1 toy_budget))
            + length (finalized_leaves (toy_after 1 toy_budget))) <= 3 /\
  n_nodes (toy_after 1 toy_budget) <= 2 * 3 - 1.
Proof.
  apply (leaf_budget_is_never_exceeded toy_budget 3 (toy_after 1 toy_budget)).
  - reflexivity.
  - reflexivity.
  - apply toy_after_reachable; vm_compute; reflexivity.
Defined.

(** X16 on the toy grower: the second split under a budget of three
    leaves drains the queue; the second split under a budget of three
    leaves and a depth limit of 2 does not. *)
Lemma queue_after_a_split_witness :
  (exists p n,
     splittable_nodes (toy_after 1 toy_budget) !! 0%nat = Some p /\
     nodes (toy_after 1 toy_budget) !! p = Some n /\
     (p ∉ splittable_nodes (toy_next (toy_after 1 toy_budget))) /\
     (p ∉ finalized_leaves (toy_next (toy_after 1 toy_budget))) /\
     let drained :=
       max_depth (toy_after 1 toy_budget) <> Some (depth n + 1) /\
       max_leaf_nodes (toy_after 1 toy_budget)
       = Some (Z.of_nat (length (finalized_leaves (toy_after 1 toy_budget)))
               + Z.of_nat (length (splittable_nodes (toy_after 1 toy_budget))) + 1) in
     (drained ->
      splittable_nodes (toy_next (toy_after 1 toy_budget)) = [] /\
      (forall q, q ∈ splittable_nodes (toy_after 1 toy_budget) -> q <> p ->
         q ∈ finalized_leaves (toy_next (toy_after 1 toy_budget))) /\
      length (finalized_leaves (toy_next (toy_after 1 toy_budget)))
      = (length (finalized_leaves (toy_after 1 toy_budget))
         + length (splittable_nodes (toy_after 1 toy_budget)) + 1)%nat) /\
     (~ drained ->
      (forall q, q ∈ splittable_nodes (toy_after 1 toy_budget) -> q <> p ->
         q ∈ splittable_nodes (toy_next (toy_after 1 toy_budget))) /\
      (forall q, q ∈ splittable_nodes (toy_next (toy_after 1 toy_budget)) ->
         q ∈ splittable_nodes (toy_after 1 toy_budget)
         \/ q = fst (toy_children (toy_after 1 toy_budget))
         \/ q = snd (toy_children (toy_after 1 toy_budget))))) /\
  splittable_nodes (toy_next (toy_after 1 toy_budget)) = [] /\
  splittable_nodes (toy_next (toy_after 1 toy_both)) = [1%nat].
Proof.
  split; [|split].
  - apply (queue_after_a_split toy_budget (toy_after 1 toy_budget)
             (toy_next (toy_after 1 toy_budget))
             (fst (toy_children (toy_after 1 toy_budget)))
             (snd (toy_children (toy_after 1 toy_budget)))).
    + apply toy_after_reachable; vm_compute; reflexivity.
    + apply toy_next_ok. vm_compute. reflexivity.
  - vm_compute. reflexivity.
  - vm_compute. reflexivity.
Defined.

(** X17 on the root of the toy grower after two splits, which is split. *)
Lemma every_node_has_one_state_witness :
  (0%nat ∈ splittable_nodes (toy_after 2 toy_plain) /\
   (0%nat ∉ finalized_leaves (toy_after 2 toy_plain)) /\
   weight (toy_node (toy_after 2 toy_plain) 0) = None /\
   split_info (toy_node (toy_after 2 toy_plain) 0) <> None /\
   left_child (toy_node (toy_after 2 toy_plain) 0) = None /\
   right_child (toy_node (toy_after 2 toy_plain) 0) = None)
  \/ (0%nat ∈ finalized_leaves (toy_after 2 toy_plain) /\
      (0%nat ∉ splittable_nodes (toy_after 2 toy_plain)) /\
      weight (toy_node (toy_after 2 toy_plain) 0) <> None /\
      left_child (toy_node (toy_after 2 toy_plain) 0) = None /\
      right_child (toy_node (toy_after 2 toy_plain) 0) = None)
  \/ ((0%nat ∉ splittable_nodes (toy_after 2 toy_plain)) /\
      (0%nat ∉ finalized_leaves (toy_after 2 toy_plain)) /\
      weight (toy_node (toy_after 2 toy_plain) 0) = None /\
      split_info (toy_node (toy_after 2 toy_plain) 0) <> None /\
      exists l r, left_child (toy_node (toy_after 2 toy_plain) 0) = Some l /\
                  right_child (toy_node (toy_after 2 toy_plain) 0) = Some r /\
                  (0 < l < length (nodes (toy_after 2 toy_plain)))%nat /\
                  (0 < r < length (nodes (toy_after 2 toy_plain)))%nat).
Proof.
  apply (every_node_has_one_state toy_plain (toy_after 2 toy_plain) 0%nat).
  - apply toy_after_reachable; vm_compute; reflexivity.
  - apply toy_node_ok. vm_compute. reflexivity.
Defined.

(** X18 on the toy grower after two splits: the queue [4; 1; 3] holds
    the gains 13, 6 and 9, and node 3, at index 2, does not beat node 4,
    at index 0. *)
Lemma queue_is_a_heap_witness :
  (forall x y, x ∈ splittable_nodes (toy_after 2 toy_plain) ->
     y ∈ splittable_nodes (toy_after 2 toy_plain) ->
     exists mx my sx sy,
       nodes (toy_after 2 toy_plain) !! x = Some mx /\
       nodes (toy_after 2 toy_plain) !! y = Some my /\
       split_info mx = Some sx /\ split_info my = Some sy /\
       ref_lt (nodes (toy_after 2 toy_plain)) x y = Ok (sltb (gain sy) (gain sx))) /\
  sltb (gain (toy_split_info (toy_after 2 toy_plain) 4))
       (gain (toy_split_info (toy_after 2 toy_plain) 3)) = false.
Proof.
  assert (Hr : reachable toy_plain (toy_after 2 toy_plain))
    by (apply toy_after_reachable; vm_compute; reflexivity).
  split.
  - apply (proj1 (queue_is_a_heap toy_plain (toy_after 2 toy_plain) Hr)).
  - apply (proj2 (queue_is_a_heap toy_plain (toy_after 2 toy_plain) Hr)
             Qlt_scalar_order 2%nat 3%nat 4%nat
             (toy_node (toy_after 2 toy_plain) 3) (toy_node (toy_after 2 toy_plain) 4)).
    + vm_compute. reflexivity.
    + apply toy_node_ok. vm_compute. reflexivity.
    + apply toy_split_info_ok. vm_compute. reflexivity.
    + apply toy_node_ok. vm_compute. reflexivity.
    + apply toy_split_info_ok. vm_compute. reflexivity.
    + right. vm_compute. reflexivity.
Defined.


(** X20 on the fully grown toy tree: fifteen records, eight of them
    leaves. *)
Lemma predictor_has_one_leaf_record_per_leaf_witness :
  exists arr,
    make_predictor 15 (toy_final toy_plain) = (toy_final toy_plain, Ok arr) /\
    length arr = length (nodes (toy_final toy_plain)) /\
    length (filter (fun rec => p_is_leaf rec = true) arr)
    = length (finalized_leaves (toy_final toy_plain)) /\
    (length (filter (fun rec => p_is_leaf rec = false) arr) + 1
     = length (finalized_leaves (toy_final toy_plain)))%nat.
Proof.
  apply (predictor_has_one_leaf_record_per_leaf toy_plain (toy_init toy_plain)
           (toy_final toy_plain) 100).
  - apply reachable_init. apply toy_init_ok. vm_compute. reflexivity.
  - apply toy_final_ok. vm_compute. reflexivity.
  - vm_compute. lia.
Defined.

(** The toy splitter cuts a set of two samples or more in two halves
    that are not empty. *)
Lemma toy_shrinking_splits (sp : HistogramSplitter) : shrinking_splits sp 0%Q.
Proof.
  intros idx.
  change (find_node_split sp idx) with (toy_find_node_split sp idx).
  change (split_indices sp idx (toy_find_node_split sp idx))
    with (toy_split_indices sp idx (toy_find_node_split sp idx)).
  unfold toy_split_indices, toy_find_node_split. cbn [gain bin_idx fst snd].
  destruct (Nat.ltb_spec (length idx) 2) as [Hlt|Hge]; [intros Hg; discriminate Hg|].
  intros _. rewrite Nat2Z.id.
  assert (Hhalf : (1 <= length idx / 2 < length idx)%nat).
  { split.
    - apply Nat.div_le_lower_bound; lia.
    - apply Nat.div_lt; lia. }
  split; [|split].
  - rewrite length_take, length_drop. lia.
  - intros E. apply (f_equal length) in E. rewrite length_take in E. cbn [length] in E. lia.
  - intros E. apply (f_equal length) in E. rewrite length_drop in E. cbn [length] in E. lia.
Qed.

(** X21 on the toy grower without any limit: eight samples, at most
    seven splits and eight leaves. *)
Lemma grow_stops_when_splits_shrink_witness :
  exists st k,
    (forall fuel, (8 - 1 <= fuel)%nat -> grow fuel (toy_init toy_plain) = (st, Ok tt)) /\
    grown toy_plain k st /\ (k <= 8 - 1)%nat /\
    splittable_nodes st = [] /\
    (length (finalized_leaves st) <= Nat.max 1 8)%nat.
Proof.
  apply (grow_stops_when_splits_shrink toy_plain (toy_init toy_plain)).
  - apply toy_shrinking_splits.
  - apply toy_init_ok. vm_compute. reflexivity.
Defined.

End Witnesses.
